(** * Smart waste bin sensor node (sensor_firmware.ino)

    A shallow embedding of the measurement-and-encode duty cycle of the
    ESP32 firmware: median-filtered ultrasonic ranging, the
    distance-to-fill-level transform, the battery read-out, the 13-byte
    manufacturer-data payload and the wake / broadcast / sleep cycle.

    Arithmetic follows the C++ source operation by operation.  [float] is
    IEEE-754 binary32 and [double] is binary64, both taken from the
    executable specification [SpecFloat] of the standard library (round to
    nearest, ties to even).  Integers are [Z]; the width of a C integer type
    is written out where the source narrows a value.  A float-to-integer
    cast whose truncated value does not fit the target type is undefined in
    C; the embedding returns [None] there. *)

From Stdlib Require Import ZArith List Bool Lia String Ascii Permutation.
From Stdlib Require Import Floats.SpecFloat.
Import ListNotations.
Open Scope Z_scope.

(** ** IEEE-754 formats used by the firmware *)

Module F32.
Definition prec : Z := 24.
Definition emax : Z := 128.

Definition add := SFadd prec emax.
Definition sub := SFsub prec emax.
Definition mul := SFmul prec emax.
Definition div := SFdiv prec emax.

(** Integer-to-float conversion (exact value, then rounded). *)
Definition of_Z (z : Z) : spec_float := binary_normalize prec emax z 0 false.

(** Narrowing of a binary64 value to binary32. *)
Definition of_double (x : spec_float) : spec_float :=
  match x with
  | S754_finite s m e => binary_round prec emax s m e
  | _ => x
  end.

Definition valid (x : spec_float) : bool := valid_binary prec emax x.
End F32.

Module F64.
Definition prec : Z := 53.
Definition emax : Z := 1024.

Definition add := SFadd prec emax.
Definition sub := SFsub prec emax.
Definition mul := SFmul prec emax.
Definition div := SFdiv prec emax.

Definition of_Z (z : Z) : spec_float := binary_normalize prec emax z 0 false.

(** Widening of a binary32 value to binary64 (always exact). *)
Definition of_float (x : spec_float) : spec_float :=
  match x with
  | S754_finite s m e => binary_round prec emax s m e
  | _ => x
  end.

(** The double nearest to the decimal literal [n / d]: both integers are
    exactly representable, and the division is correctly rounded. *)
Definition literal (n d : Z) : spec_float := div (of_Z n) (of_Z d).

Definition valid (x : spec_float) : bool := valid_binary prec emax x.
End F64.

Definition float := spec_float.
Definition double := spec_float.

(** C comparison operators on floating-point values; every comparison with
    a NaN operand is false. *)
Definition fle (x y : spec_float) : bool := SFleb x y.
Definition flt (x y : spec_float) : bool := SFltb x y.
Definition fge (x y : spec_float) : bool :=
  match SFcompare x y with Some (Gt | Eq) => true | _ => false end.
Definition fgt (x y : spec_float) : bool :=
  match SFcompare x y with Some Gt => true | _ => false end.
Definition feq (x y : spec_float) : bool := SFeqb x y.

Definition is_nan (x : spec_float) : bool :=
  match x with S754_nan => true | _ => false end.

Definition is_finite (x : spec_float) : bool :=
  match x with S754_zero _ | S754_finite _ _ _ => true | _ => false end.

(** Truncation toward zero of a finite value; [None] for NaN and the
    infinities. *)
Definition ftrunc (x : spec_float) : option Z :=
  match x with
  | S754_zero _ => Some 0
  | S754_finite s m e => Some (cond_Zopp s (Z.shiftl (Zpos m) e))
  | _ => None
  end.

(** [(T)x] for an integer type [T] with values [lo .. hi]. *)
Definition fcast (lo hi : Z) (x : spec_float) : option Z :=
  match ftrunc x with
  | Some z => if (lo <=? z) && (z <=? hi) then Some z else None
  | None => None
  end.

Definition to_int : spec_float -> option Z := fcast (- 2 ^ 31) (2 ^ 31 - 1).
Definition to_uint16 : spec_float -> option Z := fcast 0 (2 ^ 16 - 1).

(** [(char)z]: the low eight bits. *)
Definition to_char (z : Z) : Z := z mod 256.

(** ** Build-time configuration *)

Definition BIN_ID : string := "VAR_012".
Definition BIN_DEPTH_CM : Z := 80.
Definition SENSOR_OFFSET_CM : Z := 5.
Definition NUM_SAMPLES : nat := 5.
Definition SLEEP_INTERVAL : Z := 900000.
Definition MAX_DISTANCE_CM : Z := 200.

(** ** measureDistance *)

(** One sample: the value stored in [readings[i]] for the echo pulse width
    [duration] returned by [pulseIn]. *)
Definition reading_of_duration (duration : Z) : float :=
  if duration =? 0 then F32.of_Z MAX_DISTANCE_CM
  else F32.of_double
         (F64.div (F64.mul (F64.of_Z duration) (F64.literal 34 1000))
                  (F64.of_Z 2)).

(** The first loop: [NUM_SAMPLES] successive readings.  [pulse i] is the
    width returned by the [i]-th call of [pulseIn]. *)
Fixpoint take_readings (count i : nat) (pulse : nat -> Z) (readings : list float)
  : list float :=
  match count with
  | O => readings
  | S count' =>
      take_readings count' (S i) pulse
        (readings ++ [reading_of_duration (pulse i)])
  end.

Definition fnan : float := S754_nan.

(** Array store [a[i] = v]; the loops below never index out of range. *)
Fixpoint store (i : nat) (v : float) (a : list float) : list float :=
  match a, i with
  | [], _ => []
  | _ :: t, O => v :: t
  | h :: t, S i' => h :: store i' v t
  end.

(** Body of the inner loop:
    [if (readings[i] > readings[j]) { temp = readings[i]; ... }]. *)
Definition compare_swap (i j : nat) (a : list float) : list float :=
  if fgt (nth i a fnan) (nth j a fnan) then
    let temp := nth i a fnan in
    let a := store i (nth j a fnan) a in
    store j temp a
  else a.

(** [for (j = ...; j < NUM_SAMPLES; j++)], with [count] iterations left. *)
Fixpoint sort_inner (count i j : nat) (a : list float) : list float :=
  match count with
  | O => a
  | S count' => sort_inner count' i (S j) (compare_swap i j a)
  end.

(** [for (i = ...; i < NUM_SAMPLES - 1; i++)], with [count] iterations left. *)
Fixpoint sort_outer (count i n : nat) (a : list float) : list float :=
  match count with
  | O => a
  | S count' => sort_outer count' (S i) n (sort_inner (n - S i) i (S i) a)
  end.

Definition sort_readings (n : nat) (a : list float) : list float :=
  sort_outer (n - 1) 0 n a.

(** Sorting and selection on an array of [n] readings. *)
Definition median_of (n : nat) (readings : list float) : float :=
  nth (n / 2) (sort_readings n readings) fnan.

(** The array [readings] when the first loop ends. *)
Definition collected (pulse : nat -> Z) : list float :=
  take_readings NUM_SAMPLES 0 pulse [].

Definition measureDistance (pulse : nat -> Z) : float :=
  median_of NUM_SAMPLES (collected pulse).

(** ** calculateFillLevel *)

(** The interpolation expression
    [((BIN_DEPTH_CM - emptySpace) / BIN_DEPTH_CM) * 100.0], stored in the
    [float] variable [fillPercentage]: the difference and the quotient are
    computed in binary32, the product with the [double] literal in binary64. *)
Definition fill_percentage (emptySpace : float) : float :=
  F32.of_double
    (F64.mul
       (F64.of_float
          (F32.div (F32.sub (F32.of_Z BIN_DEPTH_CM) emptySpace)
                   (F32.of_Z BIN_DEPTH_CM)))
       (F64.literal 100 1)).

(** The two final [if] statements on [fillLevel]. *)
Definition clamp_fill (fillLevel : Z) : Z :=
  let fillLevel := if fillLevel <? 0 then 0 else fillLevel in
  if fillLevel >? 100 then 100 else fillLevel.

Definition calculateFillLevel (distance : float) : option Z :=
  let adjustedDistance := F32.sub distance (F32.of_Z SENSOR_OFFSET_CM) in
  if fle adjustedDistance (F32.of_Z 0) then Some 100
  else if fge adjustedDistance (F32.of_Z BIN_DEPTH_CM) then Some 0
  else
    let emptySpace := adjustedDistance in
    let fillPercentage := fill_percentage emptySpace in
    match to_int fillPercentage with
    | None => None
    | Some fillLevel => Some (clamp_fill fillLevel)
    end.

(** ** readBatteryVoltage *)

Definition readBatteryVoltage (rawValue : Z) : float :=
  F32.of_double
    (F64.mul
       (F64.mul (F64.div (F64.of_Z rawValue) (F64.literal 4095 1))
                (F64.literal 33 10))
       (F64.literal 2 1)).

(** ** broadcastData: the manufacturer-data payload *)

Definition char_code (c : ascii) : Z := Z.of_N (N_of_ascii c).

Definition char_at (i : nat) (s : string) : ascii :=
  match String.get i s with Some c => c | None => zero end.

(** [for (int i = 0; i < 6 && i < binId.length(); i++)], with [count]
    iterations left; every iteration appends one byte. *)
Fixpoint append_bin_id (count i : nat) (binId : string) (data : list Z)
  : list Z :=
  match count with
  | O => data
  | S count' =>
      if (i <? 6)%nat && (i <? String.length binId)%nat
      then append_bin_id count' (S i) binId
             (data ++ [to_char (char_code (char_at i binId))])
      else data
  end.

(** The bytes of [manufacturerData] for identifier [binId], the arguments
    [fillLevel] and [voltage] and the value [ms] returned by [millis()]
    (an unsigned 32-bit counter). *)
Definition manufacturerData (binId : string) (fillLevel : Z) (voltage : float)
    (ms : Z) : option (list Z) :=
  let data := append_bin_id 6 0 binId [] in
  let data := data ++ [to_char fillLevel] in
  match to_uint16 (F32.mul voltage (F32.of_Z 1000)) with
  | None => None
  | Some voltageMillivolts =>
      let data := data ++ [to_char (Z.land voltageMillivolts 255)] in
      let data := data ++ [to_char (Z.land (Z.shiftr voltageMillivolts 8) 255)] in
      let timestamp := (ms mod 2 ^ 32) / 1000 in
      let data := data ++ [to_char (Z.land timestamp 255)] in
      let data := data ++ [to_char (Z.land (Z.shiftr timestamp 8) 255)] in
      let data := data ++ [to_char (Z.land (Z.shiftr timestamp 16) 255)] in
      let data := data ++ [to_char (Z.land (Z.shiftr timestamp 24) 255)] in
      Some data
  end.

(** The receiver's view of a payload: the inverse of the byte layout
    [BIN_ID(6), FILL(1), VOLTAGE(2), TIMESTAMP(4)]. *)
Record Telemetry := mkTelemetry {
  t_fill : Z;
  t_millivolts : Z;
  t_uptime : Z
}.

Definition decode (payload : list Z) : Telemetry :=
  let b i := nth i payload 0 in
  mkTelemetry (b 6%nat)
              (b 7%nat + 256 * b 8%nat)
              (b 9%nat + 2 ^ 8 * b 10%nat + 2 ^ 16 * b 11%nat + 2 ^ 24 * b 12%nat).

(** ** The duty cycle: loop, broadcastData, enterDeepSleep

    The hardware and the radio stack are external.  Their state is a
    [Node]; every call that changes it appends an [Event] to the node's
    trace.  The millisecond clock advances in [delay] only; serial logging
    is left out. *)

Inductive Event : Type :=
| EvTrigger
| EvPulseIn (duration : Z)
| EvDelay (ms : Z)
| EvAnalogRead (raw : Z)
| EvSetAdvertisementData (payload : list Z) (name : string)
| EvAdvertisingStart (at_ms : Z)
| EvAdvertisingStop (at_ms : Z)
| EvTimerWakeup (us : Z)
| EvDeepSleep (at_ms : Z) (radio_on : bool).

Record Node : Type := mkNode {
  clock_ms : Z;
  advertising : bool;
  asleep : bool;
  wake_after_us : option Z;
  echo : nat -> Z;
  echo_count : nat;
  adc : Z;
  trace : list Event
}.

(** Computations on the node; [None] is undefined behaviour. *)
Definition M (A : Type) : Type := Node -> option (A * Node).

Definition ret {A : Type} (a : A) : M A := fun st => Some (a, st).

Definition bind {A B : Type} (m : M A) (k : A -> M B) : M B :=
  fun st => match m st with
            | Some (a, st') => k a st'
            | None => None
            end.

Definition lift {A : Type} (o : option A) : M A :=
  fun st => match o with Some a => Some (a, st) | None => None end.

Notation "x <- m ;; k" := (bind m (fun x => k))
  (at level 61, m at next level, right associativity).
Notation "m ;; k" := (bind m (fun _ => k))
  (at level 61, right associativity).

Definition log (ev : Event) (st : Node) : Node :=
  mkNode (clock_ms st) (advertising st) (asleep st) (wake_after_us st)
         (echo st) (echo_count st) (adc st) (trace st ++ [ev]).

Definition delay (ms : Z) : M unit :=
  fun st =>
    Some (tt, log (EvDelay ms)
                (mkNode (clock_ms st + ms) (advertising st) (asleep st)
                        (wake_after_us st) (echo st) (echo_count st) (adc st)
                        (trace st))).

Definition millis : M Z := fun st => Some (clock_ms st mod 2 ^ 32, st).

(** The trigger pulse on TRIG_PIN (LOW 2 us, HIGH 10 us, LOW). *)
Definition trigger : M unit := fun st => Some (tt, log EvTrigger st).

Definition pulseIn : M Z :=
  fun st =>
    let duration := echo st (echo_count st) in
    Some (duration,
          log (EvPulseIn duration)
            (mkNode (clock_ms st) (advertising st) (asleep st) (wake_after_us st)
                    (echo st) (S (echo_count st)) (adc st) (trace st))).

Definition analogRead : M Z :=
  fun st => Some (adc st, log (EvAnalogRead (adc st)) st).

Definition setAdvertisementData (payload : list Z) (name : string) : M unit :=
  fun st => Some (tt, log (EvSetAdvertisementData payload name) st).

Definition advertising_start : M unit :=
  fun st =>
    Some (tt, log (EvAdvertisingStart (clock_ms st))
                (mkNode (clock_ms st) true (asleep st) (wake_after_us st)
                        (echo st) (echo_count st) (adc st) (trace st))).

Definition advertising_stop : M unit :=
  fun st =>
    Some (tt, log (EvAdvertisingStop (clock_ms st))
                (mkNode (clock_ms st) false (asleep st) (wake_after_us st)
                        (echo st) (echo_count st) (adc st) (trace st))).

Definition esp_sleep_enable_timer_wakeup (us : Z) : M unit :=
  fun st =>
    Some (tt, log (EvTimerWakeup us)
                (mkNode (clock_ms st) (advertising st) (asleep st) (Some us)
                        (echo st) (echo_count st) (adc st) (trace st))).

Definition esp_deep_sleep_start : M unit :=
  fun st =>
    Some (tt, log (EvDeepSleep (clock_ms st) (advertising st))
                (mkNode (clock_ms st) (advertising st) true (wake_after_us st)
                        (echo st) (echo_count st) (adc st) (trace st))).

(** The sampling loop of measureDistance on the node: trigger, timed echo,
    conversion, 50 ms pause. *)
Fixpoint sample (count : nat) (readings : list float) : M (list float) :=
  match count with
  | O => ret readings
  | S count' =>
      trigger ;;
      duration <- pulseIn ;;
      delay 50 ;;
      sample count' (readings ++ [reading_of_duration duration])
  end.

Definition measureDistance_io : M float :=
  readings <- sample NUM_SAMPLES [] ;;
  ret (median_of NUM_SAMPLES readings).

Definition readBatteryVoltage_io : M float :=
  rawValue <- analogRead ;;
  ret (readBatteryVoltage rawValue).

Definition broadcastData (fillLevel : Z) (voltage : float) : M unit :=
  ms <- millis ;;
  data <- lift (manufacturerData BIN_ID fillLevel voltage ms) ;;
  setAdvertisementData data BIN_ID ;;
  advertising_start ;;
  delay 5000 ;;
  advertising_stop.

Definition enterDeepSleep : M unit :=
  esp_sleep_enable_timer_wakeup (SLEEP_INTERVAL * 1000) ;;
  esp_deep_sleep_start.

(** One pass of [loop()]; the node does not come back from deep sleep. *)
Definition loop : M unit :=
  distance <- measureDistance_io ;;
  fillLevel <- lift (calculateFillLevel distance) ;;
  batteryVoltage <- readBatteryVoltage_io ;;
  broadcastData fillLevel batteryVoltage ;;
  delay 100 ;;
  enterDeepSleep.

(** * Rounding to nearest, ties to even

    Properties of the rounding functions of [SpecFloat] that the
    firmware's arithmetic relies on: the result of every operation is a
    valid float, and rounding preserves the order of the exact values. *)


Lemma digits2_size (m : positive) : digits2_pos m = Pos.size m.
Proof. induction m; simpl; congruence. Qed.

Lemma Zdigits2_log2 (z : Z) : 0 < z -> Zdigits2 z = Z.log2 z + 1.
Proof.
  destruct z as [|p|p]; try lia. intros _. simpl. rewrite digits2_size.
  destruct p; simpl; lia.
Qed.

Lemma Zdigits2_bounds (z : Z) :
  0 < z -> 2 ^ (Zdigits2 z - 1) <= z < 2 ^ Zdigits2 z.
Proof.
  intros Hz. rewrite Zdigits2_log2 by assumption.
  replace (Z.log2 z + 1 - 1) with (Z.log2 z) by lia.
  apply Z.log2_spec. assumption.
Qed.

Lemma Zdigits2_nonneg (z : Z) : 0 <= Zdigits2 z.
Proof. destruct z; simpl; lia. Qed.

Lemma Zdigits2_unique (z d : Z) :
  2 ^ (d - 1) <= z < 2 ^ d -> 0 < z -> Zdigits2 z = d.
Proof.
  intros H Hz. rewrite Zdigits2_log2 by assumption.
  assert (0 < d).
  { destruct (Z_lt_le_dec 0 d) as [|Hd]; [assumption|].
    assert (2 ^ d <= 1).
    { destruct (Z.eq_dec d 0) as [->|]; [simpl; lia|].
      rewrite Z.pow_neg_r by lia. lia. }
    lia. }
  assert (Z.log2 z = d - 1); [|lia].
  apply Z.log2_unique; [lia|]. replace (Z.succ (d - 1)) with d by lia. assumption.
Qed.

Lemma Zdigits2_mono (a b : Z) : 0 <= a <= b -> Zdigits2 a <= Zdigits2 b.
Proof.
  intros [Ha Hab]. destruct (Z.eq_dec a 0) as [->|]; [apply Zdigits2_nonneg|].
  rewrite !Zdigits2_log2 by lia.
  pose proof (Z.log2_le_mono a b Hab). lia.
Qed.

Lemma Zdigits2_le (z d : Z) : 0 <= d -> 0 <= z < 2 ^ d -> Zdigits2 z <= d.
Proof.
  intros Hd [Hz Hlt]. destruct (Z.eq_dec z 0) as [->|]; [simpl; lia|].
  pose proof (Zdigits2_bounds z ltac:(lia)) as [Hlo _].
  destruct (Z_lt_le_dec d (Zdigits2 z)) as [Hgt|]; [|lia].
  assert (2 ^ d <= 2 ^ (Zdigits2 z - 1)) by (apply Z.pow_le_mono_r; lia).
  lia.
Qed.

Lemma Zdigits2_ge (z d : Z) : 2 ^ (d - 1) <= z -> 0 < z -> d <= Zdigits2 z.
Proof.
  intros Hlo Hz. pose proof (Zdigits2_bounds z Hz) as [_ Hhi].
  destruct (Z_lt_le_dec (Zdigits2 z) d) as [Hlt|]; [|lia].
  assert (2 ^ Zdigits2 z <= 2 ^ (d - 1)).
  { apply Z.pow_le_mono_r; [lia|]. lia. }
  lia.
Qed.

Lemma Zdigits2_shift (z k : Z) :
  0 < z -> 0 <= k -> Zdigits2 (z * 2 ^ k) = Zdigits2 z + k.
Proof.
  intros Hz Hk. pose proof (Zdigits2_bounds z Hz) as [Hlo Hhi].
  pose proof (Zdigits2_nonneg z).
  assert (0 < Zdigits2 z).
  { destruct (Z.eq_dec (Zdigits2 z) 0) as [E|]; [|lia]. rewrite E in Hhi. simpl in Hhi. lia. }
  assert (0 < 2 ^ k) by (apply Z.pow_pos_nonneg; lia).
  apply Zdigits2_unique; [|nia].
  replace (Zdigits2 z + k - 1) with ((Zdigits2 z - 1) + k) by lia.
  rewrite !Z.pow_add_r by lia. nia.
Qed.

Lemma Zdigits2_div (z k : Z) :
  0 <= z -> 0 <= k -> k <= Zdigits2 z -> Zdigits2 (z / 2 ^ k) = Zdigits2 z - k.
Proof.
  intros Hz Hk Hkd.
  assert (0 < 2 ^ k) by (apply Z.pow_pos_nonneg; lia).
  destruct (Z.eq_dec z 0) as [->|Hnz].
  { simpl in *. rewrite Z.div_0_l by lia. simpl. lia. }
  pose proof (Zdigits2_bounds z ltac:(lia)) as [Hlo Hhi].
  destruct (Z.eq_dec k (Zdigits2 z)) as [->|Hne].
  { rewrite Z.div_small by lia. simpl. lia. }
  assert (Hsplit : 2 ^ (Zdigits2 z - 1) = 2 ^ (Zdigits2 z - k - 1) * 2 ^ k).
  { rewrite <- Z.pow_add_r by lia. f_equal. lia. }
  assert (Hsplit2 : 2 ^ (Zdigits2 z) = 2 ^ (Zdigits2 z - k) * 2 ^ k).
  { rewrite <- Z.pow_add_r by lia. f_equal. lia. }
  assert (Hq : 2 ^ (Zdigits2 z - k - 1) <= z / 2 ^ k).
  { apply Z.div_le_lower_bound; lia. }
  assert (0 < 2 ^ (Zdigits2 z - k - 1)) by (apply Z.pow_pos_nonneg; lia).
  apply Zdigits2_unique; [|lia]. split; [assumption|].
  apply Z.div_lt_upper_bound; lia.
Qed.
Definition code (r : shr_record) : Z :=
  4 * shr_m r + (if shr_r r then 2 else 0) + (if shr_s r then 1 else 0).

Definition sticky_shift (n c : Z) : Z :=
  2 * (c / 2 ^ (n + 1)) + (if c mod 2 ^ (n + 1) =? 0 then 0 else 1).

Definition rne (c : Z) : Z :=
  (c / 2 + (if Z.odd c || Z.odd (c / 4) then 1 else 0)) / 2.

Lemma sticky_shift_0 (c : Z) : sticky_shift 0 c = c.
Proof.
  unfold sticky_shift. change (2 ^ (0 + 1)) with 2.
  destruct (Z.eqb_spec (c mod 2) 0); Z.div_mod_to_equations; lia.
Qed.

Lemma sticky_shift_succ (n c : Z) :
  0 <= n -> sticky_shift 1 (sticky_shift n c) = sticky_shift (n + 1) c.
Proof.
  intros Hn. unfold sticky_shift at 1. change (2 ^ (1 + 1)) with 4.
  unfold sticky_shift.
  replace (2 ^ (n + 1 + 1)) with (2 ^ (n + 1) * 2) by (rewrite (Z.pow_add_r 2 (n + 1) 1) by lia; reflexivity).
  assert (HP : 0 < 2 ^ (n + 1)) by (apply Z.pow_pos_nonneg; lia).
  set (P := 2 ^ (n + 1)) in *.
  rewrite Z.rem_mul_r by lia. rewrite <- Z.div_div by lia.
  set (q := c / P). pose proof (Z.mod_pos_bound c P HP) as Hr.
  set (r0 := c mod P) in *.
  destruct (Z.eqb_spec r0 0) as [Hr0|Hr0].
  - replace (r0 + P * (q mod 2)) with (P * (q mod 2)) by lia.
    destruct (Z.eqb_spec ((2 * q + 0) mod 4) 0), (Z.eqb_spec (P * (q mod 2)) 0);
      Z.div_mod_to_equations; nia.
  - destruct (Z.eqb_spec ((2 * q + 1) mod 4) 0), (Z.eqb_spec (r0 + P * (q mod 2)) 0);
      Z.div_mod_to_equations; nia.
Qed.

Lemma sticky_shift_mono (n c1 c2 : Z) :
  0 <= n -> c1 <= c2 -> sticky_shift n c1 <= sticky_shift n c2.
Proof.
  intros Hn Hc. unfold sticky_shift.
  assert (HP : 0 < 2 ^ (n + 1)) by (apply Z.pow_pos_nonneg; lia).
  set (P := 2 ^ (n + 1)) in *.
  pose proof (Z.div_le_mono c1 c2 P HP Hc) as Hq.
  pose proof (Z.div_mod c1 P ltac:(lia)) as E1.
  pose proof (Z.div_mod c2 P ltac:(lia)) as E2.
  pose proof (Z.mod_pos_bound c1 P HP). pose proof (Z.mod_pos_bound c2 P HP).
  destruct (Z.eqb_spec (c1 mod P) 0), (Z.eqb_spec (c2 mod P) 0); try lia.
  assert (c1 / P <> c2 / P); [|lia].
  intros E. rewrite E in E1. lia.
Qed.

Lemma rne_mono (c1 c2 : Z) : c1 <= c2 -> rne c1 <= rne c2.
Proof.
  intros Hc. unfold rne.
  pose proof (Zmod_odd c1) as O1. pose proof (Zmod_odd c2) as O2.
  pose proof (Zmod_odd (c1 / 4)) as Q1. pose proof (Zmod_odd (c2 / 4)) as Q2.
  assert (D1 : c1 / 4 = c1 / 2 / 2) by (rewrite Z.div_div by lia; reflexivity).
  assert (D2 : c2 / 4 = c2 / 2 / 2) by (rewrite Z.div_div by lia; reflexivity).
  rewrite D1 in *. rewrite D2 in *.
  pose proof (Z.div_le_mono c1 c2 2 ltac:(lia) Hc) as Hu.
  pose proof (Z.div_mod c1 2 ltac:(lia)) as E1.
  pose proof (Z.div_mod c2 2 ltac:(lia)) as E2.
  set (u1 := c1 / 2) in *. set (u2 := c2 / 2) in *.
  apply Z.div_le_mono; [lia|].
  destruct (Z.eq_dec u1 u2) as [E|NE].
  - rewrite <- E in *.
    destruct (Z.odd c1), (Z.odd c2), (Z.odd (u1 / 2)); simpl; lia.
  - destruct (Z.odd c1 || Z.odd (u1 / 2)), (Z.odd c2 || Z.odd (u2 / 2)); lia.
Qed.

Lemma rne_bounds (c : Z) : c / 4 <= rne c <= c / 4 + 1.
Proof.
  unfold rne. destruct (Z.odd c || Z.odd (c / 4)); Z.div_mod_to_equations; lia.
Qed.

Lemma rne_exact (m : Z) : rne (4 * m) = m.
Proof.
  unfold rne. replace (4 * m / 4) with m by (Z.div_mod_to_equations; lia).
  pose proof (Zmod_odd (4 * m)) as O1. pose proof (Zmod_odd m) as O2.
  destruct (Z.odd (4 * m)), (Z.odd m); cbn [orb]; Z.div_mod_to_equations; lia.
Qed.

Lemma shr_1_spec (m : Z) (r s : bool) :
  0 <= m ->
  shr_1 (Build_shr_record m r s) = Build_shr_record (m / 2) (Z.odd m) (r || s).
Proof.
  intros Hm. destruct m as [|[p|p|]|]; [reflexivity| | |reflexivity|lia];
    cbn [shr_1]; f_equal.
  - rewrite Pos2Z.inj_xI. Z.div_mod_to_equations. lia.
  - rewrite Pos2Z.inj_xO. Z.div_mod_to_equations. lia.
Qed.

Lemma code_shr_1 (r : shr_record) :
  0 <= shr_m r ->
  code (shr_1 r) = sticky_shift 1 (code r) /\ 0 <= shr_m (shr_1 r).
Proof.
  destruct r as [m r s]. cbn [shr_m]. intros Hm.
  rewrite shr_1_spec by assumption.
  unfold sticky_shift, code. change (2 ^ (1 + 1)) with 4. cbn [shr_m shr_r shr_s].
  pose proof (Zmod_odd m) as Om.
  split; [|Z.div_mod_to_equations; lia].
  match goal with |- context [?a mod 4 =? 0] => destruct (Z.eqb_spec (a mod 4) 0) end;
    destruct r, s, (Z.odd m); cbn [orb] in *; Z.div_mod_to_equations; lia.
Qed.

Lemma iter_pos_nat {A : Type} (f : A -> A) (p : positive) (x : A) :
  iter_pos f p x = Nat.iter (Pos.to_nat p) f x.
Proof.
  revert x. induction p as [p IH|p IH|]; intros x; cbn [iter_pos].
  - rewrite !IH, Pos2Nat.inj_xI.
    replace (S (2 * Pos.to_nat p))%nat with (Pos.to_nat p + (Pos.to_nat p + 1))%nat by lia.
    rewrite !Nat.iter_add. reflexivity.
  - rewrite !IH, Pos2Nat.inj_xO.
    replace (2 * Pos.to_nat p)%nat with (Pos.to_nat p + Pos.to_nat p)%nat by lia.
    rewrite Nat.iter_add. reflexivity.
  - reflexivity.
Qed.

Lemma code_shr_iter (n : nat) (r : shr_record) :
  0 <= shr_m r ->
  code (Nat.iter n shr_1 r) = sticky_shift (Z.of_nat n) (code r)
  /\ 0 <= shr_m (Nat.iter n shr_1 r).
Proof.
  intros Hm. induction n as [|n [IHc IHm]].
  - cbn [Nat.iter]. rewrite sticky_shift_0. auto.
  - change (Nat.iter (S n) shr_1 r) with (shr_1 (Nat.iter n shr_1 r)).
    destruct (code_shr_1 _ IHm) as [Hc Hm'].
    split; [|assumption].
    rewrite Hc, IHc, sticky_shift_succ by lia. f_equal. lia.
Qed.

Lemma shr_code (r : shr_record) (e n : Z) :
  0 <= shr_m r ->
  code (fst (shr r e n)) = sticky_shift (Z.max n 0) (code r)
  /\ snd (shr r e n) = e + Z.max n 0
  /\ 0 <= shr_m (fst (shr r e n)).
Proof.
  intros Hm. unfold shr. destruct n as [|p|p]; cbn [fst snd].
  - rewrite sticky_shift_0. change (Z.max 0 0) with 0. repeat split; [lia|assumption].
  - rewrite iter_pos_nat. destruct (code_shr_iter (Pos.to_nat p) r Hm) as [Hc Hm'].
    rewrite Hc, positive_nat_Z. replace (Z.max (Z.pos p) 0) with (Z.pos p) by lia.
    auto.
  - replace (Z.max (Z.neg p) 0) with 0 by lia. rewrite sticky_shift_0.
    repeat split; [lia|assumption].
Qed.

Lemma code_m (r : shr_record) : shr_m r = code r / 4.
Proof.
  destruct r as [m r s]. unfold code. cbn [shr_m shr_r shr_s].
  destruct r, s; Z.div_mod_to_equations; lia.
Qed.

Lemma code_rne (r : shr_record) :
  round_nearest_even (shr_m r) (loc_of_shr_record r) = rne (code r).
Proof.
  destruct r as [m r s]. unfold code, rne. cbn [shr_m shr_r shr_s].
  pose proof (Zmod_odd m) as Om. rewrite <- Z.negb_even in Om.
  assert (Hodd : forall k, (k = 0 \/ k = 1 \/ k = 2 \/ k = 3) ->
    Z.odd (4 * m + k) = Z.odd k /\ (4 * m + k) / 4 = m /\ (4 * m + k) / 2 = 2 * m + k / 2).
  { intros k Hk. split; [|split].
    - pose proof (Zmod_odd (4 * m + k)) as O1. pose proof (Zmod_odd k) as O2.
      destruct (Z.odd (4 * m + k)), (Z.odd k); try reflexivity;
        Z.div_mod_to_equations; lia.
    - Z.div_mod_to_equations; lia.
    - Z.div_mod_to_equations; lia. }
  destruct r, s; cbn [loc_of_shr_record round_nearest_even].
  - destruct (Hodd 3 ltac:(lia)) as (O & Q & H). replace (4 * m + 2 + 1) with (4 * m + 3) by lia.
    rewrite O, Q, H. cbn [orb Z.odd]. Z.div_mod_to_equations; lia.
  - destruct (Hodd 2 ltac:(lia)) as (O & Q & H). replace (4 * m + 2 + 0) with (4 * m + 2) by lia.
    rewrite O, Q, H. change (Z.odd 2) with false. cbn [orb].
    rewrite <- Z.negb_even. destruct (Z.even m); cbn [negb] in *; Z.div_mod_to_equations; lia.
  - destruct (Hodd 1 ltac:(lia)) as (O & Q & H). replace (4 * m + 0 + 1) with (4 * m + 1) by lia.
    rewrite O, Q, H. cbn [orb Z.odd]. Z.div_mod_to_equations; lia.
  - destruct (Hodd 0 ltac:(lia)) as (O & Q & H). replace (4 * m + 0 + 0) with (4 * m + 0) by lia.
    rewrite O, Q, H. change (Z.odd 0) with false. cbn [orb].
    rewrite <- Z.negb_even. destruct (Z.even m); cbn [negb] in *; Z.div_mod_to_equations; lia.
Qed.

Definition loc_bits (l : location) : Z :=
  match l with
  | loc_Exact => 0
  | loc_Inexact Lt => 1
  | loc_Inexact Eq => 2
  | loc_Inexact Gt => 3
  end.

Lemma code_of_loc (m : Z) (l : location) :
  code (shr_record_of_loc m l) = 4 * m + loc_bits l.
Proof. destruct l as [|[ | | ]]; unfold code; cbn; lia. Qed.

Lemma sticky_shift_div4 (n c : Z) :
  0 <= n -> sticky_shift n c / 4 = c / 4 / 2 ^ n.
Proof.
  intros Hn. unfold sticky_shift.
  assert (HP : 0 < 2 ^ n) by (apply Z.pow_pos_nonneg; lia).
  replace (2 ^ (n + 1)) with (2 * 2 ^ n) by (rewrite Z.pow_add_r by lia; change (2 ^ 1) with 2; lia).
  rewrite Z.div_div by lia. replace (4 * 2 ^ n) with (2 * 2 ^ n * 2) by lia.
  rewrite <- (Z.div_div c (2 * 2 ^ n) 2) by lia.
  destruct (c mod (2 * 2 ^ n) =? 0); Z.div_mod_to_equations; lia.
Qed.

Lemma sticky_shift_nonneg (n c : Z) : 0 <= n -> 0 <= c -> 0 <= sticky_shift n c.
Proof.
  intros Hn Hc. unfold sticky_shift.
  assert (0 < 2 ^ (n + 1)) by (apply Z.pow_pos_nonneg; lia).
  pose proof (Z.div_pos c (2 ^ (n + 1)) Hc ltac:(lia)).
  destruct (_ =? 0); lia.
Qed.

Section Round.
Variables prec emax : Z.
Hypothesis prec_gt_0 : 0 < prec.

Local Abbreviation emin := (emin prec emax).
Local Abbreviation fexp := (fexp prec emax).

Definition finish (sx : bool) (m e : Z) : spec_float :=
    if e <=? emax - prec then S754_finite sx (Z.to_pos m) e else S754_infinity sx.

Definition round_code (sx : bool) (c E : Z) : spec_float :=
    let n := Z.max (fexp (Zdigits2 (c / 4) + E) - E) 0 in
    let m1 := rne (sticky_shift n c) in
    if m1 =? 0 then S754_zero sx
    else if m1 =? 2 ^ prec then finish sx (2 ^ (prec - 1)) (E + n + 1)
    else finish sx m1 (E + n).

Lemma fexp_ge_emin (e : Z) : emin <= fexp e.
  Proof. unfold SpecFloat.fexp. lia. Qed.

Lemma renormalize (sx : bool) (m1 e1 : Z) :
    0 <= m1 <= 2 ^ prec -> emin <= e1 ->
    (let '(r2, e2) := shr_fexp prec emax m1 e1 loc_Exact in
     match shr_m r2 with
     | Z0 => S754_zero sx
     | Zpos m => if e2 <=? emax - prec then S754_finite sx m e2 else S754_infinity sx
     | Zneg _ => S754_nan
     end)
    = if m1 =? 0 then S754_zero sx
      else if m1 =? 2 ^ prec then finish sx (2 ^ (prec - 1)) (e1 + 1)
      else finish sx m1 e1.
  Proof.
    intros [Hm0 Hm1] He. unfold shr_fexp.
    assert (Hpow : 0 < 2 ^ prec) by (apply Z.pow_pos_nonneg; lia).
    destruct (Z.eqb_spec m1 0) as [->|Hnz].
    { change (Zdigits2 0) with 0.
      assert (Hn : fexp (0 + e1) - e1 <= 0) by (unfold SpecFloat.fexp; lia).
      unfold shr. destruct (fexp (0 + e1) - e1); try lia; reflexivity. }
    destruct (Z.eqb_spec m1 (2 ^ prec)) as [->|Hne].
    { assert (Hd : Zdigits2 (2 ^ prec) = prec + 1).
      { apply Zdigits2_unique; [|lia]. replace (prec + 1 - 1) with prec by lia.
        split; [lia|]. apply Z.pow_lt_mono_r; lia. }
      rewrite Hd.
      assert (Hn : fexp (prec + 1 + e1) - e1 = 1) by (unfold SpecFloat.fexp; lia).
      rewrite Hn. cbn [shr shr_record_of_loc iter_pos].
      rewrite shr_1_spec by lia. cbn [shr_m].
      assert (Hhalf : 2 ^ prec / 2 = 2 ^ (prec - 1)).
      { replace prec with (prec - 1 + 1) at 1 by lia.
        rewrite Z.pow_add_r by lia. change (2 ^ 1) with 2.
        rewrite Z.div_mul by lia. reflexivity. }
      rewrite Hhalf. unfold finish.
      assert (0 < 2 ^ (prec - 1)) by (apply Z.pow_pos_nonneg; lia).
      destruct (2 ^ (prec - 1)) as [|q|q] eqn:Eq; try lia. reflexivity. }
    assert (Hd : Zdigits2 m1 <= prec) by (apply Zdigits2_le; lia).
    assert (Hn : fexp (Zdigits2 m1 + e1) - e1 <= 0) by (unfold SpecFloat.fexp; lia).
    unfold shr. unfold finish.
    destruct (fexp (Zdigits2 m1 + e1) - e1); try lia;
      cbn [shr_record_of_loc shr_m]; destruct m1; try lia; reflexivity.
  Qed.

Theorem bra_code (sx : bool) (mx E : Z) (lx : location) :
    0 <= mx ->
    binary_round_aux prec emax sx mx E lx = round_code sx (4 * mx + loc_bits lx) E.
  Proof.
    intros Hmx. unfold binary_round_aux, round_code, shr_fexp.
    set (c := 4 * mx + loc_bits lx).
    assert (Hc4 : c / 4 = mx).
    { unfold c. destruct lx as [|[ | | ]]; cbn [loc_bits]; Z.div_mod_to_equations; lia. }
    rewrite Hc4.
    set (n0 := fexp (Zdigits2 mx + E) - E).
    pose proof (shr_code (shr_record_of_loc mx lx) E n0) as Hs.
    assert (Hm0 : 0 <= shr_m (shr_record_of_loc mx lx)).
    { rewrite code_m, code_of_loc. fold c. lia. }
    specialize (Hs Hm0). rewrite code_of_loc in Hs. fold c in Hs.
    destruct (shr (shr_record_of_loc mx lx) E n0) as [r1 e1]. cbn [fst snd] in Hs.
    destruct Hs as (Hc1 & He1 & Hm1).
    rewrite code_rne, Hc1. subst e1.
    set (n := Z.max n0 0) in *.
    set (m1 := rne (sticky_shift n c)).
    assert (Hn : 0 <= n) by (unfold n; lia).
    assert (Hm1b : 0 <= m1 <= 2 ^ prec).
    { pose proof (rne_bounds (sticky_shift n c)) as [Hlo Hhi]. fold m1 in Hlo, Hhi.
      rewrite sticky_shift_div4, Hc4 in * by assumption.
      assert (HP : 0 < 2 ^ n) by (apply Z.pow_pos_nonneg; lia).
      pose proof (Z.div_pos mx (2 ^ n) Hmx HP).
      split; [lia|].
      destruct (Z.eq_dec mx 0) as [->|Hnz].
      { rewrite Z.div_0_l in Hhi by lia. assert (1 <= 2 ^ prec) by lia. lia. }
      assert (Hlt : mx / 2 ^ n < 2 ^ prec); [|lia].
      apply Z.div_lt_upper_bound; [assumption|].
      pose proof (Zdigits2_bounds mx ltac:(lia)) as [_ Hhi'].
      rewrite <- Z.pow_add_r by lia.
      assert (Zdigits2 mx <= n + prec).
      { unfold n, n0, SpecFloat.fexp. lia. }
      assert (2 ^ Zdigits2 mx <= 2 ^ (n + prec)) by (apply Z.pow_le_mono_r; lia).
      lia. }
    assert (He : emin <= E + n).
    { unfold n, n0. pose proof (fexp_ge_emin (Zdigits2 mx + E)). lia. }
    apply (renormalize sx m1 (E + n) Hm1b He).
  Qed.

  (** The mantissa and exponent selected by [round_code]. *)
Definition target (c E : Z) : Z := fexp (Zdigits2 (c / 4) + E).
Definition rounded (c E : Z) : Z := rne (sticky_shift (target c E - E) c).

Definition pack (sx : bool) (m t : Z) : spec_float :=
    if m =? 0 then S754_zero sx
    else if m =? 2 ^ prec then finish sx (2 ^ (prec - 1)) (t + 1)
    else finish sx m t.

Lemma round_code_pack (sx : bool) (c E : Z) :
    E <= target c E ->
    round_code sx c E = pack sx (rounded c E) (target c E).
  Proof.
    intros HE. unfold round_code, pack, rounded, target in *.
    replace (Z.max (fexp (Zdigits2 (c / 4) + E) - E) 0)
      with (fexp (Zdigits2 (c / 4) + E) - E) by lia.
    replace (E + (fexp (Zdigits2 (c / 4) + E) - E)) with (fexp (Zdigits2 (c / 4) + E)) by lia.
    reflexivity.
  Qed.

Lemma rounded_bounds (c E : Z) :
    0 <= c -> E <= target c E -> 0 <= rounded c E <= 2 ^ prec.
  Proof.
    intros Hc HE. unfold rounded.
    set (n := target c E - E). assert (Hn : 0 <= n) by (unfold n; lia).
    pose proof (rne_bounds (sticky_shift n c)) as [Hlo Hhi].
    rewrite sticky_shift_div4 in * by assumption.
    assert (HP : 0 < 2 ^ n) by (apply Z.pow_pos_nonneg; lia).
    assert (Hmx : 0 <= c / 4) by (apply Z.div_pos; lia).
    pose proof (Z.div_pos (c / 4) (2 ^ n) Hmx HP).
    assert (Hpow : 0 < 2 ^ prec) by (apply Z.pow_pos_nonneg; lia).
    split; [lia|].
    destruct (Z.eq_dec (c / 4) 0) as [E0|Hnz].
    { rewrite E0, Z.div_0_l in Hhi by lia. lia. }
    assert (Hlt : c / 4 / 2 ^ n < 2 ^ prec); [|lia].
    apply Z.div_lt_upper_bound; [assumption|].
    pose proof (Zdigits2_bounds (c / 4) ltac:(lia)) as [_ Hhi'].
    rewrite <- Z.pow_add_r by lia.
    assert (Zdigits2 (c / 4) <= n + prec).
    { unfold n, target, SpecFloat.fexp. lia. }
    assert (2 ^ Zdigits2 (c / 4) <= 2 ^ (n + prec)) by (apply Z.pow_le_mono_r; lia).
    lia.
  Qed.

Lemma rounded_normal (c E : Z) :
    0 <= c -> E <= target c E -> emin < target c E ->
    2 ^ (prec - 1) <= rounded c E.
  Proof.
    intros Hc HE Ht. unfold rounded.
    set (n := target c E - E). assert (Hn : 0 <= n) by (unfold n; lia).
    pose proof (rne_bounds (sticky_shift n c)) as [Hlo _].
    rewrite sticky_shift_div4 in Hlo by assumption.
    assert (Hd : Zdigits2 (c / 4) = n + prec).
    { unfold n, target, SpecFloat.fexp in *. lia. }
    assert (Hmx : 0 < c / 4).
    { destruct (Z.eq_dec (c / 4) 0) as [E0|]; [rewrite E0 in Hd; simpl in Hd; lia|].
      assert (0 <= c / 4) by (apply Z.div_pos; lia). lia. }
    pose proof (Zdigits2_bounds (c / 4) Hmx) as [Hlo' _]. rewrite Hd in Hlo'.
    assert (HP : 0 < 2 ^ n) by (apply Z.pow_pos_nonneg; lia).
    assert (2 ^ (prec - 1) <= c / 4 / 2 ^ n); [|lia].
    apply Z.div_le_lower_bound; [assumption|].
    rewrite <- Z.pow_add_r by lia. replace (n + (prec - 1)) with (n + prec - 1) by lia.
    assumption.
  Qed.

Lemma target_ge_emin (c E : Z) : emin <= target c E.
  Proof. apply fexp_ge_emin. Qed.

Lemma finish_le (m e m' e' : Z) :
    0 < m -> 0 < m' -> e < e' \/ (e = e' /\ m <= m') ->
    SFleb (finish false m e) (finish false m' e') = true.
  Proof.
    intros Hm Hm' H. unfold finish, SFleb, SFcompare.
    destruct (Z.leb_spec e (emax - prec)), (Z.leb_spec e' (emax - prec)); try reflexivity; try lia.
    destruct H as [H|[-> H]].
    - apply Z.compare_lt_iff in H. rewrite H. reflexivity.
    - rewrite Z.compare_refl. fold (Pos.compare (Z.to_pos m) (Z.to_pos m')).
      destruct (Pos.compare_spec (Z.to_pos m) (Z.to_pos m')); try reflexivity.
      lia.
  Qed.

Lemma pow_half : 0 < 2 ^ (prec - 1) /\ 2 ^ prec = 2 * 2 ^ (prec - 1).
  Proof.
    split; [apply Z.pow_pos_nonneg; lia|].
    replace prec with (prec - 1 + 1) at 1 by lia.
    rewrite Z.pow_add_r by lia. change (2 ^ 1) with 2. lia.
  Qed.

Lemma zero_le_pack (m t : Z) :
    SFleb (S754_zero false) (pack false m t) = true.
  Proof.
    unfold pack, finish.
    destruct (m =? 0), (m =? 2 ^ prec), (t + 1 <=? emax - prec), (t <=? emax - prec);
      reflexivity.
  Qed.

Lemma pack_le (m1 t1 m2 t2 : Z) :
    0 <= m1 <= 2 ^ prec -> 0 <= m2 <= 2 ^ prec ->
    (t1 = t2 /\ m1 <= m2) \/ (t1 < t2 /\ 2 ^ (prec - 1) <= m2) ->
    SFleb (pack false m1 t1) (pack false m2 t2) = true.
  Proof.
    intros H1 H2 H. destruct pow_half as [Hh Hp].
    destruct (Z.eq_dec m1 0) as [->|Hnz]; [apply zero_le_pack|].
    unfold pack.
    destruct (Z.eqb_spec m1 0); [lia|].
    destruct (Z.eqb_spec m2 0); [lia|].
    destruct (Z.eqb_spec m1 (2 ^ prec)), (Z.eqb_spec m2 (2 ^ prec));
      apply finish_le; lia.
  Qed.

Lemma fexp_mono (a b : Z) : a <= b -> fexp a <= fexp b.
  Proof. unfold SpecFloat.fexp. lia. Qed.

Lemma target_mono (c1 c2 E : Z) :
    0 <= c1 <= c2 -> target c1 E <= target c2 E.
  Proof.
    intros [H0 H]. unfold target. apply fexp_mono.
    assert (Zdigits2 (c1 / 4) <= Zdigits2 (c2 / 4)); [|lia].
    apply Zdigits2_mono. split; [apply Z.div_pos; lia|apply Z.div_le_mono; lia].
  Qed.

  (** Rounding is monotone in the located value. *)
Theorem round_code_mono (c1 c2 E : Z) :
    0 <= c1 <= c2 -> E <= target c1 E -> E <= target c2 E ->
    SFleb (round_code false c1 E) (round_code false c2 E) = true.
  Proof.
    intros Hc H1 H2. rewrite !round_code_pack by assumption.
    pose proof (target_mono c1 c2 E Hc) as Ht.
    apply pack_le; try (apply rounded_bounds; lia).
    destruct (Z.eq_dec (target c1 E) (target c2 E)) as [Heq|Hne].
    - left. split; [assumption|]. unfold rounded. rewrite Heq.
      apply rne_mono, sticky_shift_mono; lia.
    - right. split; [lia|]. apply rounded_normal; try lia.
      pose proof (target_ge_emin c1 E). lia.
  Qed.

Lemma pack_valid (sx : bool) (m t : Z) :
    0 <= m <= 2 ^ prec -> emin <= t -> (emin < t -> 2 ^ (prec - 1) <= m) ->
    valid_binary prec emax (pack sx m t) = true.
  Proof.
    intros Hm Ht Hn. destruct pow_half as [Hh Hp]. unfold pack, finish.
    destruct (Z.eqb_spec m 0); [reflexivity|].
    destruct (Z.eqb_spec m (2 ^ prec)).
    - destruct (Z.leb_spec (t + 1) (emax - prec)); [|reflexivity].
      cbn [valid_binary]. unfold bounded, canonical_mantissa.
      apply andb_true_intro. split; [|apply Z.leb_le; assumption].
      apply Z.eqb_eq.
      change (Z.pos (digits2_pos (Z.to_pos (2 ^ (prec - 1)))))
        with (Zdigits2 (Z.pos (Z.to_pos (2 ^ (prec - 1))))).
      rewrite Z2Pos.id by assumption.
      rewrite (Zdigits2_unique (2 ^ (prec - 1)) prec) by lia.
      unfold SpecFloat.fexp. lia.
    - destruct (Z.leb_spec t (emax - prec)); [|reflexivity].
      cbn [valid_binary]. unfold bounded, canonical_mantissa.
      apply andb_true_intro. split; [|apply Z.leb_le; assumption].
      apply Z.eqb_eq.
      change (Z.pos (digits2_pos (Z.to_pos m))) with (Zdigits2 (Z.pos (Z.to_pos m))).
      rewrite Z2Pos.id by lia.
      assert (Hd : Zdigits2 m <= prec) by (apply Zdigits2_le; lia).
      destruct (Z.eq_dec t emin) as [->|Hne].
      + unfold SpecFloat.fexp. lia.
      + assert (prec <= Zdigits2 m) by (apply Zdigits2_ge; [apply Hn|]; lia).
        unfold SpecFloat.fexp. lia.
  Qed.

Theorem round_code_valid (sx : bool) (c E : Z) :
    0 <= c -> E <= target c E ->
    valid_binary prec emax (round_code sx c E) = true.
  Proof.
    intros Hc HE. rewrite round_code_pack by assumption.
    apply pack_valid.
    - apply rounded_bounds; assumption.
    - apply target_ge_emin.
    - intros Ht. apply rounded_normal; assumption.
  Qed.

Lemma sticky_shift_add (n k c : Z) :
    0 <= n -> 0 <= k ->
    sticky_shift n (sticky_shift k c) = sticky_shift (n + k) c.
  Proof.
    intros Hn Hk. revert n Hn. apply natlike_ind.
    - rewrite sticky_shift_0. reflexivity.
    - intros n Hn IH. unfold Z.succ.
      rewrite <- sticky_shift_succ, IH, sticky_shift_succ by lia.
      f_equal. lia.
  Qed.

  (** The same value located at a finer exponent rounds to the same float. *)
Lemma round_code_shift (sx : bool) (c E k : Z) :
    0 <= c -> 0 <= k -> E <= target (sticky_shift k c) E ->
    round_code sx c (E - k) = round_code sx (sticky_shift k c) E.
  Proof.
    intros Hc Hk HE.
    assert (Ht : target c (E - k) = target (sticky_shift k c) E).
    { unfold target in *. rewrite sticky_shift_div4 in * by assumption.
      assert (Hmx : 0 <= c / 4) by (apply Z.div_pos; lia).
      assert (HP : 0 < 2 ^ k) by (apply Z.pow_pos_nonneg; lia).
      destruct (Z.eq_dec (c / 4 / 2 ^ k) 0) as [E0|Hnz].
      - rewrite E0 in *. change (Zdigits2 0) with 0 in *.
        assert (Hlt : c / 4 < 2 ^ k).
        { destruct (Z_lt_le_dec (c / 4) (2 ^ k)) as [|Hge]; [assumption|].
          pose proof (Z.div_le_lower_bound (c / 4) (2 ^ k) 1 HP ltac:(lia)). lia. }
        pose proof (Zdigits2_le (c / 4) k Hk ltac:(lia)).
        unfold SpecFloat.fexp in *. lia.
      - assert (Hpos : 0 < c / 4 / 2 ^ k).
        { pose proof (Z.div_pos (c / 4) (2 ^ k) Hmx HP). lia. }
        assert (Hge : 2 ^ k <= c / 4).
        { destruct (Z_lt_le_dec (c / 4) (2 ^ k)) as [Hlt|]; [|assumption].
          rewrite Z.div_small in Hpos by lia. lia. }
        assert (Hkd : k <= Zdigits2 (c / 4)).
        { apply Zdigits2_ge; [|lia].
          assert (2 ^ (k - 1) <= 2 ^ k) by (apply Z.pow_le_mono_r; lia). lia. }
        rewrite Zdigits2_div by lia. f_equal. lia. }
    rewrite !round_code_pack by lia.
    unfold rounded. rewrite Ht, sticky_shift_add by lia.
    do 3 f_equal. lia.
  Qed.

Lemma iter_xO (m d : positive) :
    Z.pos (Pos.iter xO m d) = Z.pos m * 2 ^ Z.pos d.
  Proof.
    induction d as [|d IH] using Pos.peano_ind.
    - cbn [Pos.iter]. rewrite Pos2Z.inj_xO. change (2 ^ 1) with 2. lia.
    - rewrite Pos.iter_succ, Pos2Z.inj_xO, IH, Pos2Z.inj_succ, Z.pow_succ_r by lia. lia.
  Qed.

Lemma sticky_shift_exact (k x : Z) :
    0 <= k -> sticky_shift k (4 * (x * 2 ^ k)) = 4 * x.
  Proof.
    intros Hk. unfold sticky_shift.
    assert (HP : 0 < 2 ^ k) by (apply Z.pow_pos_nonneg; lia).
    replace (2 ^ (k + 1)) with (2 * 2 ^ k)
      by (rewrite Z.pow_add_r by lia; change (2 ^ 1) with 2; lia).
    replace (4 * (x * 2 ^ k)) with (2 * x * (2 * 2 ^ k)) by lia.
    rewrite Z.div_mul, Z.mod_mul by lia. rewrite Z.eqb_refl. lia.
  Qed.

Lemma target_exact (m E : Z) :
    0 < m -> target (4 * m) E = fexp (Zdigits2 m + E).
  Proof.
    intros Hm. unfold target.
    replace (4 * m / 4) with m by (Z.div_mod_to_equations; lia). reflexivity.
  Qed.

  (** Rounding an exact dyadic value [m * 2 ^ e], seen from any exponent
      [E0] below [e] and [emin]. *)
Theorem binary_round_code (sx : bool) (m : positive) (e E0 : Z) :
    E0 <= e -> E0 <= emin ->
    binary_round prec emax sx m e = round_code sx (4 * (Z.pos m * 2 ^ (e - E0))) E0.
  Proof.
    intros He Hmin. unfold binary_round, shl_align.
    change (Z.pos (digits2_pos m)) with (Zdigits2 (Z.pos m)).
    set (t := fexp (Zdigits2 (Z.pos m) + e)).
    assert (Ht : emin <= t) by apply fexp_ge_emin.
    destruct (t - e) as [|d|d] eqn:Hd.
    - rewrite bra_code by lia. cbn [loc_bits]. rewrite Z.add_0_r.
      assert (0 < 2 ^ (e - E0)) by (apply Z.pow_pos_nonneg; lia).
      replace E0 with (e - (e - E0)) at 2 by lia.
      rewrite round_code_shift; rewrite ?sticky_shift_exact by lia;
        [reflexivity|lia|lia|].
      rewrite target_exact by lia. fold t. lia.
    - rewrite bra_code by lia. cbn [loc_bits]. rewrite Z.add_0_r.
      assert (0 < 2 ^ (e - E0)) by (apply Z.pow_pos_nonneg; lia).
      replace E0 with (e - (e - E0)) at 2 by lia.
      rewrite round_code_shift; rewrite ?sticky_shift_exact by lia;
        [reflexivity|lia|lia|].
      rewrite target_exact by lia. fold t. lia.
    - rewrite bra_code by lia. cbn [loc_bits]. rewrite Z.add_0_r, iter_xO.
      assert (Hde : Z.pos d = e - t) by lia. rewrite Hde.
      assert (HP : 0 < 2 ^ (e - t)) by (apply Z.pow_pos_nonneg; lia).
      assert (HQ : 0 < 2 ^ (t - E0)) by (apply Z.pow_pos_nonneg; lia).
      replace E0 with (t - (t - E0)) at 2 by lia.
      replace (Z.pos m * 2 ^ (e - E0)) with (Z.pos m * 2 ^ (e - t) * 2 ^ (t - E0)).
      2:{ rewrite <- Z.mul_assoc, <- Z.pow_add_r by lia. do 2 f_equal. lia. }
      rewrite round_code_shift; rewrite ?sticky_shift_exact by lia;
        [reflexivity|nia|lia|].
      rewrite target_exact by lia. rewrite Zdigits2_shift by lia.
      replace (Zdigits2 (Z.pos m) + (e - t) + t) with (Zdigits2 (Z.pos m) + e) by lia.
      fold t. lia.
  Qed.

Lemma target_scaled (m : positive) (e E0 : Z) :
    E0 <= e -> E0 <= emin -> E0 <= target (4 * (Z.pos m * 2 ^ (e - E0))) E0.
  Proof.
    intros He Hmin. pose proof (target_ge_emin (4 * (Z.pos m * 2 ^ (e - E0))) E0). lia.
  Qed.

Theorem binary_round_valid (sx : bool) (m : positive) (e : Z) :
    valid_binary prec emax (binary_round prec emax sx m e) = true.
  Proof.
    rewrite (binary_round_code sx m e (Z.min e emin)) by lia.
    assert (0 < 2 ^ (e - Z.min e emin)) by (apply Z.pow_pos_nonneg; lia).
    apply round_code_valid; [lia|]. apply target_scaled; lia.
  Qed.

Theorem binary_round_mono (m1 m2 : positive) (e1 e2 E0 : Z) :
    E0 <= e1 -> E0 <= e2 -> E0 <= emin ->
    Z.pos m1 * 2 ^ (e1 - E0) <= Z.pos m2 * 2 ^ (e2 - E0) ->
    SFleb (binary_round prec emax false m1 e1) (binary_round prec emax false m2 e2) = true.
  Proof.
    intros H1 H2 Hmin Hle.
    rewrite (binary_round_code false m1 e1 E0), (binary_round_code false m2 e2 E0) by lia.
    assert (0 < 2 ^ (e1 - E0)) by (apply Z.pow_pos_nonneg; lia).
    apply round_code_mono; [lia| |]; apply target_scaled; lia.
  Qed.

Lemma round_code_opp (c E : Z) :
    round_code true c E = SFopp (round_code false c E).
  Proof.
    unfold round_code, finish.
    repeat match goal with |- context [if ?b then _ else _] => destruct b end; reflexivity.
  Qed.

Lemma binary_round_opp (m : positive) (e : Z) :
    binary_round prec emax true m e = SFopp (binary_round prec emax false m e).
  Proof.
    rewrite !(binary_round_code _ m e (Z.min e emin)) by lia. apply round_code_opp.
  Qed.

  (** *** Division *)

Definition quot_code (N D : Z) : Z :=
    2 * (2 * N / D) + (if (2 * N) mod D =? 0 then 0 else 1).

Lemma new_location_code (D q r : Z) :
    0 < D -> 0 <= r < D ->
    4 * q + loc_bits (new_location D r) = quot_code (D * q + r) D.
  Proof.
    intros HD Hr. unfold quot_code.
    replace (2 * (D * q + r)) with (2 * r + (2 * q) * D) by lia.
    rewrite Z.div_add, Z_mod_plus_full by lia.
    assert (Hloc : loc_bits (new_location D r)
                   = 2 * (2 * r / D) + (if (2 * r) mod D =? 0 then 0 else 1)).
    { unfold new_location.
      pose proof (Zmod_even D) as Hev.
      destruct (Z.even D); [unfold new_location_even|unfold new_location_odd];
        (destruct (Z.eqb_spec r 0) as [->|Hnz];
         [reflexivity|]).
      - destruct (Z.compare_spec (2 * r) D) as [Heq|Hlt|Hgt]; cbn [loc_bits].
        + rewrite Heq, Z.div_same, Z.mod_same by lia. reflexivity.
        + rewrite Z.div_small, Z.mod_small by lia.
          destruct (Z.eqb_spec (2 * r) 0); lia.
        + assert (H1 : 2 * r / D = 1) by (Z.div_mod_to_equations; nia).
          assert (H2 : (2 * r) mod D = 2 * r - D) by (Z.div_mod_to_equations; nia).
          rewrite H1, H2. destruct (Z.eqb_spec (2 * r - D) 0); lia.
      - assert (Hne : 2 * r <> D) by (Z.div_mod_to_equations; lia).
        destruct (Z.compare_spec (2 * r + 1) D) as [Heq|Hlt|Hgt]; cbn [loc_bits].
        + rewrite Z.div_small, Z.mod_small by lia.
          destruct (Z.eqb_spec (2 * r) 0); lia.
        + rewrite Z.div_small, Z.mod_small by lia.
          destruct (Z.eqb_spec (2 * r) 0); lia.
        + assert (H1 : 2 * r / D = 1) by (Z.div_mod_to_equations; nia).
          assert (H2 : (2 * r) mod D = 2 * r - D) by (Z.div_mod_to_equations; nia).
          rewrite H1, H2. destruct (Z.eqb_spec (2 * r - D) 0); lia. }
    rewrite Hloc. lia.
  Qed.

Lemma quot_code_mono (N1 N2 D : Z) :
    0 < D -> N1 <= N2 -> quot_code N1 D <= quot_code N2 D.
  Proof.
    intros HD HN. unfold quot_code.
    assert (H2 : 2 * N1 <= 2 * N2) by lia.
    pose proof (Z.div_le_mono _ _ D HD H2) as Hq.
    pose proof (Z.div_mod (2 * N1) D ltac:(lia)) as E1.
    pose proof (Z.div_mod (2 * N2) D ltac:(lia)) as E2.
    pose proof (Z.mod_pos_bound (2 * N1) D HD). pose proof (Z.mod_pos_bound (2 * N2) D HD).
    destruct (Z.eqb_spec ((2 * N1) mod D) 0), (Z.eqb_spec ((2 * N2) mod D) 0); try lia.
    assert (2 * N1 / D <> 2 * N2 / D); [|lia].
    intros E. rewrite E in E1. lia.
  Qed.

Lemma quot_code_div4 (N D : Z) : 0 < D -> quot_code N D / 4 = N / D.
  Proof.
    intros HD. unfold quot_code.
    replace (2 * N / D) with (N * 2 / D) by (f_equal; lia).
    assert (Hh : N / D = N * 2 / D / 2).
    { rewrite Z.div_div by lia. rewrite Z.div_mul_cancel_r by lia. reflexivity. }
    rewrite Hh. destruct (_ =? 0); Z.div_mod_to_equations; lia.
  Qed.

Lemma quot_code_nonneg (N D : Z) : 0 < D -> 0 <= N -> 0 <= quot_code N D.
  Proof.
    intros HD HN. unfold quot_code.
    pose proof (Z.div_pos (2 * N) D ltac:(lia) HD). destruct (_ =? 0); lia.
  Qed.

Lemma quot_code_shift (N D k : Z) :
    0 < D -> 0 <= k ->
    sticky_shift k (quot_code (N * 2 ^ k) D) = quot_code N D.
  Proof.
    intros HD Hk. unfold sticky_shift, quot_code.
    assert (HP : 0 < 2 ^ k) by (apply Z.pow_pos_nonneg; lia).
    replace (2 ^ (k + 1)) with (2 * 2 ^ k)
      by (rewrite Z.pow_add_r by lia; change (2 ^ 1) with 2; lia).
    set (P := 2 ^ k) in *.
    set (A := 2 * N). replace (2 * (N * P)) with (A * P) by (unfold A; lia).
    set (Q := A * P / D).
    assert (HQ : Q / P = A / D).
    { unfold Q. rewrite Z.div_div by lia. rewrite Z.div_mul_cancel_r by lia. reflexivity. }
    assert (Hdiv : forall b, (b = 0 \/ b = 1) -> (2 * Q + b) / (2 * P) = A / D).
    { intros b Hb. rewrite <- HQ. rewrite <- Z.div_div by lia. f_equal.
      Z.div_mod_to_equations; lia. }
    assert (Hmod : forall b, (b = 0 \/ b = 1) ->
              ((2 * Q + b) mod (2 * P) = 0 <-> b = 0 /\ Q mod P = 0)).
    { intros b Hb. rewrite Z.rem_mul_r by lia.
      pose proof (Z.mod_pos_bound ((2 * Q + b) / 2) P HP).
      assert ((2 * Q + b) / 2 = Q) as -> by (Z.div_mod_to_equations; lia).
      assert ((2 * Q + b) mod 2 = b) as -> by (Z.div_mod_to_equations; lia).
      pose proof (Z.mod_pos_bound Q P HP). lia. }
    assert (Hiff : (A * P) mod D = 0 /\ Q mod P = 0 <-> A mod D = 0).
    { split.
      - intros [H1 H2].
        pose proof (Z.div_mod (A * P) D ltac:(lia)) as E1. fold Q in E1. rewrite H1 in E1.
        pose proof (Z.div_mod Q P ltac:(lia)) as E2. rewrite H2 in E2.
        apply Z.mod_divide; [lia|]. exists (Q / P).
        assert (A * P = Q / P * D * P) by nia. nia.
      - intros H. apply Z.mod_divide in H; [|lia]. destruct H as [a Ha].
        assert (HQa : Q = a * P).
        { unfold Q. rewrite Ha. replace (a * D * P) with (a * P * D) by lia.
          apply Z.div_mul. lia. }
        split.
        + rewrite Ha. replace (a * D * P) with (a * P * D) by lia. apply Z.mod_mul. lia.
        + rewrite HQa. apply Z.mod_mul. lia. }
    destruct (Z.eqb_spec ((A * P) mod D) 0) as [Hb|Hb].
    - rewrite (Hdiv 0) by lia.
      destruct (Z.eqb_spec ((2 * Q + 0) mod (2 * P)) 0) as [H1|H1], (Z.eqb_spec (A mod D) 0) as [H2|H2];
        try lia.
      + apply (Hmod 0) in H1; [|lia]. exfalso. apply H2, Hiff. tauto.
      + exfalso. apply H1. apply (Hmod 0); [lia|]. split; [reflexivity|]. apply Hiff. assumption.
    - rewrite (Hdiv 1) by lia.
      destruct (Z.eqb_spec ((2 * Q + 1) mod (2 * P)) 0) as [H1|H1], (Z.eqb_spec (A mod D) 0) as [H2|H2];
        try lia;
        first [ exfalso; apply (Hmod 1) in H1; lia
              | exfalso; apply Hb; apply Hiff; assumption ].
  Qed.

Lemma digits_div (a b : Z) :
    0 < a -> 0 < b -> Zdigits2 a - Zdigits2 b <= Zdigits2 (a / b).
  Proof.
    intros Ha Hb.
    destruct (Z_lt_le_dec a b) as [Hlt|Hge].
    { rewrite Z.div_small by lia. pose proof (Zdigits2_mono a b ltac:(lia)). simpl. lia. }
    assert (Hq : 1 <= a / b) by (apply Z.div_le_lower_bound; lia).
    pose proof (Zdigits2_bounds a Ha) as [Hlo _].
    pose proof (Zdigits2_bounds b Hb) as [_ Hhi].
    pose proof (Zdigits2_nonneg b).
    destruct (Z_lt_le_dec (Zdigits2 a - Zdigits2 b) 1) as [Hs|Hs].
    { assert (1 <= Zdigits2 (a / b)); [|lia].
      apply Zdigits2_ge; [simpl; lia|lia]. }
    apply Zdigits2_ge; [|lia].
    apply Z.div_le_lower_bound; [lia|].
    assert (Hsplit : 2 ^ (Zdigits2 a - 1) = 2 ^ Zdigits2 b * 2 ^ (Zdigits2 a - Zdigits2 b - 1)).
    { rewrite <- Z.pow_add_r by lia. f_equal. lia. }
    assert (0 < 2 ^ (Zdigits2 a - Zdigits2 b - 1)) by (apply Z.pow_pos_nonneg; lia).
    nia.
  Qed.

Lemma digits_mul (a b : Z) :
    0 < a -> 0 < b -> Zdigits2 a + Zdigits2 b - 1 <= Zdigits2 (a * b).
  Proof.
    intros Ha Hb.
    pose proof (Zdigits2_bounds a Ha) as [Hla Hha].
    pose proof (Zdigits2_bounds b Hb) as [Hlb Hhb].
    assert (0 < Zdigits2 a).
    { pose proof (Zdigits2_nonneg a). destruct (Z.eq_dec (Zdigits2 a) 0) as [E|]; [|lia].
      rewrite E in Hha. simpl in Hha. lia. }
    assert (0 < Zdigits2 b).
    { pose proof (Zdigits2_nonneg b). destruct (Z.eq_dec (Zdigits2 b) 0) as [E|]; [|lia].
      rewrite E in Hhb. simpl in Hhb. lia. }
    apply Zdigits2_ge; [|nia].
    replace (Zdigits2 a + Zdigits2 b - 1 - 1) with ((Zdigits2 a - 1) + (Zdigits2 b - 1)) by lia.
    rewrite Z.pow_add_r by lia.
    assert (0 < 2 ^ (Zdigits2 a - 1)) by (apply Z.pow_pos_nonneg; lia).
    assert (0 < 2 ^ (Zdigits2 b - 1)) by (apply Z.pow_pos_nonneg; lia).
    nia.
  Qed.

Theorem SFdiv_code (sx sy : bool) (mx my : positive) (ex ey E0 : Z) :
    E0 <= ex - ey -> E0 <= emin ->
    SFdiv prec emax (S754_finite sx mx ex) (S754_finite sy my ey)
    = round_code (xorb sx sy)
        (quot_code (Z.pos mx * 2 ^ (ex - ey - E0)) (Z.pos my)) E0.
  Proof.
    intros HE Hmin. cbn [SFdiv]. unfold SFdiv_core_binary.
    set (d1 := Zdigits2 (Z.pos mx)). set (d2 := Zdigits2 (Z.pos my)).
    set (e' := Z.min (fexp (d1 + ex - (d2 + ey))) (ex - ey)).
    set (s := ex - ey - e').
    assert (Hs : 0 <= s) by (unfold s, e'; lia).
    assert (He' : E0 <= e').
    { unfold e'. pose proof (fexp_ge_emin (d1 + ex - (d2 + ey))). lia. }
    assert (Hm' : match s with
                  | Z.pos _ => Z.shiftl (Z.pos mx) s
                  | 0 => Z.pos mx
                  | Z.neg _ => 0
                  end = Z.pos mx * 2 ^ s).
    { destruct s as [|p|p] eqn:Es; [change (2 ^ 0) with 1; lia| |lia].
      rewrite Z.shiftl_mul_pow2 by lia. reflexivity. }
    rewrite Hm'. set (m' := Z.pos mx * 2 ^ s).
    assert (HP : 0 < 2 ^ s) by (apply Z.pow_pos_nonneg; lia).
    assert (Hm'pos : 0 < m') by (unfold m'; lia).
    pose proof (Z_div_mod m' (Z.pos my) ltac:(lia)) as Hdm.
    destruct (Z.div_eucl m' (Z.pos my)) as [q r]. destruct Hdm as [Hdm Hr].
    assert (Hq : 0 <= q) by nia.
    rewrite bra_code by assumption.
    rewrite new_location_code by lia. rewrite <- Hdm.
    assert (Hk : Z.pos mx * 2 ^ (ex - ey - E0) = m' * 2 ^ (e' - E0)).
    { unfold m'. rewrite <- Z.mul_assoc, <- Z.pow_add_r by lia. do 2 f_equal. unfold s. lia. }
    rewrite Hk. replace E0 with (e' - (e' - E0)) at 2 by lia.
    assert (HQ : 0 < 2 ^ (e' - E0)) by (apply Z.pow_pos_nonneg; lia).
    rewrite round_code_shift; rewrite ?quot_code_shift by lia;
      [reflexivity|apply quot_code_nonneg; nia|lia|].
    unfold target. rewrite quot_code_div4 by lia.
    pose proof (digits_div m' (Z.pos my) Hm'pos ltac:(lia)) as Hd.
    unfold m' in Hd at 1. rewrite Zdigits2_shift in Hd by lia. fold d1 d2 in Hd.
    pose proof (fexp_mono (d1 + ex - (d2 + ey)) (Zdigits2 (m' / Z.pos my) + e')) as Hf.
    assert (d1 + ex - (d2 + ey) <= Zdigits2 (m' / Z.pos my) + e') by (unfold s in Hd; lia).
    specialize (Hf ltac:(assumption)). unfold e' at 1. lia.
  Qed.

Lemma canonical_fexp (m : positive) (e : Z) :
    canonical_mantissa prec emax m e = true ->
    e = fexp (Zdigits2 (Z.pos m) + e).
  Proof. unfold canonical_mantissa. intros H. apply Z.eqb_eq in H. symmetry. exact H. Qed.

Lemma bounded_canonical (m : positive) (e : Z) :
    bounded prec emax m e = true -> canonical_mantissa prec emax m e = true.
  Proof. unfold bounded. intros H. apply andb_prop in H. tauto. Qed.


  (** *** Order of valid floats and order of their values *)

Definition scaled (E0 : Z) (x : spec_float) : Z :=
    match x with
    | S754_finite s m e => cond_Zopp s (Z.pos m * 2 ^ (e - E0))
    | _ => 0
    end.

Definition below (E0 : Z) (x : spec_float) : Prop :=
    match x with
    | S754_finite _ _ e => E0 <= e
    | _ => True
    end.

Lemma bounded_facts (m : positive) (e : Z) :
    bounded prec emax m e = true ->
    emin <= e /\ Z.pos m < 2 ^ prec /\ (emin < e -> 2 ^ (prec - 1) <= Z.pos m).
  Proof.
    intros Hb. apply bounded_canonical, canonical_fexp in Hb.
    pose proof (Zdigits2_bounds (Z.pos m) ltac:(lia)) as [Hlo Hhi].
    assert (Hd : 0 < Zdigits2 (Z.pos m)) by (simpl; lia).
    unfold SpecFloat.fexp in Hb.
    split; [lia|]. split.
    - assert (2 ^ Zdigits2 (Z.pos m) <= 2 ^ prec) by (apply Z.pow_le_mono_r; lia). lia.
    - intros He. assert (Zdigits2 (Z.pos m) = prec) as <- by lia. assumption.
  Qed.

Lemma SFleb_pos_scaled (m1 m2 : positive) (e1 e2 E0 : Z) :
    bounded prec emax m1 e1 = true -> bounded prec emax m2 e2 = true ->
    SFleb (S754_finite false m1 e1) (S754_finite false m2 e2) = true ->
    E0 <= e1 -> E0 <= e2 ->
    Z.pos m1 * 2 ^ (e1 - E0) <= Z.pos m2 * 2 ^ (e2 - E0).
  Proof.
    intros B1 B2 Hle H1 H2.
    destruct (bounded_facts _ _ B1) as (Hmin1 & Hhi1 & _).
    destruct (bounded_facts _ _ B2) as (_ & _ & Hlo2).
    destruct pow_half as [Hh Hp].
    unfold SFleb, SFcompare in Hle.
    destruct (Z.compare_spec e1 e2) as [->|Hlt|Hgt].
    - fold (Pos.compare m1 m2) in Hle.
      assert (0 < 2 ^ (e2 - E0)) by (apply Z.pow_pos_nonneg; lia).
      destruct (Pos.compare_spec m1 m2); try discriminate; nia.
    - specialize (Hlo2 ltac:(lia)).
      assert (HA : 0 < 2 ^ (e1 - E0)) by (apply Z.pow_pos_nonneg; lia).
      assert (HB : 2 * 2 ^ (e1 - E0) <= 2 ^ (e2 - E0)).
      { replace (2 * 2 ^ (e1 - E0)) with (2 ^ (e1 - E0 + 1))
          by (rewrite Z.pow_add_r by lia; change (2 ^ 1) with 2; lia).
        apply Z.pow_le_mono_r; lia. }
      nia.
    - discriminate.
  Qed.

Definition finite (x : spec_float) : bool :=
    match x with S754_zero _ | S754_finite _ _ _ => true | _ => false end.

Lemma SFleb_scaled (x y : spec_float) (E0 : Z) :
    valid_binary prec emax x = true -> valid_binary prec emax y = true ->
    finite x = true -> finite y = true ->
    SFleb x y = true -> below E0 x -> below E0 y ->
    scaled E0 x <= scaled E0 y.
  Proof.
    intros Vx Vy Fx Fy Hle Bx By.
    destruct x as [sx|sx| |sx mx ex], y as [sy|sy| |sy my ey];
      try discriminate; cbn [scaled below valid_binary] in *; try lia.
    - assert (0 < 2 ^ (ey - E0)) by (apply Z.pow_pos_nonneg; lia).
      destruct sy; [discriminate|]. cbn [cond_Zopp]. nia.
    - assert (0 < 2 ^ (ex - E0)) by (apply Z.pow_pos_nonneg; lia).
      destruct sx; [|discriminate]. cbn [cond_Zopp]. nia.
    - assert (0 < 2 ^ (ex - E0)) by (apply Z.pow_pos_nonneg; lia).
      assert (0 < 2 ^ (ey - E0)) by (apply Z.pow_pos_nonneg; lia).
      destruct sx, sy; cbn [cond_Zopp].
      + assert (H' : SFleb (S754_finite false my ey) (S754_finite false mx ex) = true).
        { revert Hle. unfold SFleb, SFcompare.
          rewrite (Z.compare_antisym ex ey).
          change (Pos.compare_cont Eq my mx) with (Pos.compare_cont (CompOpp Eq) my mx).
          rewrite <- (Pos.compare_cont_antisym mx my Eq).
          destruct (ex ?= ey); cbn [CompOpp]; try tauto.
          all: try (destruct (Pos.compare_cont Eq mx my); cbn [CompOpp]; tauto). }
        pose proof (SFleb_pos_scaled _ _ _ _ E0 Vy Vx H' By Bx). lia.
      + nia.
      + discriminate.
      + apply SFleb_pos_scaled; assumption.
  Qed.

  (** *** Signs of rounded results *)

Definition nn (x : spec_float) : Prop :=
    match x with
    | S754_zero _ | S754_finite false _ _ | S754_infinity false => True
    | _ => False
    end.

Definition np (x : spec_float) : Prop :=
    match x with
    | S754_zero _ | S754_finite true _ _ | S754_infinity true => True
    | _ => False
    end.

Lemma SFleb_np_nn (x y : spec_float) : np x -> nn y -> SFleb x y = true.
  Proof.
    destruct x as [sx|[|]| |[|] mx ex], y as [sy|[|]| |[|] my ey];
      cbn [np nn]; try tauto; reflexivity.
  Qed.

Lemma SFleb_nn_inf (x : spec_float) : nn x -> SFleb x (S754_infinity false) = true.
  Proof. destruct x as [sx|[|]| |[|] mx ex]; cbn [nn]; try tauto; reflexivity. Qed.

Lemma SFleb_inf_nn (x : spec_float) :
    SFleb (S754_infinity false) x = true -> x = S754_infinity false.
  Proof. destruct x as [sx|[|]| |[|] mx ex]; try discriminate; reflexivity. Qed.

Lemma round_code_nn (c E : Z) : nn (round_code false c E).
  Proof.
    unfold round_code, finish.
    repeat match goal with |- context [if ?b then _ else _] => destruct b end; exact I.
  Qed.

Lemma round_code_np (c E : Z) : np (round_code true c E).
  Proof.
    unfold round_code, finish.
    repeat match goal with |- context [if ?b then _ else _] => destruct b end; exact I.
  Qed.

Lemma SFcompare_opp (x y : spec_float) :
    SFcompare (SFopp x) (SFopp y) = SFcompare y x.
  Proof.
    destruct x as [sx|[|]| |[|] mx ex], y as [sy|[|]| |[|] my ey];
      try reflexivity; try (destruct sx; reflexivity); try (destruct sy; reflexivity);
      cbn [SFopp SFcompare negb]; f_equal;
      rewrite (Z.compare_antisym ex ey);
      change (Pos.compare_cont Eq my mx) with (Pos.compare_cont (CompOpp Eq) my mx);
      rewrite <- (Pos.compare_cont_antisym mx my Eq);
      destruct (ex ?= ey); cbn [CompOpp]; try reflexivity;
      destruct (Pos.compare_cont Eq mx my); reflexivity.
  Qed.

Lemma SFleb_opp (x y : spec_float) : SFleb (SFopp x) (SFopp y) = SFleb y x.
  Proof. unfold SFleb. rewrite SFcompare_opp. reflexivity. Qed.

  (** *** Rounding an exact signed integer *)

Lemma bn_nn (z e : Z) (s : bool) : 0 <= z -> nn (binary_normalize prec emax z e s).
  Proof.
    intros Hz. destruct z as [|p|p]; cbn [binary_normalize]; [exact I| |lia].
    rewrite (binary_round_code false p e (Z.min e emin)) by lia. apply round_code_nn.
  Qed.

Lemma bn_np (z e : Z) (s : bool) : z <= 0 -> np (binary_normalize prec emax z e s).
  Proof.
    intros Hz. destruct z as [|p|p]; cbn [binary_normalize]; [exact I|lia|].
    rewrite (binary_round_code true p e (Z.min e emin)) by lia. apply round_code_np.
  Qed.

Lemma bn_valid (z e : Z) (s : bool) :
    valid_binary prec emax (binary_normalize prec emax z e s) = true.
  Proof.
    destruct z as [|p|p]; cbn [binary_normalize];
      [reflexivity|apply binary_round_valid|apply binary_round_valid].
  Qed.

Theorem bn_mono (z1 z2 e1 e2 E0 : Z) (s1 s2 : bool) :
    E0 <= e1 -> E0 <= e2 -> E0 <= emin ->
    z1 * 2 ^ (e1 - E0) <= z2 * 2 ^ (e2 - E0) ->
    SFleb (binary_normalize prec emax z1 e1 s1) (binary_normalize prec emax z2 e2 s2) = true.
  Proof.
    intros H1 H2 Hmin Hle.
    assert (HP1 : 0 < 2 ^ (e1 - E0)) by (apply Z.pow_pos_nonneg; lia).
    assert (HP2 : 0 < 2 ^ (e2 - E0)) by (apply Z.pow_pos_nonneg; lia).
    destruct (Z_le_gt_dec z1 0) as [Hz1|Hz1].
    - destruct (Z_le_gt_dec 0 z2) as [Hz2|Hz2].
      + apply SFleb_np_nn; [apply bn_np|apply bn_nn]; assumption.
      + destruct z1 as [|p1|p1], z2 as [|p2|p2]; try lia.
        cbn [binary_normalize]. rewrite !binary_round_opp, SFleb_opp.
        apply (binary_round_mono p2 p1 e2 e1 E0); lia.
    - destruct z1 as [|p1|p1], z2 as [|p2|p2]; try lia; try nia.
      cbn [binary_normalize]. apply (binary_round_mono p1 p2 e1 e2 E0); lia.
  Qed.

Lemma binary_round_canonical (s : bool) (m : positive) (e : Z) :
    bounded prec emax m e = true ->
    binary_round prec emax s m e = S754_finite s m e.
  Proof.
    intros Hb. destruct (bounded_facts m e Hb) as (Hmin & Hhi & Hlo).
    pose proof (canonical_fexp m e (bounded_canonical m e Hb)) as Hc.
    unfold binary_round, shl_align.
    change (Z.pos (digits2_pos m)) with (Zdigits2 (Z.pos m)).
    rewrite <- Hc, Z.sub_diag.
    rewrite bra_code by lia. cbn [loc_bits]. rewrite Z.add_0_r.
    rewrite round_code_pack by (rewrite target_exact by lia; lia).
    unfold rounded. rewrite target_exact by lia. rewrite <- Hc, Z.sub_diag.
    rewrite sticky_shift_0, rne_exact. unfold pack, finish.
    destruct (Z.eqb_spec (Z.pos m) 0); [lia|].
    destruct (Z.eqb_spec (Z.pos m) (2 ^ prec)); [lia|].
    unfold bounded in Hb. apply andb_prop in Hb. destruct Hb as [_ Hb].
    rewrite Hb. reflexivity.
  Qed.

Lemma shl_align_fst (m : positive) (e ez : Z) :
    ez <= e -> Z.pos (fst (shl_align m e ez)) = Z.pos m * 2 ^ (e - ez).
  Proof.
    intros He. unfold shl_align. destruct (ez - e) as [|d|d] eqn:Hd; cbn [fst].
    - replace (e - ez) with 0 by lia. change (2 ^ 0) with 1. lia.
    - lia.
    - rewrite iter_xO. do 2 f_equal. lia.
  Qed.

Lemma SFsub_finite (x y : spec_float) (ez : Z) :
    match x, y with
    | S754_finite _ _ ex, S754_finite _ _ ey => ez = Z.min ex ey
    | _, _ => False
    end ->
    SFsub prec emax x y
    = binary_normalize prec emax (scaled ez x - scaled ez y) ez false.
  Proof.
    destruct x as [sx|sx| |sx mx ex], y as [sy|sy| |sy my ey]; try tauto.
    intros ->. cbn [SFsub scaled]. rewrite !shl_align_fst by lia. reflexivity.
  Qed.

  (** *** Division by a positive constant *)

Lemma SFdiv_pos_nn (x : spec_float) (mc : positive) (ec : Z) :
    nn x ->
    nn (SFdiv prec emax x (S754_finite false mc ec))
    /\ valid_binary prec emax (SFdiv prec emax x (S754_finite false mc ec)) = true.
  Proof.
    intros Hx. destruct x as [sx|[|]| |[|] mx ex]; cbn [nn] in Hx; try contradiction.
    - cbn [SFdiv]. split; [exact I|reflexivity].
    - cbn [SFdiv xorb]. split; [exact I|reflexivity].
    - rewrite (SFdiv_code false false mx mc ex ec (Z.min (ex - ec) emin)) by lia.
      cbn [xorb]. split; [apply round_code_nn|].
      assert (0 < 2 ^ (ex - ec - Z.min (ex - ec) emin)) by (apply Z.pow_pos_nonneg; lia).
      apply round_code_valid; [apply quot_code_nonneg; nia|].
      match goal with |- _ <= target ?c ?E => pose proof (target_ge_emin c E) end. lia.
  Qed.

Theorem SFdiv_pos_mono (x y : spec_float) (mc : positive) (ec : Z) :
    nn x -> nn y ->
    valid_binary prec emax x = true -> valid_binary prec emax y = true ->
    SFleb x y = true ->
    SFleb (SFdiv prec emax x (S754_finite false mc ec))
          (SFdiv prec emax y (S754_finite false mc ec)) = true.
  Proof.
    intros Hx Hy Vx Vy Hle.
    destruct (SFdiv_pos_nn y mc ec Hy) as [Hny _].
    destruct x as [sx|[|]| |[|] mx ex]; cbn [nn] in Hx; try contradiction.
    - apply SFleb_np_nn; [exact I|assumption].
    - apply SFleb_inf_nn in Hle. subst y. reflexivity.
    - destruct y as [sy|[|]| |[|] my ey]; cbn [nn] in Hy; try contradiction; try discriminate.
      + apply SFleb_nn_inf. apply SFdiv_pos_nn; assumption.
      + cbn [valid_binary] in Vx, Vy.
        set (E0 := Z.min (Z.min (ex - ec) (ey - ec)) emin).
        rewrite (SFdiv_code false false mx mc ex ec E0), (SFdiv_code false false my mc ey ec E0)
          by (unfold E0; lia).
        cbn [xorb].
        pose proof (SFleb_pos_scaled mx my ex ey (E0 + ec) Vx Vy Hle
                      ltac:(unfold E0; lia) ltac:(unfold E0; lia)) as Hv.
        replace (ex - (E0 + ec)) with (ex - ec - E0) in Hv by lia.
        replace (ey - (E0 + ec)) with (ey - ec - E0) in Hv by lia.
        assert (0 < 2 ^ (ex - ec - E0)) by (apply Z.pow_pos_nonneg; unfold E0; lia).
        apply round_code_mono;
          [split; [apply quot_code_nonneg; nia|apply quot_code_mono; lia]| |];
          match goal with |- _ <= target ?c ?E => pose proof (target_ge_emin c E) end;
          unfold E0 in *; lia.
  Qed.

  (** *** Subtraction *)

Lemma scaled_shift (x : spec_float) (E0 ez : Z) :
    E0 <= ez -> below ez x -> scaled ez x * 2 ^ (ez - E0) = scaled E0 x.
  Proof.
    intros HE Hb. destruct x as [sx|sx| |sx mx ex]; cbn [scaled below] in *; try lia.
    assert (H : Z.pos mx * 2 ^ (ex - ez) * 2 ^ (ez - E0) = Z.pos mx * 2 ^ (ex - E0)).
    { rewrite <- Z.mul_assoc, <- Z.pow_add_r by lia. do 2 f_equal. lia. }
    destruct sx; cbn [cond_Zopp]; lia.
  Qed.

Lemma scaled_self (s : bool) (m : positive) (e : Z) :
    scaled e (S754_finite s m e) = cond_Zopp s (Z.pos m).
  Proof. cbn [scaled]. rewrite Z.sub_diag. change (2 ^ 0) with 1. rewrite Z.mul_1_r. reflexivity. Qed.

Lemma bn_canonical (s s0 : bool) (m : positive) (e : Z) :
    bounded prec emax m e = true ->
    binary_normalize prec emax (cond_Zopp s (Z.pos m)) e s0 = S754_finite s m e.
  Proof.
    intros Hb. destruct s; cbn [cond_Zopp Z.opp binary_normalize];
      apply binary_round_canonical; assumption.
  Qed.

  (** [x - c] for a finite [x] is the rounding of the exact difference. *)
Lemma SFsub_exact_l (x : spec_float) (sc : bool) (mc : positive) (ec : Z) :
    finite x = true -> bounded prec emax mc ec = true ->
    exists ez, ez <= ec /\ below ez x
      /\ SFsub prec emax x (S754_finite sc mc ec)
         = binary_normalize prec emax
             (scaled ez x - scaled ez (S754_finite sc mc ec)) ez false.
  Proof.
    intros Fx Bc. destruct x as [sx|sx| |sx mx ex]; try discriminate.
    - exists ec. split; [lia|]. split; [exact I|].
      rewrite scaled_self. cbn [SFsub scaled]. rewrite Z.sub_0_l.
      replace (- cond_Zopp sc (Z.pos mc)) with (cond_Zopp (negb sc) (Z.pos mc))
        by (destruct sc; reflexivity).
      rewrite bn_canonical by assumption. reflexivity.
    - exists (Z.min ex ec). split; [lia|]. split; [cbn [below]; lia|].
      apply SFsub_finite. reflexivity.
  Qed.

Lemma SFsub_exact_r (x : spec_float) (sc : bool) (mc : positive) (ec : Z) :
    finite x = true -> bounded prec emax mc ec = true ->
    exists ez, ez <= ec /\ below ez x
      /\ SFsub prec emax (S754_finite sc mc ec) x
         = binary_normalize prec emax
             (scaled ez (S754_finite sc mc ec) - scaled ez x) ez false.
  Proof.
    intros Fx Bc. destruct x as [sx|sx| |sx mx ex]; try discriminate.
    - exists ec. split; [lia|]. split; [exact I|].
      rewrite scaled_self. cbn [SFsub scaled]. rewrite Z.sub_0_r.
      rewrite bn_canonical by assumption. reflexivity.
    - exists (Z.min ex ec). split; [lia|]. split; [cbn [below]; lia|].
      rewrite Z.min_comm. apply SFsub_finite. reflexivity.
  Qed.

Lemma bn_not_nan (z e : Z) (s : bool) :
    is_nan (binary_normalize prec emax z e s) = false.
  Proof.
    destruct (Z_le_gt_dec 0 z) as [Hz|Hz].
    - pose proof (bn_nn z e s Hz) as H.
      destruct (binary_normalize prec emax z e s); try reflexivity. contradiction.
    - pose proof (bn_np z e s ltac:(lia)) as H.
      destruct (binary_normalize prec emax z e s); try reflexivity. contradiction.
  Qed.

Lemma SFsub_not_nan (x : spec_float) (sc : bool) (mc : positive) (ec : Z) :
    is_nan x = false -> bounded prec emax mc ec = true ->
    is_nan (SFsub prec emax x (S754_finite sc mc ec)) = false.
  Proof.
    intros Hx Bc. destruct x as [sx|sx| |sx mx ex]; try discriminate; try reflexivity.
    destruct (SFsub_exact_l (S754_finite sx mx ex) sc mc ec eq_refl Bc) as (ez & _ & _ & ->).
    apply bn_not_nan.
  Qed.

Lemma SFsub_valid (x : spec_float) (sc : bool) (mc : positive) (ec : Z) :
    valid_binary prec emax x = true -> bounded prec emax mc ec = true ->
    valid_binary prec emax (SFsub prec emax x (S754_finite sc mc ec)) = true.
  Proof.
    intros Vx Bc. destruct x as [sx|sx| |sx mx ex]; try reflexivity.
    - cbn [SFsub valid_binary]. assumption.
    - destruct (SFsub_exact_l (S754_finite sx mx ex) sc mc ec eq_refl Bc) as (ez & _ & _ & ->).
      apply bn_valid.
  Qed.

Lemma SFleb_ninf (x : spec_float) :
    is_nan x = false -> SFleb (S754_infinity true) x = true.
  Proof. destruct x as [sx|[|]| |sx mx ex]; try discriminate; reflexivity. Qed.

Lemma SFleb_pinf (x : spec_float) :
    is_nan x = false -> SFleb x (S754_infinity false) = true.
  Proof. destruct x as [sx|[|]| |[|] mx ex]; try discriminate; reflexivity. Qed.

  (** Subtracting a constant is monotone. *)
Theorem SFsub_mono_l (x y : spec_float) (sc : bool) (mc : positive) (ec : Z) :
    valid_binary prec emax x = true -> valid_binary prec emax y = true ->
    bounded prec emax mc ec = true ->
    SFleb x y = true ->
    SFleb (SFsub prec emax x (S754_finite sc mc ec))
          (SFsub prec emax y (S754_finite sc mc ec)) = true.
  Proof.
    intros Vx Vy Bc Hle.
    assert (Nx : is_nan x = false) by (destruct x; try reflexivity; discriminate).
    assert (Ny : is_nan y = false)
      by (destruct y; try reflexivity; destruct x as [?|[|]| |[|] ? ?]; discriminate).
    destruct (finite x) eqn:Fx; [destruct (finite y) eqn:Fy|].
    - destruct (SFsub_exact_l x sc mc ec Fx Bc) as (e1 & H1 & B1 & ->).
      destruct (SFsub_exact_l y sc mc ec Fy Bc) as (e2 & H2 & B2 & ->).
      destruct (bounded_facts mc ec Bc) as (Hmin & _).
      set (E0 := Z.min (Z.min e1 e2) emin).
      apply (bn_mono _ _ e1 e2 E0); try (unfold E0; lia).
      rewrite !Z.mul_sub_distr_r.
      rewrite !scaled_shift by first [assumption | cbn [below]; unfold E0; lia].
      assert (scaled E0 x <= scaled E0 y); [|lia].
      apply SFleb_scaled; try assumption.
      + destruct x; cbn [below] in *; unfold E0; lia.
      + destruct y; cbn [below] in *; unfold E0; lia.
    - destruct y as [sy|[|]| |sy my ey]; try discriminate.
      + destruct x as [sx|[|]| |[|] mx ex]; discriminate.
      + cbn [SFsub]. apply SFleb_pinf. apply SFsub_not_nan; assumption.
    - destruct x as [sx|[|]| |sx mx ex]; try discriminate.
      + cbn [SFsub]. apply SFleb_ninf. apply SFsub_not_nan; assumption.
      + apply SFleb_inf_nn in Hle. subst y. reflexivity.
  Qed.

  (** Subtracting from a constant is antitone. *)
Theorem SFsub_mono_r (x y : spec_float) (sc : bool) (mc : positive) (ec : Z) :
    valid_binary prec emax x = true -> valid_binary prec emax y = true ->
    finite x = true -> finite y = true ->
    bounded prec emax mc ec = true ->
    SFleb x y = true ->
    SFleb (SFsub prec emax (S754_finite sc mc ec) y)
          (SFsub prec emax (S754_finite sc mc ec) x) = true.
  Proof.
    intros Vx Vy Fx Fy Bc Hle.
    destruct (SFsub_exact_r x sc mc ec Fx Bc) as (e1 & H1 & B1 & ->).
    destruct (SFsub_exact_r y sc mc ec Fy Bc) as (e2 & H2 & B2 & ->).
    destruct (bounded_facts mc ec Bc) as (Hmin & _).
    set (E0 := Z.min (Z.min e1 e2) emin).
    apply (bn_mono _ _ e2 e1 E0); try (unfold E0; lia).
    rewrite !Z.mul_sub_distr_r.
    rewrite !scaled_shift by first [assumption | cbn [below]; unfold E0; lia].
    assert (scaled E0 x <= scaled E0 y); [|lia].
    apply SFleb_scaled; try assumption.
    - destruct x; cbn [below] in *; unfold E0; lia.
    - destruct y; cbn [below] in *; unfold E0; lia.
  Qed.

  (** A value that fits the format is rounded to itself. *)
Lemma binary_round_exact (s : bool) (m : positive) (e : Z) :
    fexp (Zdigits2 (Z.pos m) + e) <= e ->
    fexp (Zdigits2 (Z.pos m) + e) <= emax - prec ->
    binary_round prec emax s m e
    = S754_finite s
        (Z.to_pos (Z.pos m * 2 ^ (e - fexp (Zdigits2 (Z.pos m) + e))))
        (fexp (Zdigits2 (Z.pos m) + e)).
  Proof.
    set (t := fexp (Zdigits2 (Z.pos m) + e)). intros Hte Htmax.
    assert (Ht : emin <= t) by apply fexp_ge_emin.
    rewrite (binary_round_code s m e emin) by lia.
    assert (HP : 0 < 2 ^ (e - t)) by (apply Z.pow_pos_nonneg; lia).
    assert (HQ : 0 < 2 ^ (t - emin)) by (apply Z.pow_pos_nonneg; lia).
    assert (Hsplit : Z.pos m * 2 ^ (e - emin) = Z.pos m * 2 ^ (e - t) * 2 ^ (t - emin)).
    { rewrite <- Z.mul_assoc, <- Z.pow_add_r by lia. do 2 f_equal. lia. }
    assert (Htar : target (4 * (Z.pos m * 2 ^ (e - emin))) emin = t).
    { rewrite target_exact by (rewrite Hsplit; nia).
      rewrite Zdigits2_shift by lia. unfold t. f_equal. lia. }
    rewrite round_code_pack by (rewrite Htar; lia).
    unfold rounded. rewrite Htar, Hsplit, sticky_shift_exact, rne_exact by lia.
    set (m' := Z.pos m * 2 ^ (e - t)).
    assert (Hm' : 0 < m' < 2 ^ prec).
    { split; [unfold m'; lia|].
      pose proof (Zdigits2_bounds (Z.pos m) ltac:(lia)) as [_ Hhi].
      assert (Hd : Zdigits2 (Z.pos m) + (e - t) <= prec) by (unfold t, SpecFloat.fexp; lia).
      assert (2 ^ (Zdigits2 (Z.pos m) + (e - t)) <= 2 ^ prec).
      { apply Z.pow_le_mono_r; [lia|exact Hd]. }
      rewrite Z.pow_add_r in H by (try lia; simpl; lia).
      unfold m'. nia. }
    unfold pack, finish.
    destruct (Z.eqb_spec m' 0); [lia|]. destruct (Z.eqb_spec m' (2 ^ prec)); [lia|].
    destruct (Z.leb_spec t (emax - prec)); [reflexivity|lia].
  Qed.

  (** *** Multiplication by a positive constant *)

Hypothesis emin_nonpos : emin <= 0.

Theorem SFmul_code (sx sy : bool) (mx my : positive) (ex ey E0 : Z) :
    bounded prec emax mx ex = true -> bounded prec emax my ey = true ->
    E0 <= ex + ey -> E0 <= emin ->
    SFmul prec emax (S754_finite sx mx ex) (S754_finite sy my ey)
    = round_code (xorb sx sy) (4 * (Z.pos mx * Z.pos my * 2 ^ (ex + ey - E0))) E0.
  Proof.
    intros Hx Hy HE Hmin. cbn [SFmul]. rewrite bra_code by lia.
    cbn [loc_bits]. rewrite Z.add_0_r, Pos2Z.inj_mul.
    assert (HP : 0 < 2 ^ (ex + ey - E0)) by (apply Z.pow_pos_nonneg; lia).
    replace E0 with (ex + ey - (ex + ey - E0)) at 2 by lia.
    rewrite round_code_shift; rewrite ?sticky_shift_exact by lia;
      [reflexivity|nia|lia|].
    rewrite target_exact by lia.
    apply bounded_canonical, canonical_fexp in Hx.
    apply bounded_canonical, canonical_fexp in Hy.
    pose proof (digits_mul (Z.pos mx) (Z.pos my) ltac:(lia) ltac:(lia)) as Hd.
    assert (0 < Zdigits2 (Z.pos my)) by (simpl; lia).
    assert (0 < Zdigits2 (Z.pos mx)) by (simpl; lia).
    unfold SpecFloat.fexp in *. lia.
  Qed.

Lemma SFmul_pos_nn (x : spec_float) (mc : positive) (ec : Z) :
    nn x -> valid_binary prec emax x = true -> bounded prec emax mc ec = true ->
    nn (SFmul prec emax x (S754_finite false mc ec))
    /\ valid_binary prec emax (SFmul prec emax x (S754_finite false mc ec)) = true.
  Proof.
    intros Hx Vx Bc. destruct x as [sx|[|]| |[|] mx ex]; cbn [nn] in Hx; try contradiction.
    - cbn [SFmul]. split; [exact I|reflexivity].
    - cbn [SFmul xorb]. split; [exact I|reflexivity].
    - cbn [valid_binary] in Vx.
      rewrite (SFmul_code false false mx mc ex ec (Z.min (ex + ec) emin)) by (assumption || lia).
      cbn [xorb]. split; [apply round_code_nn|].
      assert (0 < 2 ^ (ex + ec - Z.min (ex + ec) emin)) by (apply Z.pow_pos_nonneg; lia).
      apply round_code_valid; [nia|].
      match goal with |- _ <= target ?c ?E => pose proof (target_ge_emin c E) end. lia.
  Qed.

Theorem SFmul_pos_mono (x y : spec_float) (mc : positive) (ec : Z) :
    nn x -> nn y ->
    valid_binary prec emax x = true -> valid_binary prec emax y = true ->
    bounded prec emax mc ec = true ->
    SFleb x y = true ->
    SFleb (SFmul prec emax x (S754_finite false mc ec))
          (SFmul prec emax y (S754_finite false mc ec)) = true.
  Proof.
    intros Hx Hy Vx Vy Bc Hle.
    destruct (SFmul_pos_nn y mc ec Hy Vy Bc) as [Hny _].
    destruct x as [sx|[|]| |[|] mx ex]; cbn [nn] in Hx; try contradiction.
    - apply SFleb_np_nn; [exact I|assumption].
    - apply SFleb_inf_nn in Hle. subst y. reflexivity.
    - destruct y as [sy|[|]| |[|] my ey]; cbn [nn] in Hy; try contradiction; try discriminate.
      + apply SFleb_nn_inf. apply SFmul_pos_nn; assumption.
      + cbn [valid_binary] in Vx, Vy.
        set (E0 := Z.min (Z.min (ex + ec) (ey + ec)) emin).
        rewrite (SFmul_code false false mx mc ex ec E0), (SFmul_code false false my mc ey ec E0)
          by (assumption || (unfold E0; lia)).
        cbn [xorb].
        pose proof (SFleb_pos_scaled mx my ex ey (E0 - ec) Vx Vy Hle
                      ltac:(unfold E0; lia) ltac:(unfold E0; lia)) as Hv.
        replace (ex - (E0 - ec)) with (ex + ec - E0) in Hv by lia.
        replace (ey - (E0 - ec)) with (ey + ec - E0) in Hv by lia.
        assert (0 < 2 ^ (ex + ec - E0)) by (apply Z.pow_pos_nonneg; unfold E0; lia).
        apply round_code_mono; [nia| |];
          match goal with |- _ <= target ?c ?E => pose proof (target_ge_emin c E) end;
          unfold E0 in *; lia.
  Qed.

End Round.

(** ** Order of non-NaN floats *)

Definition key (x : spec_float) : Z * Z * Z :=
  match x with
  | S754_infinity true => (-2, 0, 0)
  | S754_finite true m e => (-1, - e, - Z.pos m)
  | S754_zero _ => (0, 0, 0)
  | S754_nan => (0, 0, 0)
  | S754_finite false m e => (1, e, Z.pos m)
  | S754_infinity false => (2, 0, 0)
  end.

Definition lex_compare (a b : Z * Z * Z) : comparison :=
  let '(a1, a2, a3) := a in
  let '(b1, b2, b3) := b in
  match a1 ?= b1 with
  | Eq => match a2 ?= b2 with Eq => a3 ?= b3 | c => c end
  | c => c
  end.

Lemma compare_opp_opp (a b : Z) : (- a ?= - b) = CompOpp (a ?= b).
Proof.
  destruct (Z.compare_spec a b), (Z.compare_spec (- a) (- b)); try reflexivity; lia.
Qed.

Lemma SFcompare_key (x y : spec_float) :
  is_nan x = false -> is_nan y = false ->
  SFcompare x y = Some (lex_compare (key x) (key y)).
Proof.
  intros Hx Hy.
  destruct x as [sx|[|]| |[|] mx ex], y as [sy|[|]| |[|] my ey];
    try discriminate; try reflexivity; cbn [SFcompare key lex_compare]; f_equal.
  - change (-1 ?= -1) with Eq. cbv iota.
    rewrite compare_opp_opp.
    destruct (ex ?= ey); reflexivity.
Qed.

Lemma lex_compare_le_trans (a b c : Z * Z * Z) :
  lex_compare a b <> Gt -> lex_compare b c <> Gt -> lex_compare a c <> Gt.
Proof.
  destruct a as [[a1 a2] a3], b as [[b1 b2] b3], c as [[c1 c2] c3].
  unfold lex_compare.
  destruct (Z.compare_spec a1 b1), (Z.compare_spec b1 c1), (Z.compare_spec a1 c1);
    try lia; try congruence;
    destruct (Z.compare_spec a2 b2), (Z.compare_spec b2 c2), (Z.compare_spec a2 c2);
    try lia; try congruence;
    destruct (Z.compare_spec a3 b3), (Z.compare_spec b3 c3), (Z.compare_spec a3 c3);
    try lia; congruence.
Qed.

Lemma SFleb_not_nan (x y : spec_float) :
  SFleb x y = true -> is_nan x = false /\ is_nan y = false.
Proof.
  destruct x as [sx|[|]| |[|] mx ex], y as [sy|[|]| |[|] my ey];
    try discriminate; auto.
Qed.

Lemma SFleb_key (x y : spec_float) :
  is_nan x = false -> is_nan y = false ->
  (SFleb x y = true <-> lex_compare (key x) (key y) <> Gt).
Proof.
  intros Hx Hy. unfold SFleb. rewrite SFcompare_key by assumption.
  destruct (lex_compare (key x) (key y)); split; congruence.
Qed.

Lemma SFleb_trans (x y z : spec_float) :
  SFleb x y = true -> SFleb y z = true -> SFleb x z = true.
Proof.
  intros H1 H2.
  destruct (SFleb_not_nan _ _ H1) as [Nx Ny]. destruct (SFleb_not_nan _ _ H2) as [_ Nz].
  apply SFleb_key in H1; try assumption. apply SFleb_key in H2; try assumption.
  apply SFleb_key; try assumption.
  exact (lex_compare_le_trans _ _ _ H1 H2).
Qed.

Lemma SFleb_refl (x : spec_float) : is_nan x = false -> SFleb x x = true.
Proof.
  intros Hx. apply SFleb_key; try assumption.
  destruct (key x) as [[a b] c]. unfold lex_compare. rewrite !Z.compare_refl. discriminate.
Qed.

Lemma SFcompare_antisym (x y : spec_float) :
  is_nan x = false -> is_nan y = false ->
  SFcompare y x = option_map CompOpp (SFcompare x y).
Proof.
  intros Hx Hy. rewrite !SFcompare_key by assumption. cbn [option_map]. f_equal.
  destruct (key x) as [[a1 a2] a3], (key y) as [[b1 b2] b3]. unfold lex_compare.
  rewrite (Z.compare_antisym a1 b1), (Z.compare_antisym a2 b2), (Z.compare_antisym a3 b3).
  destruct (a1 ?= b1), (a2 ?= b2), (a3 ?= b3); reflexivity.
Qed.

(** * The firmware's arithmetic *)

Lemma f32_prec : 0 < F32.prec.
Proof. reflexivity. Qed.

Lemma f64_prec : 0 < F64.prec.
Proof. reflexivity. Qed.

Lemma f32_emin : emin F32.prec F32.emax <= 0.
Proof. discriminate. Qed.

Lemma f64_emin : emin F64.prec F64.emax <= 0.
Proof. discriminate. Qed.

(** Conversion between the two formats. *)
Definition conv (prec emax : Z) (x : spec_float) : spec_float :=
  match x with
  | S754_finite s m e => binary_round prec emax s m e
  | _ => x
  end.

Lemma conv_nn (p2 x2 : Z) (x : spec_float) :
  0 < p2 -> nn x ->
  nn (conv p2 x2 x) /\ valid_binary p2 x2 (conv p2 x2 x) = true.
Proof.
  intros Hp Hx. destruct x as [sx|[|]| |[|] mx ex]; cbn [nn] in Hx; try contradiction;
    cbn [conv]; try (split; [exact I|reflexivity]).
  split; [|apply binary_round_valid; assumption].
  rewrite (binary_round_code p2 x2 Hp false mx ex (Z.min ex (emin p2 x2))) by lia.
  apply round_code_nn.
Qed.

Lemma conv_mono (p1 x1 p2 x2 : Z) (x y : spec_float) :
  0 < p1 -> 0 < p2 -> nn x -> nn y ->
  valid_binary p1 x1 x = true -> valid_binary p1 x1 y = true ->
  SFleb x y = true ->
  SFleb (conv p2 x2 x) (conv p2 x2 y) = true.
Proof.
  intros Hp1 Hp2 Hx Hy Vx Vy Hle.
  destruct (conv_nn p2 x2 y Hp2 Hy) as [Hny _].
  destruct x as [sx|[|]| |[|] mx ex]; cbn [nn] in Hx; try contradiction.
  - apply SFleb_np_nn; [exact I|assumption].
  - apply SFleb_inf_nn in Hle. subst y. reflexivity.
  - destruct y as [sy|[|]| |[|] my ey]; cbn [nn] in Hy; try contradiction; try discriminate.
    + apply SFleb_nn_inf. apply conv_nn; [assumption|exact I].
    + cbn [valid_binary conv] in *.
      set (E0 := Z.min (Z.min ex ey) (emin p2 x2)).
      apply (binary_round_mono p2 x2 Hp2 mx my ex ey E0); try (unfold E0; lia).
      apply (SFleb_pos_scaled p1 x1 Hp1); try assumption; unfold E0; lia.
Qed.

Lemma shiftl_scaled (m e E0 : Z) :
  0 <= m -> E0 <= e -> E0 <= 0 ->
  Z.shiftl m e = m * 2 ^ (e - E0) / 2 ^ (- E0).
Proof.
  intros Hm He H0.
  assert (HP : 0 < 2 ^ (- E0)) by (apply Z.pow_pos_nonneg; lia).
  destruct (Z_le_gt_dec 0 e) as [Hpos|Hneg].
  - rewrite Z.shiftl_mul_pow2 by assumption.
    replace (e - E0) with (e + - E0) by lia. rewrite Z.pow_add_r by lia.
    rewrite Z.mul_assoc, Z.div_mul by lia. reflexivity.
  - rewrite Z.shiftl_div_pow2 by lia.
    replace (- E0) with (- e + (e - E0)) by lia. rewrite Z.pow_add_r by lia.
    assert (0 < 2 ^ (e - E0)) by (apply Z.pow_pos_nonneg; lia).
    assert (0 < 2 ^ (- e)) by (apply Z.pow_pos_nonneg; lia).
    rewrite Z.div_mul_cancel_r by lia. reflexivity.
Qed.

(** Truncation of non-negative finite floats follows their order. *)
Lemma ftrunc_mono (prec emax : Z) (x y : spec_float) :
  0 < prec -> nn x -> nn y ->
  valid_binary prec emax x = true -> valid_binary prec emax y = true ->
  is_finite y = true -> SFleb x y = true ->
  exists a b, ftrunc x = Some a /\ ftrunc y = Some b /\ 0 <= a <= b.
Proof.
  intros Hp Hx Hy Vx Vy Fy Hle.
  destruct y as [sy|[|]| |[|] my ey]; cbn [nn] in Hy; try contradiction; try discriminate.
  - destruct x as [sx|[|]| |[|] mx ex]; cbn [nn] in Hx; try contradiction; try discriminate.
    exists 0, 0. cbn [ftrunc]. repeat split; lia.
  - destruct x as [sx|[|]| |[|] mx ex]; cbn [nn] in Hx; try contradiction; try discriminate.
    + exists 0, (Z.shiftl (Z.pos my) ey). cbn [ftrunc cond_Zopp]. repeat split; try lia.
      apply Z.shiftl_nonneg. lia.
    + exists (Z.shiftl (Z.pos mx) ex), (Z.shiftl (Z.pos my) ey).
      cbn [ftrunc cond_Zopp]. repeat split.
      * apply Z.shiftl_nonneg. lia.
      * set (E0 := Z.min (Z.min ex ey) 0).
        rewrite (shiftl_scaled (Z.pos mx) ex E0), (shiftl_scaled (Z.pos my) ey E0)
          by (unfold E0; lia).
        apply Z.div_le_mono; [apply Z.pow_pos_nonneg; unfold E0; lia|].
        apply (SFleb_pos_scaled prec emax Hp); try assumption; unfold E0; lia.
Qed.

(** ** Constants of the firmware as binary32 / binary64 values *)

Lemma offset_float : F32.of_Z SENSOR_OFFSET_CM = S754_finite false 10485760 (-21).
Proof. reflexivity. Qed.

Lemma depth_float : F32.of_Z BIN_DEPTH_CM = S754_finite false 10485760 (-17).
Proof. reflexivity. Qed.

Lemma hundred_double : F64.literal 100 1 = S754_finite false 7036874417766400 (-46).
Proof. reflexivity. Qed.

(** ** The interpolation is antitone and bounded *)

Lemma fill_percentage_antitone (x y : float) :
  F32.valid x = true -> F32.valid y = true ->
  is_finite x = true -> is_finite y = true ->
  fle x y = true -> fle y (F32.of_Z BIN_DEPTH_CM) = true ->
  fle (fill_percentage y) (fill_percentage x) = true
  /\ nn (fill_percentage y) /\ F32.valid (fill_percentage y) = true.
Proof.
  unfold F32.valid, fle. intros Vx Vy Fx Fy Hxy Hy.
  assert (Hx : SFleb x (F32.of_Z BIN_DEPTH_CM) = true) by (eapply SFleb_trans; eassumption).
  unfold fill_percentage.
  rewrite depth_float in *. rewrite hundred_double.
  assert (B80 : bounded F32.prec F32.emax 10485760 (-17) = true) by reflexivity.
  assert (B100 : bounded F64.prec F64.emax 7036874417766400 (-46) = true) by reflexivity.
  assert (Fx' : finite x = true) by (destruct x; assumption).
  assert (Fy' : finite y = true) by (destruct y; assumption).
  (* the remaining depth [BIN_DEPTH_CM - emptySpace] *)
  assert (Ha : forall z, F32.valid z = true -> finite z = true ->
             SFleb z (S754_finite false 10485760 (-17)) = true ->
             nn (F32.sub (S754_finite false 10485760 (-17)) z)
             /\ valid_binary F32.prec F32.emax
                  (F32.sub (S754_finite false 10485760 (-17)) z) = true).
  { intros z Vz Fz Hz. unfold F32.sub.
    destruct (SFsub_exact_r F32.prec F32.emax f32_prec z false 10485760 (-17) Fz B80)
      as (ez & He & Hb & ->).
    split; [|apply bn_valid; exact f32_prec].
    apply bn_nn; [exact f32_prec|].
    pose proof (SFleb_scaled F32.prec F32.emax f32_prec z
                  (S754_finite false 10485760 (-17)) ez Vz B80 Fz eq_refl Hz Hb He) as Hs.
    lia. }
  destruct (Ha x Vx Fx' Hx) as [Nax Vax]. destruct (Ha y Vy Fy' Hy) as [Nay Vay].
  assert (Hsub : SFleb (F32.sub (S754_finite false 10485760 (-17)) y)
                       (F32.sub (S754_finite false 10485760 (-17)) x) = true).
  { apply (SFsub_mono_r F32.prec F32.emax f32_prec); assumption. }
  (* the quotient by [BIN_DEPTH_CM] *)
  pose proof (SFdiv_pos_mono F32.prec F32.emax f32_prec _ _ 10485760 (-17)
                Nay Nax Vay Vax Hsub) as Hdiv.
  destruct (SFdiv_pos_nn F32.prec F32.emax f32_prec _ 10485760 (-17) Nax) as [Nqx Vqx].
  destruct (SFdiv_pos_nn F32.prec F32.emax f32_prec _ 10485760 (-17) Nay) as [Nqy Vqy].
  (* widening to double *)
  pose proof (conv_mono F32.prec F32.emax F64.prec F64.emax _ _
                f32_prec f64_prec Nqy Nqx Vqy Vqx Hdiv) as Hw.
  destruct (conv_nn F64.prec F64.emax _ f64_prec Nqx) as [Nwx Vwx].
  destruct (conv_nn F64.prec F64.emax _ f64_prec Nqy) as [Nwy Vwy].
  (* the product with 100.0 *)
  pose proof (SFmul_pos_mono F64.prec F64.emax f64_prec f64_emin _ _ _ _
                Nwy Nwx Vwy Vwx B100 Hw) as Hmul.
  destruct (SFmul_pos_nn F64.prec F64.emax f64_prec f64_emin _ _ _ Nwx Vwx B100) as [Nmx Vmx].
  destruct (SFmul_pos_nn F64.prec F64.emax f64_prec f64_emin _ _ _ Nwy Vwy B100) as [Nmy Vmy].
  (* narrowing to float *)
  pose proof (conv_mono F64.prec F64.emax F32.prec F32.emax _ _
                f64_prec f32_prec Nmy Nmx Vmy Vmx Hmul) as Hn.
  destruct (conv_nn F32.prec F32.emax _ f32_prec Nmy) as [Nny Vny].
  split; [exact Hn|]. split; [exact Nny|exact Vny].
Qed.

Lemma fill_percentage_zero : fill_percentage (S754_zero false) = F32.of_Z 100.
Proof. reflexivity. Qed.

Lemma nn_le_finite (x : spec_float) (m : positive) (e : Z) :
  nn x -> SFleb x (S754_finite false m e) = true -> is_finite x = true.
Proof.
  destruct x as [sx|[|]| |[|] mx ex]; cbn [nn]; try contradiction; try discriminate;
    reflexivity.
Qed.

Lemma to_int_bounded (x : float) (a : Z) :
  ftrunc x = Some a -> 0 <= a <= 100 -> to_int x = Some a.
Proof.
  intros Ht Ha. unfold to_int, fcast. rewrite Ht.
  assert (H1 : (- 2 ^ 31 <=? a) = true) by (apply Z.leb_le; lia).
  assert (H2 : (a <=? 2 ^ 31 - 1) = true) by (apply Z.leb_le; lia).
  rewrite H1, H2. reflexivity.
Qed.

(** In the interpolation range the percentage truncates to a value of
    [0 .. 100], and a larger empty space gives a smaller value. *)
Lemma interpolation_antitone (x y : float) :
  F32.valid x = true -> F32.valid y = true ->
  is_finite x = true -> is_finite y = true ->
  fle (S754_zero false) x = true -> fle x y = true ->
  fle y (F32.of_Z BIN_DEPTH_CM) = true ->
  exists rx ry,
    to_int (fill_percentage x) = Some rx /\ to_int (fill_percentage y) = Some ry
    /\ 0 <= ry <= rx /\ rx <= 100.
Proof.
  intros Vx Vy Fx Fy H0 Hxy Hy.
  assert (Hx : fle x (F32.of_Z BIN_DEPTH_CM) = true) by (eapply SFleb_trans; eassumption).
  destruct (fill_percentage_antitone (S754_zero false) x eq_refl Vx eq_refl Fx H0 Hx)
    as (Hx100 & Nx & Vpx).
  destruct (fill_percentage_antitone x y Vx Vy Fx Fy Hxy Hy) as (Hyx & Ny & Vpy).
  rewrite fill_percentage_zero in Hx100.
  assert (F100 : is_finite (F32.of_Z 100) = true) by reflexivity.
  assert (N100 : nn (F32.of_Z 100)) by exact I.
  assert (V100 : F32.valid (F32.of_Z 100) = true) by reflexivity.
  assert (Fpx : is_finite (fill_percentage x) = true).
  { revert Hx100. apply nn_le_finite. assumption. }
  destruct (ftrunc_mono F32.prec F32.emax _ _ f32_prec Nx N100 Vpx V100 F100 Hx100)
    as (a & b & Ta & Tb & Hab).
  destruct (ftrunc_mono F32.prec F32.emax _ _ f32_prec Ny Nx Vpy Vpx Fpx Hyx)
    as (c & a' & Tc & Ta' & Hca).
  assert (b = 100) by (cbv in Tb; congruence). subst b.
  assert (a' = a) by congruence. subst a'.
  exists a, c. repeat split; try lia; apply to_int_bounded; (assumption || lia).
Qed.

Lemma interpolation_range (x : float) :
  F32.valid x = true -> is_finite x = true ->
  fle (S754_zero false) x = true -> fle x (F32.of_Z BIN_DEPTH_CM) = true ->
  exists r, to_int (fill_percentage x) = Some r /\ 0 <= r <= 100.
Proof.
  intros Vx Fx H0 Hx.
  assert (Nx : is_nan x = false) by (destruct x; try reflexivity; discriminate).
  destruct (interpolation_antitone x x Vx Vx Fx Fx H0 (SFleb_refl x Nx) Hx)
    as (r & r' & Hr & _ & H1 & H2).
  exists r. split; [assumption|lia].
Qed.

(** ** The three branches of calculateFillLevel *)

Definition adjusted (distance : float) : float :=
  F32.sub distance (F32.of_Z SENSOR_OFFSET_CM).

Lemma adjusted_valid (distance : float) :
  F32.valid distance = true -> F32.valid (adjusted distance) = true.
Proof.
  intros V. unfold adjusted. rewrite offset_float.
  apply (SFsub_valid F32.prec F32.emax f32_prec); [assumption|reflexivity].
Qed.

Lemma adjusted_not_nan (distance : float) :
  is_nan distance = false -> is_nan (adjusted distance) = false.
Proof.
  intros N. unfold adjusted. rewrite offset_float.
  apply (SFsub_not_nan F32.prec F32.emax f32_prec); [assumption|reflexivity].
Qed.

Lemma adjusted_mono (d1 d2 : float) :
  F32.valid d1 = true -> F32.valid d2 = true ->
  fle d1 d2 = true -> fle (adjusted d1) (adjusted d2) = true.
Proof.
  intros V1 V2 H. unfold adjusted. rewrite offset_float.
  apply (SFsub_mono_l F32.prec F32.emax f32_prec); (assumption || reflexivity).
Qed.

Lemma fle_false_gt (x y : float) :
  is_nan x = false -> is_nan y = false -> fle x y = false ->
  fle y x = true /\ fge x y = true.
Proof.
  intros Nx Ny H. unfold fle, fge, SFleb in *.
  rewrite (SFcompare_antisym x y Nx Ny).
  rewrite (SFcompare_key x y Nx Ny) in *.
  destruct (lex_compare (key x) (key y)); try discriminate. split; reflexivity.
Qed.

Lemma fge_false_lt (x y : float) :
  is_nan x = false -> is_nan y = false -> fge x y = false -> fle x y = true.
Proof.
  intros Nx Ny H. unfold fle, fge, SFleb in *.
  rewrite (SFcompare_key x y Nx Ny) in *.
  destruct (lex_compare (key x) (key y)); try discriminate. reflexivity.
Qed.

Lemma fge_fle (x y : float) : fge x y = true -> fle y x = true.
Proof.
  unfold fge, fle, SFleb. intros H.
  assert (Nx : is_nan x = false) by (destruct x; try reflexivity; discriminate).
  assert (Ny : is_nan y = false)
    by (destruct y; try reflexivity; destruct x as [?|[|]| |[|] ? ?]; discriminate).
  rewrite (SFcompare_antisym x y Nx Ny).
  destruct (SFcompare x y) as [[ | | ]|]; try discriminate; reflexivity.
Qed.

Lemma fle_fge (x y : float) : fle y x = true -> fge x y = true.
Proof.
  unfold fge, fle, SFleb. intros H.
  destruct (SFleb_not_nan y x H) as [Ny Nx].
  rewrite (SFcompare_antisym y x Ny Nx).
  unfold SFleb in H.
  destruct (SFcompare y x) as [[ | | ]|]; try discriminate; reflexivity.
Qed.

(** An adjusted distance that passes both edge-case tests is finite and lies
    between 0 and [BIN_DEPTH_CM]. *)
Lemma interpolation_branch (a : float) :
  is_nan a = false ->
  fle a (F32.of_Z 0) = false -> fge a (F32.of_Z BIN_DEPTH_CM) = false ->
  is_finite a = true /\ fle (S754_zero false) a = true
  /\ fle a (F32.of_Z BIN_DEPTH_CM) = true.
Proof.
  intros Na H0 H80.
  destruct (fle_false_gt a (F32.of_Z 0) Na eq_refl H0) as [Hpos _].
  pose proof (fge_false_lt a (F32.of_Z BIN_DEPTH_CM) Na eq_refl H80) as Hlt.
  split; [|split; assumption].
  rewrite depth_float in Hlt.
  destruct a as [sx|[|]| |[|] mx ex]; try reflexivity; discriminate.
Qed.

Lemma interpolation_value (distance : float) :
  F32.valid distance = true -> is_nan distance = false ->
  fle (adjusted distance) (F32.of_Z 0) = false ->
  fge (adjusted distance) (F32.of_Z BIN_DEPTH_CM) = false ->
  exists fillLevel,
    to_int (fill_percentage (adjusted distance)) = Some fillLevel
    /\ 0 <= fillLevel <= 100
    /\ calculateFillLevel distance = Some fillLevel.
Proof.
  intros V N H0 H80.
  destruct (interpolation_branch _ (adjusted_not_nan _ N) H0 H80) as (Fa & Pa & La).
  destruct (interpolation_range _ (adjusted_valid _ V) Fa Pa La) as (r & Hr & Hb).
  exists r. split; [assumption|]. split; [assumption|].
  unfold calculateFillLevel. fold (adjusted distance). rewrite H0, H80, Hr.
  unfold clamp_fill.
  destruct (Z.ltb_spec r 0); [lia|]. destruct (Z.gtb_spec r 100); [lia|]. reflexivity.
Qed.

Lemma calculateFillLevel_total (distance : float) :
  F32.valid distance = true -> is_nan distance = false ->
  exists r, calculateFillLevel distance = Some r /\ 0 <= r <= 100.
Proof.
  intros V N.
  destruct (fle (adjusted distance) (F32.of_Z 0)) eqn:H0.
  { exists 100. unfold calculateFillLevel. fold (adjusted distance). rewrite H0.
    split; [reflexivity|lia]. }
  destruct (fge (adjusted distance) (F32.of_Z BIN_DEPTH_CM)) eqn:H80.
  { exists 0. unfold calculateFillLevel. fold (adjusted distance). rewrite H0, H80.
    split; [reflexivity|lia]. }
  destruct (interpolation_value distance V N H0 H80) as (r & _ & Hb & Hr).
  exists r. split; assumption.
Qed.

(** C9: on the interpolation branch of calculateFillLevel (both edge-case
    tests on the adjusted distance fail, i.e. 0 < distance - offset < depth)
    the truncated percentage already lies in [0, 100]: neither clamp test
    fires, and the function returns the truncated value unchanged. *)
Theorem clamp_is_redundant (distance : float) :
  F32.valid distance = true -> is_nan distance = false ->
  fle (adjusted distance) (F32.of_Z 0) = false ->
  fge (adjusted distance) (F32.of_Z BIN_DEPTH_CM) = false ->
  exists fillLevel,
    to_int (fill_percentage (adjusted distance)) = Some fillLevel
    /\ 0 <= fillLevel <= 100
    /\ (fillLevel <? 0) = false /\ (fillLevel >? 100) = false
    /\ clamp_fill fillLevel = fillLevel
    /\ calculateFillLevel distance = Some fillLevel.
Proof.
  intros V N H0 H80.
  destruct (interpolation_value distance V N H0 H80) as (r & Hr & Hb & Hc).
  exists r.
  assert (L : (r <? 0) = false) by (apply Z.ltb_ge; lia).
  assert (G : (r >? 100) = false) by (destruct (Z.gtb_spec r 100); [lia|reflexivity]).
  repeat split; try assumption; try lia.
  unfold clamp_fill. rewrite L, G. reflexivity.
Qed.

Lemma clamp_is_redundant_witness :
  exists fillLevel,
    to_int (fill_percentage (adjusted (F32.of_Z 41))) = Some fillLevel
    /\ 0 <= fillLevel <= 100
    /\ (fillLevel <? 0) = false /\ (fillLevel >? 100) = false
    /\ clamp_fill fillLevel = fillLevel
    /\ calculateFillLevel (F32.of_Z 41) = Some fillLevel.
Proof. apply (clamp_is_redundant (F32.of_Z 41)); reflexivity. Defined.

(** C10: calculateFillLevel is non-increasing in the distance: for valid
    binary32 distances [d1 <= d2] (neither is a NaN) both calls return, and
    the level for [d2] is at most the level for [d1]. *)
Theorem calculateFillLevel_antitone (d1 d2 : float) :
  F32.valid d1 = true -> F32.valid d2 = true -> fle d1 d2 = true ->
  exists r1 r2,
    calculateFillLevel d1 = Some r1 /\ calculateFillLevel d2 = Some r2 /\ r2 <= r1.
Proof.
  intros V1 V2 H.
  destruct (SFleb_not_nan d1 d2 H) as [N1 N2].
  pose proof (adjusted_mono d1 d2 V1 V2 H) as Ha.
  pose proof (adjusted_not_nan d1 N1) as Na1. pose proof (adjusted_not_nan d2 N2) as Na2.
  destruct (calculateFillLevel_total d1 V1 N1) as (t1 & T1 & B1).
  destruct (calculateFillLevel_total d2 V2 N2) as (t2 & T2 & B2).
  destruct (fle (adjusted d1) (F32.of_Z 0)) eqn:H10.
  { exists 100, t2. unfold calculateFillLevel at 1. fold (adjusted d1). rewrite H10.
    repeat split; (assumption || lia). }
  destruct (fle_false_gt (adjusted d1) (F32.of_Z 0) Na1 eq_refl H10) as [P1 _].
  assert (P2 : fle (F32.of_Z 0) (adjusted d2) = true) by (eapply SFleb_trans; eassumption).
  assert (H20 : fle (adjusted d2) (F32.of_Z 0) = false).
  { destruct (fle (adjusted d2) (F32.of_Z 0)) eqn:E; [|reflexivity].
    assert (C : fle (adjusted d1) (F32.of_Z 0) = true) by (eapply SFleb_trans; eassumption).
    congruence. }
  destruct (fge (adjusted d2) (F32.of_Z BIN_DEPTH_CM)) eqn:H280.
  { exists t1, 0. unfold calculateFillLevel at 2. fold (adjusted d2). rewrite H20, H280.
    repeat split; (assumption || lia). }
  assert (H180 : fge (adjusted d1) (F32.of_Z BIN_DEPTH_CM) = false).
  { destruct (fge (adjusted d1) (F32.of_Z BIN_DEPTH_CM)) eqn:E; [|reflexivity].
    apply fge_fle in E.
    assert (C : fle (F32.of_Z BIN_DEPTH_CM) (adjusted d2) = true)
      by (eapply SFleb_trans; eassumption).
    apply fle_fge in C. congruence. }
  destruct (interpolation_branch _ Na1 H10 H180) as (F1 & Z1 & L1).
  destruct (interpolation_branch _ Na2 H20 H280) as (F2 & Z2 & L2).
  destruct (interpolation_antitone _ _ (adjusted_valid _ V1) (adjusted_valid _ V2)
              F1 F2 Z1 Ha L2) as (r1 & r2 & R1 & R2 & Hr & Hr').
  destruct (interpolation_value d1 V1 N1 H10 H180) as (s1 & S1 & _ & C1).
  destruct (interpolation_value d2 V2 N2 H20 H280) as (s2 & S2 & _ & C2).
  exists s1, s2. repeat split; try assumption.
  assert (s1 = r1) by congruence. assert (s2 = r2) by congruence. lia.
Qed.

Lemma calculateFillLevel_antitone_witness :
  exists r1 r2,
    calculateFillLevel (F32.of_Z 41) = Some r1
    /\ calculateFillLevel (F32.of_Z 60) = Some r2 /\ r2 <= r1.
Proof. apply (calculateFillLevel_antitone (F32.of_Z 41) (F32.of_Z 60)); reflexivity. Defined.


(** * The median filter of measureDistance *)

Section MedianFilter.
Local Open Scope nat_scope.

Definition not_nan (x : float) : Prop := is_nan x = false.

Lemma length_store (i : nat) (v : float) (a : list float) :
  List.length (store i v a) = List.length a.
Proof.
  revert i. induction a as [|h t IH]; intros [|i]; cbn [store List.length]; auto.
Qed.

Lemma nth_store_eq (i : nat) (v : float) (a : list float) :
  i < List.length a -> nth i (store i v a) fnan = v.
Proof.
  revert i. induction a as [|h t IH]; intros [|i] H; cbn [store nth List.length] in *;
    try lia; auto. apply IH. lia.
Qed.

Lemma nth_store_ne (i k : nat) (v : float) (a : list float) :
  k <> i -> nth k (store i v a) fnan = nth k a fnan.
Proof.
  revert i k. induction a as [|h t IH]; intros [|i] [|k] H; cbn [store nth]; auto; try lia.
Qed.

Lemma store_perm (i : nat) (v : float) (a : list float) :
  i < List.length a -> Permutation (v :: a) (nth i a fnan :: store i v a).
Proof.
  revert i. induction a as [|h t IH]; intros [|i] H; cbn [store nth List.length] in *; try lia.
  - apply perm_swap.
  - eapply perm_trans; [apply perm_swap|].
    eapply perm_trans; [apply perm_skip, (IH i); lia|]. apply perm_swap.
Qed.

(** The array after the three assignments of a swap. *)
Definition swapped (i j : nat) (a : list float) : list float :=
  store j (nth i a fnan) (store i (nth j a fnan) a).

Lemma nth_swapped (i j k : nat) (a : list float) :
  i < List.length a -> j < List.length a ->
  nth k (swapped i j a) fnan
  = if Nat.eqb k j then nth i a fnan
    else if Nat.eqb k i then nth j a fnan else nth k a fnan.
Proof.
  intros Hi Hj. unfold swapped.
  destruct (Nat.eqb_spec k j) as [->|Hkj].
  - apply nth_store_eq. rewrite length_store. assumption.
  - rewrite nth_store_ne by assumption.
    destruct (Nat.eqb_spec k i) as [->|Hki].
    + apply nth_store_eq. assumption.
    + apply nth_store_ne. assumption.
Qed.

Lemma swapped_perm (i j : nat) (a : list float) :
  i < List.length a -> j < List.length a -> Permutation (swapped i j a) a.
Proof.
  intros Hi Hj. unfold swapped.
  pose proof (store_perm i (nth j a fnan) a Hi) as P1.
  pose proof (store_perm j (nth i a fnan) (store i (nth j a fnan) a)
                ltac:(rewrite length_store; assumption)) as P2.
  assert (E : nth j (store i (nth j a fnan) a) fnan = nth j a fnan).
  { destruct (Nat.eq_dec j i) as [->|Hne];
      [apply nth_store_eq; assumption|apply nth_store_ne; assumption]. }
  rewrite E in P2.
  apply (Permutation_cons_inv (a := nth j a fnan)).
  eapply perm_trans; [|apply Permutation_sym, P1].
  apply Permutation_sym. exact P2.
Qed.

Lemma length_swapped_aux (i j : nat) (a : list float) :
  List.length (swapped i j a) = List.length a.
Proof. unfold swapped. rewrite !length_store. reflexivity. Qed.

Lemma compare_swap_cases (i j : nat) (a : list float) :
  compare_swap i j a
  = if fgt (nth i a fnan) (nth j a fnan) then swapped i j a else a.
Proof. reflexivity. Qed.

Lemma compare_swap_perm (i j : nat) (a : list float) :
  i < List.length a -> j < List.length a -> Permutation (compare_swap i j a) a.
Proof.
  intros Hi Hj. rewrite compare_swap_cases.
  destruct (fgt _ _); [apply swapped_perm; assumption|apply Permutation_refl].
Qed.

Lemma sort_inner_perm (count i j : nat) (a : list float) :
  i < List.length a -> j + count <= List.length a -> Permutation (sort_inner count i j a) a.
Proof.
  revert j a. induction count as [|count IH]; intros j a Hi Hj; cbn [sort_inner].
  - apply Permutation_refl.
  - pose proof (compare_swap_perm i j a Hi ltac:(lia)) as P.
    pose proof (Permutation_length P) as L.
    eapply perm_trans; [apply IH; lia|exact P].
Qed.

Lemma sort_outer_perm (count i n : nat) (a : list float) :
  n = List.length a -> i + count < n \/ count = 0 -> Permutation (sort_outer count i n a) a.
Proof.
  revert i a. induction count as [|count IH]; intros i a Hn Hc; cbn [sort_outer].
  - apply Permutation_refl.
  - pose proof (sort_inner_perm (n - S i) i (S i) a ltac:(lia) ltac:(lia)) as P.
    pose proof (Permutation_length P) as L.
    eapply perm_trans; [apply IH; lia|exact P].
Qed.

Lemma sort_readings_perm (a : list float) :
  Permutation (sort_readings (List.length a) a) a.
Proof.
  unfold sort_readings. apply sort_outer_perm; [reflexivity|].
  destruct (List.length a) as [|[|n]]; cbn; lia.
Qed.

(** *** The result is in ascending order *)

Definition le_at (a : list float) (p q : nat) : Prop :=
  fle (nth p a fnan) (nth q a fnan) = true.

Definition settled (i : nat) (a : list float) : Prop :=
  forall p q, p < i -> p < q -> q < List.length a -> le_at a p q.

Definition minimal (i j : nat) (a : list float) : Prop :=
  forall q, i < q -> q < j -> le_at a i q.

Lemma fgt_false_fle (x y : float) :
  not_nan x -> not_nan y -> fgt x y = false -> fle x y = true.
Proof.
  unfold not_nan, fgt, fle, SFleb. intros Nx Ny. rewrite (SFcompare_key x y Nx Ny).
  destruct (lex_compare (key x) (key y)); congruence.
Qed.

Lemma fgt_true_fle (x y : float) : fgt x y = true -> fle y x = true.
Proof.
  intros H. apply fge_fle. unfold fgt, fge in *.
  destruct (SFcompare x y) as [[ | | ]|]; congruence.
Qed.

Lemma nth_not_nan (a : list float) (k : nat) :
  Forall not_nan a -> k < List.length a -> not_nan (nth k a fnan).
Proof. intros H Hk. rewrite Forall_forall in H. apply H, nth_In, Hk. Qed.

Lemma compare_swap_step (i j : nat) (a : list float) :
  Forall not_nan a -> i < j -> j < List.length a ->
  settled i a -> minimal i j a ->
  settled i (compare_swap i j a) /\ minimal i (S j) (compare_swap i j a).
Proof.
  intros Hn Hij Hj Hs Hm. rewrite compare_swap_cases.
  pose proof (nth_not_nan a i Hn ltac:(lia)) as Ni.
  pose proof (nth_not_nan a j Hn Hj) as Nj.
  destruct (fgt (nth i a fnan) (nth j a fnan)) eqn:Hgt.
  - apply fgt_true_fle in Hgt. split.
    + intros p q Hp Hpq Hq. unfold le_at. rewrite length_swapped_aux in Hq.
      rewrite !nth_swapped by lia.
      destruct (Nat.eqb_spec p j); [lia|]. destruct (Nat.eqb_spec p i); [lia|].
      destruct (Nat.eqb_spec q j); [apply Hs; lia|].
      destruct (Nat.eqb_spec q i); apply Hs; lia.
    + intros q Hq1 Hq2. unfold le_at. rewrite !nth_swapped by lia.
      destruct (Nat.eqb_spec i j); [lia|]. rewrite Nat.eqb_refl.
      destruct (Nat.eqb_spec q j); [assumption|].
      destruct (Nat.eqb_spec q i); [lia|].
      eapply SFleb_trans; [exact Hgt|]. apply Hm; lia.
  - apply fgt_false_fle in Hgt; try assumption. split; [assumption|].
    intros q Hq1 Hq2. destruct (Nat.eq_dec q j) as [->|Hne]; [exact Hgt|apply Hm; lia].
Qed.

Lemma not_nan_perm (a b : list float) :
  Permutation a b -> Forall not_nan b -> Forall not_nan a.
Proof. intros P H. eapply Permutation_Forall; [apply Permutation_sym, P|exact H]. Qed.

Lemma sort_inner_inv (count i j : nat) (a : list float) :
  Forall not_nan a -> i < j -> j + count = List.length a ->
  settled i a -> minimal i j a ->
  settled i (sort_inner count i j a)
  /\ minimal i (List.length a) (sort_inner count i j a).
Proof.
  revert j a. induction count as [|count IH]; intros j a Hn Hij Hj Hs Hm; cbn [sort_inner].
  - replace (List.length a) with j by lia. split; assumption.
  - destruct (compare_swap_step i j a Hn Hij ltac:(lia) Hs Hm) as [Hs' Hm'].
    pose proof (compare_swap_perm i j a ltac:(lia) ltac:(lia)) as P.
    pose proof (Permutation_length P) as L.
    rewrite <- L. apply IH; try assumption; try lia.
    eapply not_nan_perm; eassumption.
Qed.

Lemma settled_next (i : nat) (a : list float) :
  settled i a -> minimal i (List.length a) a -> settled (S i) a.
Proof.
  intros Hs Hm p q Hp Hpq Hq.
  destruct (Nat.eq_dec p i) as [->|Hne]; [apply Hm; lia|apply Hs; lia].
Qed.

Lemma sort_outer_inv (count i n : nat) (a : list float) :
  Forall not_nan a -> n = List.length a -> i + count = n - 1 ->
  settled i a -> settled (n - 1) (sort_outer count i n a).
Proof.
  revert i a. induction count as [|count IH]; intros i a Hn Hl Hc Hs; cbn [sort_outer].
  - replace (n - 1) with i by lia. assumption.
  - pose proof (sort_inner_perm (n - S i) i (S i) a ltac:(lia) ltac:(lia)) as P.
    pose proof (Permutation_length P) as L.
    assert (Hm : minimal i (S i) a) by (intros q H1 H2; lia).
    destruct (sort_inner_inv (n - S i) i (S i) a Hn ltac:(lia) ltac:(lia) Hs Hm) as [Hs' Hm'].
    apply IH; try lia.
    + eapply not_nan_perm; eassumption.
    + apply settled_next; [assumption|]. rewrite L. assumption.
Qed.

(** The nested loops leave the array in ascending order. *)
Lemma sort_readings_sorted (a : list float) (p q : nat) :
  Forall not_nan a -> p < q -> q < List.length a ->
  le_at (sort_readings (List.length a) a) p q.
Proof.
  intros Hn Hpq Hq. unfold sort_readings.
  pose proof (sort_outer_inv (List.length a - 1) 0 (List.length a) a Hn eq_refl eq_refl) as H.
  assert (H0 : settled 0 a) by (intros p' q' Hp'; lia).
  specialize (H H0). apply H; try lia.
  pose proof (Permutation_length (sort_readings_perm a)) as L.
  unfold sort_readings in L. lia.
Qed.

(** *** The middle element is the median *)

Fixpoint countb (f : float -> bool) (l : list float) : nat :=
  match l with
  | [] => 0
  | x :: t => (if f x then 1 else 0) + countb f t
  end.

Lemma countb_perm (f : float -> bool) (a b : list float) :
  Permutation a b -> countb f a = countb f b.
Proof.
  induction 1 as [|x a b P IH|x y a|a b c P1 IH1 P2 IH2]; cbn [countb]; lia.
Qed.

Lemma countb_le_length (f : float -> bool) (l : list float) :
  countb f l <= List.length l.
Proof. induction l as [|x t IH]; cbn [countb List.length]; [lia|destruct (f x); lia]. Qed.

Lemma countb_upper_part (f : float -> bool) (l : list float) (k : nat) :
  (forall p, p <= k -> p < List.length l -> f (nth p l fnan) = false) ->
  k < List.length l -> countb f l + S k <= List.length l.
Proof.
  revert k. induction l as [|x t IH]; intros k H Hk; cbn [List.length] in *; [lia|].
  cbn [countb]. pose proof (H 0 ltac:(lia) ltac:(lia)) as H0. cbn [nth] in H0. rewrite H0.
  destruct k as [|k].
  - pose proof (countb_le_length f t). lia.
  - assert (countb f t + S k <= List.length t); [|lia].
    apply IH; [|lia]. intros p Hp Hl. apply (H (S p)); lia.
Qed.

Lemma countb_lower_part (f : float -> bool) (l : list float) (k : nat) :
  (forall p, k <= p -> p < List.length l -> f (nth p l fnan) = false) ->
  countb f l <= k.
Proof.
  revert k. induction l as [|x t IH]; intros k H; cbn [countb]; [lia|].
  destruct k as [|k].
  - pose proof (H 0 ltac:(lia) ltac:(cbn [List.length]; lia)) as H0. cbn [nth] in H0. rewrite H0.
    assert (countb f t <= 0); [|lia].
    apply IH. intros p Hp Hl. apply (H (S p)); cbn [List.length]; lia.
  - assert (countb f t <= k); [|destruct (f x); lia].
    apply IH. intros p Hp Hl. apply (H (S p)); cbn [List.length]; lia.
Qed.

Lemma countb_cover (f g : float -> bool) (l : list float) :
  (forall x, In x l -> f x = true \/ g x = true) ->
  List.length l <= countb f l + countb g l.
Proof.
  induction l as [|x t IH]; intros H; cbn [countb List.length]; [lia|].
  assert (List.length t <= countb f t + countb g t) by (apply IH; intros y Hy; apply H; right; exact Hy).
  destruct (H x (or_introl eq_refl)) as [E|E]; rewrite E; destruct (f x), (g x); lia.
Qed.

(** [m] is a median of [l]: it occurs in [l], fewer than half of the
    readings are smaller and fewer than half are larger. *)
Definition is_median (m : float) (l : list float) : Prop :=
  In m l
  /\ 2 * countb (fun x => flt x m) l < List.length l
  /\ 2 * countb (fun x => fgt x m) l < List.length l.

Lemma fle_not_fgt (x y : float) : fle x y = true -> fgt x y = false.
Proof.
  unfold fle, fgt, SFleb. destruct (SFcompare x y) as [[ | | ]|]; congruence.
Qed.

Lemma fle_not_flt (x y : float) : fle x y = true -> flt y x = false.
Proof.
  intros H. destruct (SFleb_not_nan x y H) as [Nx Ny].
  unfold fle, flt, SFleb, SFltb in *. rewrite (SFcompare_antisym x y Nx Ny).
  destruct (SFcompare x y) as [[ | | ]|]; cbn; congruence.
Qed.

Lemma median_of_is_median (a : list float) :
  Forall not_nan a -> Nat.odd (List.length a) = true ->
  is_median (median_of (List.length a) a) a.
Proof.
  intros Hn Hodd. unfold median_of.
  set (n := List.length a). set (s := sort_readings n a). set (k := Nat.div n 2).
  pose proof (sort_readings_perm a) as P. fold n s in P.
  pose proof (Permutation_length P) as L. fold n in L.
  assert (Hk : 2 * k + 1 = n).
  { pose proof (Nat.div_mod_eq n 2) as E. fold k in E.
    rewrite <- Nat.bit0_mod in E. rewrite Nat.bit0_odd in E. fold n in Hodd.
    rewrite Hodd in E. cbn [Nat.b2n] in E. lia. }
  assert (Ns : Forall not_nan s) by (eapply not_nan_perm; [exact P|exact Hn]).
  assert (Nm : not_nan (nth k s fnan)) by (apply nth_not_nan; [assumption|lia]).
  assert (Hle : forall p q, p <= q -> q < n -> le_at s p q).
  { intros p q Hpq Hq. destruct (Nat.eq_dec p q) as [->|Hne].
    - apply SFleb_refl. apply nth_not_nan; [assumption|lia].
    - apply (sort_readings_sorted a p q Hn); fold n; lia. }
  split; [|split].
  - apply (Permutation_in _ P). apply nth_In. lia.
  - rewrite <- (countb_perm _ _ _ P).
    assert (countb (fun x => flt x (nth k s fnan)) s <= k); [|lia].
    apply countb_lower_part. intros p Hp Hl. apply fle_not_flt. apply Hle; lia.
  - rewrite <- (countb_perm _ _ _ P).
    assert (countb (fun x => fgt x (nth k s fnan)) s + S k <= List.length s); [|lia].
    apply countb_upper_part; [|lia]. intros p Hp Hl. apply fle_not_fgt. apply Hle; lia.
Qed.

Lemma lex_compare_le_lt_trans (a b c : Z * Z * Z) :
  lex_compare a b <> Gt -> lex_compare b c = Lt -> lex_compare a c = Lt.
Proof.
  destruct a as [[a1 a2] a3], b as [[b1 b2] b3], c as [[c1 c2] c3].
  unfold lex_compare. clear.
  destruct (Z.compare_spec a1 b1), (Z.compare_spec b1 c1), (Z.compare_spec a1 c1);
    try lia; try congruence;
    destruct (Z.compare_spec a2 b2), (Z.compare_spec b2 c2), (Z.compare_spec a2 c2);
    try lia; try congruence;
    destruct (Z.compare_spec a3 b3), (Z.compare_spec b3 c3), (Z.compare_spec a3 c3);
    try lia; congruence.
Qed.

Lemma fle_flt_trans (x y z : float) :
  fle x y = true -> flt y z = true -> flt x z = true.
Proof.
  intros H1 H2. destruct (SFleb_not_nan x y H1) as [Nx Ny].
  assert (Nz : is_nan z = false)
    by (destruct z; try reflexivity; destruct y as [?|[|]| |[|] ? ?]; discriminate).
  apply SFleb_key in H1; try assumption.
  unfold flt, SFltb in *. rewrite SFcompare_key in * by assumption.
  rewrite (lex_compare_le_lt_trans (key x) (key y) (key z)); try assumption; try reflexivity.
  destruct (lex_compare (key y) (key z)); congruence.
Qed.

Lemma flt_fgt (x y : float) : flt x y = true -> fgt y x = true.
Proof.
  intros H.
  assert (Nx : is_nan x = false) by (destruct x; try reflexivity; discriminate).
  assert (Ny : is_nan y = false)
    by (destruct y; try reflexivity; destruct x as [?|[|]| |[|] ? ?]; discriminate).
  unfold flt, fgt, SFltb in *. rewrite (SFcompare_antisym x y Nx Ny).
  destruct (SFcompare x y) as [[ | | ]|]; cbn; congruence.
Qed.

(** Two medians of the same readings are equal. *)
Lemma median_unique (m m' : float) (l l' : list float) :
  Forall not_nan l -> Permutation l l' ->
  is_median m l -> is_median m' l' -> feq m m' = true.
Proof.
  intros Hn P (Im & Lm & Gm) (Im' & Lm' & Gm').
  pose proof (Permutation_length P) as L.
  rewrite <- (countb_perm (fun x => flt x m') _ _ P) in Lm'.
  rewrite <- (countb_perm (fun x => fgt x m') _ _ P) in Gm'.
  rewrite <- L in Lm', Gm'.
  apply (Permutation_in _ (Permutation_sym P)) in Im'.
  rewrite Forall_forall in Hn.
  pose proof (Hn m Im) as Nm. pose proof (Hn m' Im') as Nm'.
  unfold feq, SFeqb. rewrite (SFcompare_key m m' Nm Nm').
  destruct (lex_compare (key m) (key m')) eqn:E; [reflexivity| |]; exfalso.
  - assert (Hlt : flt m m' = true)
      by (unfold flt, SFltb; rewrite (SFcompare_key m m' Nm Nm'), E; reflexivity).
    pose proof (countb_cover (fun x => fgt x m) (fun x => flt x m') l) as C.
    assert (List.length l <= countb (fun x => fgt x m) l + countb (fun x => flt x m') l); [|lia].
    apply C. intros x Hx. destruct (fgt x m) eqn:G; [left; reflexivity|right].
    apply (fle_flt_trans x m m'); [|assumption].
    apply fgt_false_fle; [apply Hn; assumption|assumption|assumption].
  - assert (Hlt : flt m' m = true).
    { unfold flt, SFltb. rewrite (SFcompare_antisym m m' Nm Nm'), (SFcompare_key m m' Nm Nm'), E.
      reflexivity. }
    pose proof (countb_cover (fun x => fgt x m') (fun x => flt x m) l) as C.
    assert (List.length l <= countb (fun x => fgt x m') l + countb (fun x => flt x m) l); [|lia].
    apply C. intros x Hx. destruct (fgt x m') eqn:G; [left; reflexivity|right].
    apply (fle_flt_trans x m' m); [|assumption].
    apply fgt_false_fle; [apply Hn; assumption|assumption|assumption].
Qed.

Lemma take_readings_map (count i : nat) (pulse : nat -> Z) (acc : list float) :
  take_readings count i pulse acc
  = acc ++ map (fun k => reading_of_duration (pulse k)) (seq i count).
Proof.
  revert i acc. induction count as [|count IH]; intros i acc; cbn [take_readings seq map].
  - rewrite app_nil_r. reflexivity.
  - rewrite IH, <- app_assoc. reflexivity.
Qed.

Lemma collected_map (pulse : nat -> Z) :
  collected pulse = map (fun k => reading_of_duration (pulse k)) (seq 0 NUM_SAMPLES).
Proof. unfold collected. rewrite take_readings_map. reflexivity. Qed.

Lemma collected_length (pulse : nat -> Z) : List.length (collected pulse) = NUM_SAMPLES.
Proof. rewrite collected_map, length_map, length_seq. reflexivity. Qed.

Lemma collected_nth (pulse : nat -> Z) (i : nat) :
  i < NUM_SAMPLES -> nth i (collected pulse) fnan = reading_of_duration (pulse i).
Proof.
  intros Hi. rewrite collected_map.
  rewrite (nth_indep _ fnan (reading_of_duration (pulse 0)))
    by (rewrite length_map, length_seq; assumption).
  rewrite (map_nth (fun k => reading_of_duration (pulse k)) (seq 0 NUM_SAMPLES) 0 i).
  rewrite seq_nth by assumption. reflexivity.
Qed.

Lemma collected_In (pulse : nat -> Z) (x : float) :
  In x (collected pulse) -> exists i, i < NUM_SAMPLES /\ x = reading_of_duration (pulse i).
Proof.
  rewrite collected_map, in_map_iff. intros (k & <- & Hk).
  apply in_seq in Hk. exists k. split; [lia|reflexivity].
Qed.

End MedianFilter.

(** * measureDistance *)

Lemma speed_literal : F64.literal 34 1000 = S754_finite false 4899916394579100 (-57).
Proof. reflexivity. Qed.

Lemma two_double : F64.of_Z 2 = S754_finite false 4503599627370496 (-51).
Proof. reflexivity. Qed.

(** Readings of echoes: non-negative floats, ordered as the pulse widths. *)
Lemma reading_chain (d1 d2 : Z) :
  0 < d1 <= d2 ->
  fle (reading_of_duration d1) (reading_of_duration d2) = true
  /\ nn (reading_of_duration d2) /\ F32.valid (reading_of_duration d2) = true.
Proof.
  intros Hd. unfold reading_of_duration.
  destruct (Z.eqb_spec d1 0) as [|_]; [lia|]. destruct (Z.eqb_spec d2 0) as [|_]; [lia|].
  rewrite speed_literal, two_double.
  assert (Bs : bounded F64.prec F64.emax 4899916394579100 (-57) = true) by reflexivity.
  unfold F64.of_Z, F64.mul, F64.div.
  pose proof (bn_nn F64.prec F64.emax f64_prec d1 0 false ltac:(lia)) as N1.
  pose proof (bn_nn F64.prec F64.emax f64_prec d2 0 false ltac:(lia)) as N2.
  pose proof (bn_valid F64.prec F64.emax f64_prec d1 0 false) as V1.
  pose proof (bn_valid F64.prec F64.emax f64_prec d2 0 false) as V2.
  assert (H0 : SFleb (binary_normalize F64.prec F64.emax d1 0 false)
                     (binary_normalize F64.prec F64.emax d2 0 false) = true).
  { apply (bn_mono F64.prec F64.emax f64_prec d1 d2 0 0 (emin F64.prec F64.emax));
      try (cbv; discriminate); try lia.
    assert (0 < 2 ^ (0 - emin F64.prec F64.emax)) by reflexivity. nia. }
  pose proof (SFmul_pos_mono F64.prec F64.emax f64_prec f64_emin _ _ _ _
                N1 N2 V1 V2 Bs H0) as Hm.
  destruct (SFmul_pos_nn F64.prec F64.emax f64_prec f64_emin _ _ _ N1 V1 Bs) as [Nm1 Vm1].
  destruct (SFmul_pos_nn F64.prec F64.emax f64_prec f64_emin _ _ _ N2 V2 Bs) as [Nm2 Vm2].
  pose proof (SFdiv_pos_mono F64.prec F64.emax f64_prec _ _ 4503599627370496 (-51)
                Nm1 Nm2 Vm1 Vm2 Hm) as Hq.
  destruct (SFdiv_pos_nn F64.prec F64.emax f64_prec _ 4503599627370496 (-51) Nm1) as [Nq1 Vq1].
  destruct (SFdiv_pos_nn F64.prec F64.emax f64_prec _ 4503599627370496 (-51) Nm2) as [Nq2 Vq2].
  pose proof (conv_mono F64.prec F64.emax F32.prec F32.emax _ _
                f64_prec f32_prec Nq1 Nq2 Vq1 Vq2 Hq) as Hc.
  destruct (conv_nn F32.prec F32.emax _ f32_prec Nq2) as [Nc2 Vc2].
  split; [exact Hc|]. split; [exact Nc2|exact Vc2].
Qed.

Lemma reading_nn (d : Z) :
  0 <= d -> nn (reading_of_duration d) /\ F32.valid (reading_of_duration d) = true.
Proof.
  intros Hd. destruct (Z.eq_dec d 0) as [->|Hne]; [split; [exact I|reflexivity]|].
  destruct (reading_chain d d ltac:(lia)) as (_ & N & V). split; assumption.
Qed.

(** Floats whose sign bit is clear; on them [==] is equality. *)
Definition plus (x : spec_float) : Prop :=
  match x with
  | S754_zero false | S754_finite false _ _ | S754_infinity false => True
  | _ => False
  end.

Lemma round_code_plus (p x c E : Z) : plus (round_code p x false c E).
Proof.
  unfold round_code, finish.
  repeat match goal with |- context [if ?b then _ else _] => destruct b end; exact I.
Qed.

Lemma bn_plus (p x z e : Z) :
  0 < p -> 0 <= z -> plus (binary_normalize p x z e false).
Proof.
  intros Hp Hz. destruct z as [|q|q]; cbn [binary_normalize]; [exact I| |lia].
  rewrite (binary_round_code p x Hp false q e (Z.min e (emin p x))) by lia.
  apply round_code_plus.
Qed.

Lemma conv_plus (p x : Z) (y : spec_float) : 0 < p -> plus y -> plus (conv p x y).
Proof.
  intros Hp Hy. destruct y as [[|]|[|]| |[|] m e]; cbn [plus] in Hy; try contradiction;
    cbn [conv]; try exact I.
  rewrite (binary_round_code p x Hp false m e (Z.min e (emin p x))) by lia.
  apply round_code_plus.
Qed.

Lemma SFdiv_pos_plus (p x : Z) (y : spec_float) (mc : positive) (ec : Z) :
  0 < p -> plus y -> plus (SFdiv p x y (S754_finite false mc ec)).
Proof.
  intros Hp Hy. destruct y as [[|]|[|]| |[|] m e]; cbn [plus] in Hy; try contradiction;
    try exact I.
  rewrite (SFdiv_code p x Hp false false m mc e ec (Z.min (e - ec) (emin p x))) by lia.
  apply round_code_plus.
Qed.

Lemma SFmul_pos_plus (p x : Z) (y : spec_float) (mc : positive) (ec : Z) :
  0 < p -> emin p x <= 0 -> plus y ->
  valid_binary p x y = true -> bounded p x mc ec = true ->
  plus (SFmul p x y (S754_finite false mc ec)).
Proof.
  intros Hp He Hy Vy Bc.
  destruct y as [[|]|[|]| |[|] m e]; cbn [plus] in Hy; try contradiction; try exact I.
  cbn [valid_binary] in Vy.
  rewrite (SFmul_code p x Hp He false false m mc e ec (Z.min (e + ec) (emin p x)))
    by (assumption || lia).
  apply round_code_plus.
Qed.

Lemma plus_feq_eq (x y : spec_float) : plus x -> plus y -> feq x y = true -> x = y.
Proof.
  destruct x as [[|]|[|]| |[|] mx ex], y as [[|]|[|]| |[|] my ey];
    cbn [plus]; try contradiction; intros _ _; try discriminate; try reflexivity.
  unfold feq, SFeqb, SFcompare.
  destruct (Z.compare_spec ex ey) as [->| |]; try discriminate.
  fold (Pos.compare mx my).
  destruct (Pos.compare_spec mx my) as [->| |]; try discriminate. reflexivity.
Qed.

Lemma reading_plus (d : Z) : 0 <= d -> plus (reading_of_duration d).
Proof.
  intros Hd. unfold reading_of_duration.
  destruct (Z.eqb_spec d 0) as [|Hne]; [exact I|].
  rewrite speed_literal, two_double.
  apply (conv_plus F32.prec F32.emax _ f32_prec).
  apply (SFdiv_pos_plus F64.prec F64.emax _ _ _ f64_prec).
  apply (SFmul_pos_plus F64.prec F64.emax _ _ _ f64_prec f64_emin);
    [apply bn_plus; [exact f64_prec|lia]|apply bn_valid; exact f64_prec|reflexivity].
Qed.

Lemma nn_not_nan (x : float) : nn x -> not_nan x.
Proof. destruct x as [sx|[|]| |[|] mx ex]; cbn [nn]; try contradiction; reflexivity. Qed.

Lemma collected_not_nan (pulse : nat -> Z) :
  (forall i, (i < NUM_SAMPLES)%nat -> 0 <= pulse i) -> Forall not_nan (collected pulse).
Proof.
  intros Hp. apply Forall_forall. intros x Hx.
  destruct (collected_In pulse x Hx) as (i & Hi & ->).
  apply nn_not_nan. apply reading_nn. apply Hp. assumption.
Qed.

(** The estimate is one of the readings. *)
Lemma measureDistance_In (pulse : nat -> Z) :
  exists i, (i < NUM_SAMPLES)%nat /\ measureDistance pulse = reading_of_duration (pulse i).
Proof.
  apply collected_In. unfold measureDistance, median_of.
  pose proof (sort_readings_perm (collected pulse)) as P.
  rewrite collected_length in P. apply (Permutation_in _ P).
  apply nth_In. rewrite (Permutation_length P), collected_length.
  apply Nat.ltb_lt. reflexivity.
Qed.

(** C2: measureDistance returns a median of the collected readings (fewer
    than half of them are smaller, fewer than half are larger), whichever
    order they arrived in: every array holding the same readings gives the
    same estimate; if every reading is the sentinel MAX_DISTANCE_CM, the
    estimate is the sentinel. *)
Theorem measureDistance_median (pulse : nat -> Z) :
  (forall i, (i < NUM_SAMPLES)%nat -> 0 <= pulse i) ->
  is_median (measureDistance pulse) (collected pulse)
  /\ (forall readings',
        Permutation (collected pulse) readings' ->
        measureDistance pulse = median_of NUM_SAMPLES readings')
  /\ ((forall i, (i < NUM_SAMPLES)%nat -> pulse i = 0) ->
      measureDistance pulse = F32.of_Z MAX_DISTANCE_CM).
Proof.
  intros Hp. pose proof (collected_not_nan pulse Hp) as Hn.
  assert (Hplus : forall x, In x (collected pulse) -> plus x).
  { intros x Hx. destruct (collected_In pulse x Hx) as (i & Hi & ->).
    apply reading_plus, Hp, Hi. }
  assert (Hm : is_median (measureDistance pulse) (collected pulse)).
  { unfold measureDistance. rewrite <- (collected_length pulse) at 1.
    apply median_of_is_median; [assumption|]. rewrite collected_length. reflexivity. }
  split; [exact Hm|]. split.
  - intros readings' P.
    pose proof (Permutation_length P) as L. rewrite collected_length in L.
    assert (Hm' : is_median (median_of NUM_SAMPLES readings') readings').
    { rewrite L. apply median_of_is_median.
      - eapply not_nan_perm; [apply Permutation_sym, P|exact Hn].
      - rewrite <- L. reflexivity. }
    apply plus_feq_eq.
    + apply Hplus. apply Hm.
    + apply Hplus. apply (Permutation_in _ (Permutation_sym P)). apply Hm'.
    + exact (median_unique _ _ (collected pulse) readings' Hn P Hm Hm').
  - intros Hz. destruct (measureDistance_In pulse) as (i & Hi & ->).
    rewrite (Hz i Hi). reflexivity.
Qed.

Lemma measureDistance_median_witness :
  is_median (measureDistance (fun i => nth i [2353; 2471; 2412; 0; 2412] 0))
            (collected (fun i => nth i [2353; 2471; 2412; 0; 2412] 0))
  /\ measureDistance (fun i => nth i [2353; 2471; 2412; 0; 2412] 0)
     = reading_of_duration 2412.
Proof.
  split; [|reflexivity].
  apply (measureDistance_median (fun i => nth i [2353; 2471; 2412; 0; 2412] 0)).
  intros [|[|[|[|[|i]]]]] Hi; unfold NUM_SAMPLES in Hi; cbn [nth]; lia.
Defined.

(** C7: when the echo measurement of a sample times out ([pulseIn] returns
    0), the reading recorded for that sample is MAX_DISTANCE_CM; the loop
    goes on and records all NUM_SAMPLES readings, each one the conversion of
    its own pulse width. *)
Theorem missing_echo_reads_sentinel (pulse : nat -> Z) (i : nat) :
  (i < NUM_SAMPLES)%nat -> pulse i = 0 ->
  nth i (collected pulse) fnan = F32.of_Z MAX_DISTANCE_CM
  /\ List.length (collected pulse) = NUM_SAMPLES
  /\ (forall j, (j < NUM_SAMPLES)%nat ->
        nth j (collected pulse) fnan = reading_of_duration (pulse j)).
Proof.
  intros Hi Hz. split; [|split; [apply collected_length|intros j Hj; apply collected_nth, Hj]].
  rewrite collected_nth by assumption. rewrite Hz. reflexivity.
Qed.

Lemma missing_echo_reads_sentinel_witness :
  nth 3 (collected (fun i => nth i [2353; 2471; 2412; 0; 2412] 0)) fnan
  = F32.of_Z MAX_DISTANCE_CM
  /\ List.length (collected (fun i => nth i [2353; 2471; 2412; 0; 2412] 0)) = NUM_SAMPLES.
Proof.
  destruct (missing_echo_reads_sentinel (fun i => nth i [2353; 2471; 2412; 0; 2412] 0) 3)
    as (H & L & _).
  - apply Nat.ltb_lt. reflexivity.
  - reflexivity.
  - split; assumption.
Defined.

Lemma reading_30000 : reading_of_duration 30000 = F32.of_Z 510.
Proof. reflexivity. Qed.

Lemma reading_11764 : fle (reading_of_duration 11764) (F32.of_Z MAX_DISTANCE_CM) = true.
Proof. reflexivity. Qed.

Lemma reading_range (d : Z) :
  0 <= d <= 30000 ->
  fle (F32.of_Z 0) (reading_of_duration d) = true
  /\ fle (reading_of_duration d) (F32.of_Z 510) = true
  /\ (d <= 11764 -> fle (reading_of_duration d) (F32.of_Z MAX_DISTANCE_CM) = true).
Proof.
  intros Hd. destruct (reading_nn d ltac:(lia)) as [N V].
  split; [apply SFleb_np_nn; [exact I|exact N]|].
  destruct (Z.eq_dec d 0) as [->|Hne]; [repeat split|].
  split.
  - rewrite <- reading_30000. apply reading_chain. lia.
  - intros H. eapply SFleb_trans; [|exact reading_11764].
    apply reading_chain. lia.
Qed.

(** C5, as the code has it: for echo pulse widths in [0, 30000] microseconds
    the estimate of measureDistance lies in [0, 510] cm (510 = 30000 * 0.034
    / 2); it lies in [0, MAX_DISTANCE_CM] when every pulse is at most 11764
    microseconds long. *)
Theorem measureDistance_range (pulse : nat -> Z) :
  (forall i, (i < NUM_SAMPLES)%nat -> 0 <= pulse i <= 30000) ->
  fle (F32.of_Z 0) (measureDistance pulse) = true
  /\ fle (measureDistance pulse) (F32.of_Z 510) = true
  /\ ((forall i, (i < NUM_SAMPLES)%nat -> pulse i <= 11764) ->
      fle (measureDistance pulse) (F32.of_Z MAX_DISTANCE_CM) = true).
Proof.
  intros Hp. destruct (measureDistance_In pulse) as (i & Hi & ->).
  destruct (reading_range (pulse i) (Hp i Hi)) as (H0 & H1 & H2).
  split; [exact H0|]. split; [exact H1|].
  intros Hs. apply H2. apply Hs. exact Hi.
Qed.

Lemma measureDistance_range_witness :
  fle (F32.of_Z 0) (measureDistance (fun _ => 20000)) = true
  /\ fle (measureDistance (fun _ => 20000)) (F32.of_Z 510) = true.
Proof.
  destruct (measureDistance_range (fun _ => 20000)) as (H0 & H1 & _).
  - intros i _. lia.
  - split; assumption.
Defined.

(** Five echoes of 20 ms, inside the timeout window, give 340 cm. *)
Lemma distance_exceeds_max :
  ~ (forall pulse : nat -> Z,
       (forall i, 0 <= pulse i <= 30000) ->
       fle (F32.of_Z 0) (measureDistance pulse) = true
       /\ fle (measureDistance pulse) (F32.of_Z MAX_DISTANCE_CM) = true).
Proof.
  intros H. destruct (H (fun _ => 20000)) as [_ H1]; [intros _; lia|].
  assert (E : measureDistance (fun _ => 20000) = F32.of_Z 340) by reflexivity.
  rewrite E in H1.
  assert (F : fle (F32.of_Z 340) (F32.of_Z MAX_DISTANCE_CM) = false) by (vm_compute; reflexivity).
  congruence.
Qed.

(** * The telemetry payload *)

Definition byte_at (binId : string) (k : nat) : Z :=
  to_char (char_code (char_at k binId)).

Lemma append_bin_id_map (count i : nat) (binId : string) (data : list Z) :
  append_bin_id count i binId data
  = data ++ map (byte_at binId)
              (seq i (Nat.min count (Nat.min 6 (String.length binId) - i))).
Proof.
  revert i data. induction count as [|count IH]; intros i data; cbn [append_bin_id].
  - cbn [Nat.min seq map]. rewrite app_nil_r. reflexivity.
  - destruct (Nat.ltb_spec i 6) as [H6|H6];
      destruct (Nat.ltb_spec i (String.length binId)) as [Hl|Hl]; cbn [andb].
    + rewrite IH, <- app_assoc.
      replace (Nat.min (S count) (Nat.min 6 (String.length binId) - i))
        with (S (Nat.min count (Nat.min 6 (String.length binId) - S i))) by lia.
      reflexivity.
    + replace (Nat.min (S count) (Nat.min 6 (String.length binId) - i)) with 0%nat by lia.
      cbn [seq map]. rewrite app_nil_r. reflexivity.
    + replace (Nat.min (S count) (Nat.min 6 (String.length binId) - i)) with 0%nat by lia.
      cbn [seq map]. rewrite app_nil_r. reflexivity.
    + replace (Nat.min (S count) (Nat.min 6 (String.length binId) - i)) with 0%nat by lia.
      cbn [seq map]. rewrite app_nil_r. reflexivity.
Qed.

Definition id_bytes (binId : string) : list Z :=
  map (byte_at binId) (seq 0 (Nat.min 6 (String.length binId))).

Definition timestamp_of (ms : Z) : Z := (ms mod 2 ^ 32) / 1000.

(** The bytes that follow the identifier. *)
Definition field_bytes (fillLevel mv ms : Z) : list Z :=
  [ to_char fillLevel;
    to_char (Z.land mv 255);
    to_char (Z.land (Z.shiftr mv 8) 255);
    to_char (Z.land (timestamp_of ms) 255);
    to_char (Z.land (Z.shiftr (timestamp_of ms) 8) 255);
    to_char (Z.land (Z.shiftr (timestamp_of ms) 16) 255);
    to_char (Z.land (Z.shiftr (timestamp_of ms) 24) 255) ].

Lemma manufacturerData_bytes (binId : string) (fillLevel : Z) (voltage : float)
    (ms mv : Z) :
  to_uint16 (F32.mul voltage (F32.of_Z 1000)) = Some mv ->
  manufacturerData binId fillLevel voltage ms
  = Some (id_bytes binId ++ field_bytes fillLevel mv ms).
Proof.
  intros Hmv. unfold manufacturerData. rewrite Hmv, append_bin_id_map.
  cbn [app]. rewrite Nat.sub_0_r.
  replace (Nat.min 6 (Nat.min 6 (String.length binId)))
    with (Nat.min 6 (String.length binId)) by lia.
  fold (id_bytes binId). fold (timestamp_of ms).
  rewrite <- !app_assoc. reflexivity.
Qed.

Lemma manufacturerData_undefined (binId : string) (fillLevel : Z) (voltage : float)
    (ms : Z) :
  to_uint16 (F32.mul voltage (F32.of_Z 1000)) = None ->
  manufacturerData binId fillLevel voltage ms = None.
Proof. intros Hmv. unfold manufacturerData. rewrite Hmv. reflexivity. Qed.

Lemma low_byte (z : Z) : to_char (Z.land z 255) = z mod 256.
Proof.
  unfold to_char. change 255 with (Z.ones 8). rewrite Z.land_ones by lia.
  change (2 ^ 8) with 256. apply Z.mod_mod. lia.
Qed.

Lemma to_uint16_range (x : float) (mv : Z) :
  to_uint16 x = Some mv -> ftrunc x = Some mv /\ 0 <= mv < 2 ^ 16.
Proof.
  unfold to_uint16, fcast. destruct (ftrunc x) as [z|]; [|discriminate].
  destruct (Z.leb_spec 0 z), (Z.leb_spec z (2 ^ 16 - 1)); cbn [andb]; try discriminate.
  intros [= ->]. split; [reflexivity|lia].
Qed.

Lemma id_bytes_length (binId : string) :
  List.length (id_bytes binId) = Nat.min 6 (String.length binId).
Proof. unfold id_bytes. rewrite length_map, length_seq. reflexivity. Qed.

Lemma id_bytes_6 (binId : string) :
  (6 <= String.length binId)%nat ->
  id_bytes binId
  = [byte_at binId 0; byte_at binId 1; byte_at binId 2;
     byte_at binId 3; byte_at binId 4; byte_at binId 5].
Proof.
  intros H. unfold id_bytes. replace (Nat.min 6 (String.length binId)) with 6%nat by lia.
  reflexivity.
Qed.

Lemma byte_at_code (binId : string) (k : nat) :
  byte_at binId k = char_code (char_at k binId).
Proof.
  unfold byte_at, to_char, char_code. apply Z.mod_small.
  pose proof (N_ascii_bounded (char_at k binId)) as H. lia.
Qed.

Lemma thousand_float : F32.of_Z 1000 = S754_finite false 16384000 (-14).
Proof. reflexivity. Qed.

(** Integers below [2 ^ 24] are binary32 values. *)
Lemma of_Z_trunc (n : Z) :
  0 <= n < 2 ^ 24 ->
  ftrunc (F32.of_Z n) = Some n /\ nn (F32.of_Z n) /\ F32.valid (F32.of_Z n) = true.
Proof.
  intros Hn. unfold F32.of_Z, F32.valid.
  split; [|split; [apply bn_nn; [exact f32_prec|lia]|apply bn_valid; exact f32_prec]].
  destruct n as [|p|p]; [reflexivity| |lia]. cbn [binary_normalize].
  assert (Hd : Zdigits2 (Z.pos p) <= 24) by (apply Zdigits2_le; lia).
  pose proof (Zdigits2_nonneg (Z.pos p)) as Hd0.
  set (t := fexp F32.prec F32.emax (Zdigits2 (Z.pos p) + 0)).
  assert (Ht : -149 <= t <= 0).
  { unfold t, fexp, emin, F32.prec, F32.emax. lia. }
  rewrite (binary_round_exact F32.prec F32.emax f32_prec false p 0);
    fold t; [|lia|unfold F32.prec, F32.emax; lia].
  cbn [ftrunc cond_Zopp].
  assert (HP : 0 < 2 ^ (0 - t)) by (apply Z.pow_pos_nonneg; lia).
  rewrite Z2Pos.id by lia. rewrite Z.shiftl_div_pow2 by lia.
  replace (- t) with (0 - t) by lia. rewrite Z.div_mul by lia. reflexivity.
Qed.

(** The product [voltage * 1000] is the rounding of the exact product. *)
Lemma millivolt_product (m : positive) (e E1 : Z) :
  bounded F32.prec F32.emax m e = true ->
  E1 <= e - 14 -> E1 <= emin F32.prec F32.emax ->
  F32.mul (S754_finite false m e) (F32.of_Z 1000)
  = binary_normalize F32.prec F32.emax (Z.pos m * 1000 * 2 ^ (e - E1)) E1 false.
Proof.
  intros Hb H1 H2. rewrite thousand_float. unfold F32.mul.
  rewrite (SFmul_code F32.prec F32.emax f32_prec f32_emin false false m 16384000 e (-14) E1)
    by (assumption || reflexivity || lia).
  cbn [xorb].
  assert (HP : 0 < 2 ^ (e + -14 - E1)) by (apply Z.pow_pos_nonneg; lia).
  assert (Hx : Z.pos m * Z.pos 16384000 * 2 ^ (e + -14 - E1) = Z.pos m * 1000 * 2 ^ (e - E1)).
  { replace (e - E1) with (14 + (e + -14 - E1)) by lia. rewrite Z.pow_add_r by lia.
    change (2 ^ 14) with 16384. lia. }
  rewrite Hx.
  destruct (Z.pos m * 1000 * 2 ^ (e - E1)) as [|q|q] eqn:Eq; try lia.
  cbn [binary_normalize].
  rewrite (binary_round_code F32.prec F32.emax f32_prec false q E1 E1) by lia.
  rewrite Z.sub_diag. change (2 ^ 0) with 1. rewrite Z.mul_1_r. reflexivity.
Qed.

Lemma of_Z_scaled (n E1 : Z) :
  0 <= n -> E1 <= 0 -> E1 <= emin F32.prec F32.emax ->
  F32.of_Z n = binary_normalize F32.prec F32.emax (n * 2 ^ (0 - E1)) E1 false.
Proof.
  intros Hn H0 H1. unfold F32.of_Z.
  assert (HP : 0 < 2 ^ (0 - E1)) by (apply Z.pow_pos_nonneg; lia).
  destruct n as [|p|p]; [reflexivity| |lia].
  destruct (Z.pos p * 2 ^ (0 - E1)) as [|q|q] eqn:Eq; try lia.
  cbn [binary_normalize].
  rewrite (binary_round_code F32.prec F32.emax f32_prec false p 0 E1) by lia.
  rewrite (binary_round_code F32.prec F32.emax f32_prec false q E1 E1) by lia.
  rewrite Z.sub_diag. change (2 ^ 0) with 1. rewrite Z.mul_1_r, Eq. reflexivity.
Qed.

(** The stored millivolt value is within 1 mV of the exact product
    [voltage * 1000], here with both sides scaled by [2 ^ (- E1)]. *)
Lemma millivolt_accuracy_scaled (m : positive) (e mv E1 : Z) :
  bounded F32.prec F32.emax m e = true ->
  E1 <= e - 14 -> E1 <= emin F32.prec F32.emax ->
  to_uint16 (F32.mul (S754_finite false m e) (F32.of_Z 1000)) = Some mv ->
  (mv - 1) * 2 ^ (- E1) < Z.pos m * 1000 * 2 ^ (e - E1) < (mv + 1) * 2 ^ (- E1).
Proof.
  intros Hb H1 H2 Hmv.
  assert (Hmin : emin F32.prec F32.emax = -149) by reflexivity.
  destruct (to_uint16_range _ _ Hmv) as [Ht Hr].
  set (p := F32.mul (S754_finite false m e) (F32.of_Z 1000)) in *.
  set (X := Z.pos m * 1000 * 2 ^ (e - E1)).
  set (U := 2 ^ (- E1)).
  assert (HU : 0 < U) by (apply Z.pow_pos_nonneg; lia).
  assert (HX : 0 < X) by (unfold X; assert (0 < 2 ^ (e - E1)) by (apply Z.pow_pos_nonneg; lia); lia).
  assert (Hp : p = binary_normalize F32.prec F32.emax X E1 false)
    by (apply millivolt_product; assumption).
  assert (Np : nn p) by (rewrite Hp; apply bn_nn; [exact f32_prec|lia]).
  assert (Vp : F32.valid p = true) by (rewrite Hp; apply bn_valid; exact f32_prec).
  assert (Fp : is_finite p = true) by (destruct p; try discriminate; reflexivity).
  assert (Hcmp : forall n, 0 <= n < 2 ^ 24 ->
            (n * U <= X -> n <= mv) /\ (X <= n * U -> mv <= n)).
  { intros n Hn. destruct (of_Z_trunc n Hn) as (Tn & Nn & Vn).
    assert (Fn : is_finite (F32.of_Z n) = true)
      by (destruct (F32.of_Z n); try discriminate; reflexivity).
    assert (Hz : F32.of_Z n = binary_normalize F32.prec F32.emax (n * U) E1 false).
    { unfold U. replace (- E1) with (0 - E1) by lia. apply of_Z_scaled; lia. }
    split; intros Hle.
    - assert (L : SFleb (F32.of_Z n) p = true).
      { rewrite Hz, Hp. apply (bn_mono F32.prec F32.emax f32_prec _ _ E1 E1 E1);
          rewrite ?Z.sub_diag; lia. }
      destruct (ftrunc_mono F32.prec F32.emax _ _ f32_prec Nn Np Vn Vp Fp L)
        as (a & b & Ta & Tb & Hab).
      assert (a = n) by congruence. assert (b = mv) by congruence. lia.
    - assert (L : SFleb p (F32.of_Z n) = true).
      { rewrite Hz, Hp. apply (bn_mono F32.prec F32.emax f32_prec _ _ E1 E1 E1);
          rewrite ?Z.sub_diag; lia. }
      destruct (ftrunc_mono F32.prec F32.emax _ _ f32_prec Np Nn Vp Vn Fn L)
        as (a & b & Ta & Tb & Hab).
      assert (a = mv) by congruence. assert (b = n) by congruence. lia. }
  assert (Hexact : forall n, 0 <= n < 2 ^ 24 -> X = n * U -> mv = n).
  { intros n Hn HXn. destruct (Hcmp n Hn) as [A B]. lia. }
  set (n := Z.min (X / U) 65536).
  assert (Hq : 0 <= X / U) by (apply Z.div_pos; lia).
  pose proof (Z.mul_div_le X U HU) as Hfloor.
  pose proof (Z.mul_succ_div_gt X U HU) as Hceil.
  assert (Hn0 : 0 <= n < 2 ^ 24) by (unfold n; lia).
  assert (HnX : n * U <= X) by (unfold n; nia).
  destruct (Hcmp n Hn0) as [A _]. specialize (A HnX).
  assert (Hn : n = X / U) by (unfold n in *; lia).
  assert (Hup : X < (n + 1) * U) by (rewrite Hn; lia).
  destruct (Hcmp (n + 1) ltac:(lia)) as [_ B]. specialize (B ltac:(lia)).
  split; [|nia].
  destruct (Z.eq_dec mv (n + 1)) as [E|NE]; [|nia].
  destruct (Z.eq_dec X (n * U)) as [EX|NX]; [|nia].
  pose proof (Hexact n Hn0 EX). lia.
Qed.

Lemma ftrunc_opp (x : spec_float) : ftrunc (SFopp x) = option_map Z.opp (ftrunc x).
Proof.
  destruct x as [s|s| |s m e]; try reflexivity.
  cbn [SFopp ftrunc option_map]. destruct s; cbn [negb cond_Zopp]; f_equal; lia.
Qed.

Lemma ftrunc_nn (x : spec_float) (t : Z) : nn x -> ftrunc x = Some t -> 0 <= t.
Proof.
  destruct x as [s|[|]| |[|] m e]; cbn [nn]; try contradiction; intros _;
    cbn [ftrunc cond_Zopp]; intros [= <-]; [lia|].
  apply Z.shiftl_nonneg. lia.
Qed.

Lemma mul_thousand_opp (m : positive) (e : Z) :
  bounded F32.prec F32.emax m e = true ->
  F32.mul (S754_finite true m e) (F32.of_Z 1000)
  = SFopp (F32.mul (S754_finite false m e) (F32.of_Z 1000)).
Proof.
  intros Hb. rewrite thousand_float. unfold F32.mul.
  rewrite !(SFmul_code F32.prec F32.emax f32_prec f32_emin _ false m 16384000 e (-14)
              (Z.min (e + -14) (emin F32.prec F32.emax)))
    by (assumption || reflexivity || lia).
  cbn [xorb]. apply round_code_opp.
Qed.

(** The same for a voltage of either sign: a negative voltage is only
    encoded when its product is above -1, and is stored as 0. *)
Lemma millivolt_accuracy_signed (s : bool) (m : positive) (e mv E1 : Z) :
  bounded F32.prec F32.emax m e = true ->
  E1 <= e - 14 -> E1 <= emin F32.prec F32.emax ->
  to_uint16 (F32.mul (S754_finite s m e) (F32.of_Z 1000)) = Some mv ->
  (mv - 1) * 2 ^ (- E1) < cond_Zopp s (Z.pos m * 1000 * 2 ^ (e - E1))
  < (mv + 1) * 2 ^ (- E1).
Proof.
  intros Hb H1 H2 Hmv. destruct s; cbn [cond_Zopp];
    [|apply millivolt_accuracy_scaled; assumption].
  rewrite mul_thousand_opp in Hmv by assumption.
  destruct (to_uint16_range _ _ Hmv) as [Ht Hr].
  rewrite ftrunc_opp in Ht.
  set (p := F32.mul (S754_finite false m e) (F32.of_Z 1000)) in *.
  assert (Np : nn p).
  { unfold p. rewrite (millivolt_product m e E1) by assumption.
    apply bn_nn; [exact f32_prec|].
    assert (0 < 2 ^ (e - E1)) by (apply Z.pow_pos_nonneg; lia). lia. }
  destruct (ftrunc p) as [t|] eqn:Et; [|discriminate].
  pose proof (ftrunc_nn p t Np Et) as Ht0.
  cbn [option_map] in Ht. assert (t = 0) by (injection Ht; lia). subst t.
  assert (mv = 0) by (injection Ht; lia). subst mv.
  assert (H0 : to_uint16 p = Some 0) by (unfold to_uint16, fcast; rewrite Et; reflexivity).
  pose proof (millivolt_accuracy_scaled m e 0 E1 Hb H1 H2 H0) as H. lia.
Qed.

Lemma millivolt_zero (s : bool) (mv : Z) :
  to_uint16 (F32.mul (S754_zero s) (F32.of_Z 1000)) = Some mv -> mv = 0.
Proof. destruct s; intros H; vm_compute in H; congruence. Qed.

Lemma timestamp_range (ms : Z) : 0 <= timestamp_of ms < 2 ^ 32.
Proof.
  unfold timestamp_of.
  pose proof (Z.mod_pos_bound ms (2 ^ 32) ltac:(lia)) as H.
  split; [apply Z.div_pos; lia|].
  apply Z.div_lt_upper_bound; lia.
Qed.

Lemma field_bytes_values (fillLevel mv ms : Z) :
  0 <= mv < 2 ^ 16 ->
  field_bytes fillLevel mv ms
  = [ fillLevel mod 256; mv mod 256; mv / 256;
      timestamp_of ms mod 256; timestamp_of ms / 2 ^ 8 mod 256;
      timestamp_of ms / 2 ^ 16 mod 256; timestamp_of ms / 2 ^ 24 ].
Proof.
  intros Hmv. pose proof (timestamp_range ms) as Hts. unfold field_bytes.
  rewrite !low_byte, !Z.shiftr_div_pow2 by lia. unfold to_char.
  f_equal. f_equal. f_equal; [change (2 ^ 8) with 256; apply Z.mod_small;
    split; [apply Z.div_pos; lia|apply Z.div_lt_upper_bound; lia]|].
  do 3 f_equal. f_equal. apply Z.mod_small.
  split; [apply Z.div_pos; lia|apply Z.div_lt_upper_bound; lia].
Qed.

(** X16: when the voltage conversion is defined, the payload is the first
    [min 6 (length id)] characters of the identifier followed by seven
    bytes: fill level (its low 8 bits), millivolts (16-bit little-endian),
    uptime seconds (32-bit little-endian).  For an identifier of six or more
    characters, such as BIN_ID, that is exactly 13 bytes with the identifier
    in bytes 0-5, the fill level in byte 6, the voltage in bytes 7-8 and the
    uptime in bytes 9-12. *)
Theorem payload_layout (binId : string) (fillLevel : Z) (voltage : float)
    (ms mv : Z) :
  to_uint16 (F32.mul voltage (F32.of_Z 1000)) = Some mv ->
  exists payload,
    manufacturerData binId fillLevel voltage ms = Some payload
    /\ List.length payload = (Nat.min 6 (String.length binId) + 7)%nat
    /\ payload
       = map (fun i => char_code (char_at i binId))
             (seq 0 (Nat.min 6 (String.length binId)))
         ++ [ fillLevel mod 256;
              mv mod 256; mv / 256;
              timestamp_of ms mod 256; timestamp_of ms / 2 ^ 8 mod 256;
              timestamp_of ms / 2 ^ 16 mod 256; timestamp_of ms / 2 ^ 24 ]
    /\ ((6 <= String.length binId)%nat ->
        List.length payload = 13%nat
        /\ payload
           = [ char_code (char_at 0 binId); char_code (char_at 1 binId);
               char_code (char_at 2 binId); char_code (char_at 3 binId);
               char_code (char_at 4 binId); char_code (char_at 5 binId);
               fillLevel mod 256;
               mv mod 256; mv / 256;
               timestamp_of ms mod 256; timestamp_of ms / 2 ^ 8 mod 256;
               timestamp_of ms / 2 ^ 16 mod 256; timestamp_of ms / 2 ^ 24 ]).
Proof.
  intros Hmv. destruct (to_uint16_range _ _ Hmv) as [_ Hr].
  exists (id_bytes binId ++ field_bytes fillLevel mv ms).
  split; [apply manufacturerData_bytes; assumption|].
  split; [rewrite length_app, id_bytes_length; reflexivity|].
  split.
  { rewrite field_bytes_values by assumption. f_equal. unfold id_bytes.
    apply map_ext. intros i. apply byte_at_code. }
  intros H6. split; [rewrite length_app, id_bytes_length; cbn [field_bytes List.length]; lia|].
  rewrite id_bytes_6, field_bytes_values, !byte_at_code by assumption. reflexivity.
Qed.

Lemma payload_layout_witness :
  exists payload,
    manufacturerData BIN_ID 55 (readBatteryVoltage 2048) 123456789 = Some payload
    /\ List.length payload = 13%nat.
Proof.
  destruct (payload_layout BIN_ID 55 (readBatteryVoltage 2048) 123456789 3300 eq_refl)
    as (payload & H & _ & _ & H13).
  exists payload. split; [exact H|].
  apply H13. apply Nat.leb_le. reflexivity.
Defined.

(** The identifier "AB" gives a payload of 9 bytes, with the fill level in
    byte 2. *)
Lemma short_identifier_short_payload :
  ~ (forall (binId : string) (fillLevel : Z) (voltage : float) (ms : Z)
            (payload : list Z),
       manufacturerData binId fillLevel voltage ms = Some payload ->
       List.length payload = 13%nat).
Proof.
  intros H.
  assert (E : manufacturerData "AB" 55 (readBatteryVoltage 2048) 0
              = Some [65; 66; 55; 228; 12; 0; 0; 0; 0]) by (vm_compute; reflexivity).
  apply H in E. cbn [List.length] in E. lia.
Qed.

(** C3: the source documents the payload as
    [BIN_ID(6), FILL(1), VOLTAGE(2), TIMESTAMP(4)], 13 bytes, but the
    identifier loop stops at the end of the string and nothing pads it: for
    an identifier shorter than six characters the payload has
    [length + 7] bytes, never 13, and the fill level sits at byte [length]
    instead of byte 6. *)
Theorem short_identifier_breaks_layout (binId : string) (fillLevel : Z)
    (voltage : float) (ms : Z) (payload : list Z) :
  (String.length binId < 6)%nat ->
  manufacturerData binId fillLevel voltage ms = Some payload ->
  List.length payload = (String.length binId + 7)%nat
  /\ List.length payload <> 13%nat
  /\ nth (String.length binId) payload 0 = fillLevel mod 256.
Proof.
  intros Hlen H.
  destruct (to_uint16 (F32.mul voltage (F32.of_Z 1000))) as [mv|] eqn:E;
    [|rewrite (manufacturerData_undefined binId fillLevel voltage ms E) in H;
      discriminate H].
  rewrite (manufacturerData_bytes binId fillLevel voltage ms mv E) in H.
  injection H as <-.
  assert (L : List.length (id_bytes binId) = String.length binId)
    by (rewrite id_bytes_length; lia).
  rewrite length_app, L. cbn [field_bytes List.length].
  split; [reflexivity|]. split; [lia|].
  rewrite app_nth2 by lia. rewrite L, Nat.sub_diag. reflexivity.
Qed.

Lemma short_identifier_breaks_layout_witness :
  manufacturerData "AB" 55 (readBatteryVoltage 2048) 0
  = Some [65; 66; 55; 228; 12; 0; 0; 0; 0]
  /\ List.length [65; 66; 55; 228; 12; 0; 0; 0; 0] = 9%nat
  /\ nth 2 [65; 66; 55; 228; 12; 0; 0; 0; 0] 0 = 55.
Proof.
  assert (E : manufacturerData "AB" 55 (readBatteryVoltage 2048) 0
              = Some [65; 66; 55; 228; 12; 0; 0; 0; 0]) by (vm_compute; reflexivity).
  split; [exact E|].
  destruct (short_identifier_breaks_layout "AB" 55 (readBatteryVoltage 2048) 0
              [65; 66; 55; 228; 12; 0; 0; 0; 0]) as (H9 & _ & H2).
  - apply Nat.ltb_lt. reflexivity.
  - exact E.
  - split; [exact H9|exact H2].
Defined.

(** C4, as the code has it: for a fill level in [0, 100] and a voltage whose
    millivolt value fits 16 bits (the cast is defined), decoding the payload
    gives back the fill level, the truncated product [voltage * 1000], which
    is less than 1 mV away from the exact product [m * 2 ^ e * 1000] of a
    voltage [m * 2 ^ e] of either sign (and is 0 for a zero voltage), and
    the uptime seconds. *)
Theorem payload_round_trip (fillLevel : Z) (voltage : float) (ms mv : Z) :
  0 <= fillLevel <= 100 ->
  to_uint16 (F32.mul voltage (F32.of_Z 1000)) = Some mv ->
  exists payload,
    manufacturerData BIN_ID fillLevel voltage ms = Some payload
    /\ t_fill (decode payload) = fillLevel
    /\ t_millivolts (decode payload) = mv
    /\ ftrunc (F32.mul voltage (F32.of_Z 1000)) = Some mv
    /\ t_uptime (decode payload) = timestamp_of ms
    /\ (forall s m e k,
          voltage = S754_finite s m e -> F32.valid voltage = true ->
          14 - e <= k -> 149 <= k ->
          (mv - 1) * 2 ^ k < cond_Zopp s (Z.pos m * 1000 * 2 ^ (e + k))
          < (mv + 1) * 2 ^ k)
    /\ (forall s, voltage = S754_zero s -> mv = 0).
Proof.
  intros Hf Hmv. destruct (to_uint16_range _ _ Hmv) as [Ht Hr].
  pose proof (timestamp_range ms) as Hts.
  exists (id_bytes BIN_ID ++ field_bytes fillLevel mv ms).
  split; [apply manufacturerData_bytes; assumption|].
  rewrite field_bytes_values by assumption.
  change (id_bytes BIN_ID) with [86; 65; 82; 95; 48; 49].
  unfold decode. cbn [app nth t_fill t_millivolts t_uptime].
  split; [apply Z.mod_small; lia|].
  split; [Z.div_mod_to_equations; lia|].
  split; [exact Ht|].
  split.
  { set (ts := timestamp_of ms) in *.
    change (2 ^ 8) with 256. change (2 ^ 16) with 65536. change (2 ^ 24) with 16777216.
    change (2 ^ 32) with 4294967296 in Hts.
    Z.div_mod_to_equations. lia. }
  split; [|intros s ->; exact (millivolt_zero s mv Hmv)].
  intros s m e k -> V Hk1 Hk2.
  pose proof (millivolt_accuracy_signed s m e mv (- k) V ltac:(lia)
                ltac:(change (emin F32.prec F32.emax) with (-149); lia) Hmv) as H.
  rewrite Z.opp_involutive in H. replace (e - - k) with (e + k) in H by lia. exact H.
Qed.

Lemma payload_round_trip_witness :
  exists payload,
    manufacturerData BIN_ID 55 (readBatteryVoltage 2048) 123456789 = Some payload
    /\ t_fill (decode payload) = 55
    /\ t_millivolts (decode payload) = 3300
    /\ t_uptime (decode payload) = 123456.
Proof.
  destruct (payload_round_trip 55 (readBatteryVoltage 2048) 123456789 3300)
    as (payload & H & Hf & Hm & _ & Hu & _).
  - lia.
  - reflexivity.
  - exists payload. repeat split; assumption.
Defined.

(** At 70 V the product 70000 does not fit [uint16_t]. *)
Lemma voltage_out_of_range :
  ~ (forall (fillLevel : Z) (voltage : float) (ms : Z),
       0 <= fillLevel <= 100 -> F32.valid voltage = true -> is_finite voltage = true ->
       exists payload,
         manufacturerData BIN_ID fillLevel voltage ms = Some payload
         /\ t_fill (decode payload) = fillLevel
         /\ ftrunc (F32.mul voltage (F32.of_Z 1000)) = Some (t_millivolts (decode payload))
         /\ t_uptime (decode payload) = timestamp_of ms).
Proof.
  intros H.
  destruct (H 50 (F32.of_Z 70) 0 ltac:(lia) eq_refl eq_refl) as (payload & E & _).
  assert (N : manufacturerData BIN_ID 50 (F32.of_Z 70) 0 = None) by (vm_compute; reflexivity).
  congruence.
Qed.

(** C6, as the code has it: for a raw ADC reading of 2048,
    readBatteryVoltage returns 13844583 * 2 ^ -22 (about 3.3008 V, between
    3.300 and 3.301), the encoder stores 3300 in the millivolt field, and
    decoding the payload yields 3300 mV. *)
Theorem adc_2048_encodes_3300 :
  readBatteryVoltage 2048 = S754_finite false 13844583 (-22)
  /\ 3300 * 2 ^ 22 <= 13844583 * 1000 < 3301 * 2 ^ 22
  /\ to_uint16 (F32.mul (readBatteryVoltage 2048) (F32.of_Z 1000)) = Some 3300
  /\ forall fillLevel ms,
       exists payload,
         manufacturerData BIN_ID fillLevel (readBatteryVoltage 2048) ms = Some payload
         /\ nth 7 payload 0 = 228 /\ nth 8 payload 0 = 12
         /\ t_millivolts (decode payload) = 3300.
Proof.
  split; [vm_compute; reflexivity|]. split; [lia|].
  assert (Hmv : to_uint16 (F32.mul (readBatteryVoltage 2048) (F32.of_Z 1000)) = Some 3300)
    by (vm_compute; reflexivity).
  split; [exact Hmv|].
  intros fillLevel ms.
  exists (id_bytes BIN_ID ++ field_bytes fillLevel 3300 ms).
  split; [apply manufacturerData_bytes; exact Hmv|].
  rewrite field_bytes_values by lia.
  change (id_bytes BIN_ID) with [86; 65; 82; 95; 48; 49].
  unfold decode. cbn [app nth t_millivolts].
  repeat split; reflexivity.
Qed.

(** The millivolt field for ADC 2048 is 3300, not 3297. *)
Lemma adc_2048_not_3297 :
  ~ (exists payload,
       manufacturerData BIN_ID 50 (readBatteryVoltage 2048) 0 = Some payload
       /\ t_millivolts (decode payload) = 3297).
Proof.
  intros (payload & E & H).
  assert (P : manufacturerData BIN_ID 50 (readBatteryVoltage 2048) 0
              = Some [86; 65; 82; 95; 48; 49; 50; 228; 12; 0; 0; 0; 0])
    by (vm_compute; reflexivity).
  rewrite P in E. injection E as <-. vm_compute in H. discriminate H.
Qed.

(** * The duty cycle *)

Lemma adc_literal : F64.literal 4095 1 = S754_finite false 9005000231485440 (-41).
Proof. vm_compute. reflexivity. Qed.

Lemma reference_literal : F64.literal 33 10 = S754_finite false 7430939385161318 (-51).
Proof. vm_compute. reflexivity. Qed.

Lemma divider_literal : F64.literal 2 1 = S754_finite false 4503599627370496 (-51).
Proof. vm_compute. reflexivity. Qed.

(** Battery voltages: non-negative floats, ordered as the raw ADC values. *)
Lemma battery_chain (r1 r2 : Z) :
  0 <= r1 <= r2 ->
  fle (readBatteryVoltage r1) (readBatteryVoltage r2) = true
  /\ nn (readBatteryVoltage r1) /\ F32.valid (readBatteryVoltage r1) = true.
Proof.
  intros Hr. unfold readBatteryVoltage.
  rewrite adc_literal, reference_literal, divider_literal.
  assert (B33 : bounded F64.prec F64.emax 7430939385161318 (-51) = true) by reflexivity.
  assert (B2 : bounded F64.prec F64.emax 4503599627370496 (-51) = true) by reflexivity.
  unfold F64.of_Z, F64.mul, F64.div.
  pose proof (bn_nn F64.prec F64.emax f64_prec r1 0 false ltac:(lia)) as N1.
  pose proof (bn_nn F64.prec F64.emax f64_prec r2 0 false ltac:(lia)) as N2.
  pose proof (bn_valid F64.prec F64.emax f64_prec r1 0 false) as V1.
  pose proof (bn_valid F64.prec F64.emax f64_prec r2 0 false) as V2.
  assert (H0 : SFleb (binary_normalize F64.prec F64.emax r1 0 false)
                     (binary_normalize F64.prec F64.emax r2 0 false) = true).
  { apply (bn_mono F64.prec F64.emax f64_prec r1 r2 0 0 (emin F64.prec F64.emax));
      try (cbv; discriminate); try lia.
    assert (0 < 2 ^ (0 - emin F64.prec F64.emax)) by reflexivity. nia. }
  pose proof (SFdiv_pos_mono F64.prec F64.emax f64_prec _ _ 9005000231485440 (-41)
                N1 N2 V1 V2 H0) as Hq.
  destruct (SFdiv_pos_nn F64.prec F64.emax f64_prec _ 9005000231485440 (-41) N1) as [Nq1 Vq1].
  destruct (SFdiv_pos_nn F64.prec F64.emax f64_prec _ 9005000231485440 (-41) N2) as [Nq2 Vq2].
  pose proof (SFmul_pos_mono F64.prec F64.emax f64_prec f64_emin _ _ _ _
                Nq1 Nq2 Vq1 Vq2 B33 Hq) as Hm.
  destruct (SFmul_pos_nn F64.prec F64.emax f64_prec f64_emin _ _ _ Nq1 Vq1 B33) as [Nm1 Vm1].
  destruct (SFmul_pos_nn F64.prec F64.emax f64_prec f64_emin _ _ _ Nq2 Vq2 B33) as [Nm2 Vm2].
  pose proof (SFmul_pos_mono F64.prec F64.emax f64_prec f64_emin _ _ _ _
                Nm1 Nm2 Vm1 Vm2 B2 Hm) as Hd.
  destruct (SFmul_pos_nn F64.prec F64.emax f64_prec f64_emin _ _ _ Nm1 Vm1 B2) as [Nd1 Vd1].
  destruct (SFmul_pos_nn F64.prec F64.emax f64_prec f64_emin _ _ _ Nm2 Vm2 B2) as [Nd2 Vd2].
  pose proof (conv_mono F64.prec F64.emax F32.prec F32.emax _ _
                f64_prec f32_prec Nd1 Nd2 Vd1 Vd2 Hd) as Hc.
  destruct (conv_nn F32.prec F32.emax _ f32_prec Nd1) as [Nc1 Vc1].
  split; [exact Hc|]. split; [exact Nc1|exact Vc1].
Qed.

(** For every 12-bit ADC value the millivolt conversion is defined. *)
Lemma battery_millivolts (raw : Z) :
  0 <= raw <= 4095 ->
  exists mv,
    to_uint16 (F32.mul (readBatteryVoltage raw) (F32.of_Z 1000)) = Some mv
    /\ 0 <= mv <= 6600.
Proof.
  intros Hr.
  destruct (battery_chain raw 4095 ltac:(lia)) as (Hle & N & V).
  destruct (battery_chain 4095 4095 ltac:(lia)) as (_ & N' & V').
  assert (B : bounded F32.prec F32.emax 16384000 (-14) = true) by reflexivity.
  pose proof (SFmul_pos_mono F32.prec F32.emax f32_prec f32_emin _ _ _ _
                N N' V V' B Hle) as Hm.
  destruct (SFmul_pos_nn F32.prec F32.emax f32_prec f32_emin _ _ _ N V B) as [Nm Vm].
  destruct (SFmul_pos_nn F32.prec F32.emax f32_prec f32_emin _ _ _ N' V' B) as [Nm' Vm'].
  assert (T : ftrunc (SFmul F32.prec F32.emax (readBatteryVoltage 4095)
                        (S754_finite false 16384000 (-14))) = Some 6600)
    by (vm_compute; reflexivity).
  assert (F : is_finite (SFmul F32.prec F32.emax (readBatteryVoltage 4095)
                           (S754_finite false 16384000 (-14))) = true)
    by (vm_compute; reflexivity).
  destruct (ftrunc_mono F32.prec F32.emax _ _ f32_prec Nm Nm' Vm Vm' F Hm)
    as (a & b & Ta & Tb & Hab).
  assert (b = 6600) by congruence. subst b.
  exists a. split; [|lia].
  rewrite thousand_float. unfold F32.mul, to_uint16, fcast. rewrite Ta.
  assert (H1 : (0 <=? a) = true) by (apply Z.leb_le; lia).
  assert (H2 : (a <=? 2 ^ 16 - 1) = true) by (apply Z.leb_le; lia).
  rewrite H1, H2. reflexivity.
Qed.

Definition sampling_events (pulse : nat -> Z) (first count : nat) : list Event :=
  flat_map (fun k => [EvTrigger; EvPulseIn (pulse k); EvDelay 50]) (seq first count).

Lemma sample_run (count : nat) (readings : list float) (st : Node) :
  sample count readings st
  = Some (readings ++ map (fun k => reading_of_duration (echo st k))
                         (seq (echo_count st) count),
          mkNode (clock_ms st + 50 * Z.of_nat count) (advertising st) (asleep st)
                 (wake_after_us st) (echo st) (echo_count st + count)%nat (adc st)
                 (trace st ++ sampling_events (echo st) (echo_count st) count)).
Proof.
  revert readings st. induction count as [|count IH]; intros readings st.
  - cbn [sample ret seq map]. unfold sampling_events. cbn [seq flat_map].
    rewrite !app_nil_r, Z.mul_0_r, Z.add_0_r, Nat.add_0_r. destruct st; reflexivity.
  - cbn [sample]. unfold bind, trigger, pulseIn, delay, log.
    cbn [clock_ms advertising asleep wake_after_us echo echo_count adc trace].
    rewrite IH.
    cbn [clock_ms advertising asleep wake_after_us echo echo_count adc trace].
    unfold sampling_events. cbn [seq map flat_map].
    rewrite <- !app_assoc. cbn [app].
    replace (clock_ms st + 50 + 50 * Z.of_nat count)
      with (clock_ms st + 50 * Z.of_nat (S count)) by lia.
    replace (S (echo_count st) + count)%nat with (echo_count st + S count)%nat by lia.
    reflexivity.
Qed.

Lemma seq_offset (first count : nat) :
  seq first count = map (fun i => (first + i)%nat) (seq 0 count).
Proof.
  revert first. induction count as [|count IH]; intros first; cbn [seq map].
  - reflexivity.
  - rewrite Nat.add_0_r. f_equal. rewrite (IH (S first)), <- seq_shift, map_map.
    apply map_ext. intros i. lia.
Qed.

Definition pending_echoes (st : Node) : nat -> Z :=
  fun i => echo st (echo_count st + i)%nat.

Lemma measureDistance_io_run (st : Node) :
  measureDistance_io st
  = Some (measureDistance (pending_echoes st),
          mkNode (clock_ms st + 250) (advertising st) (asleep st)
                 (wake_after_us st) (echo st) (echo_count st + NUM_SAMPLES)%nat (adc st)
                 (trace st ++ sampling_events (echo st) (echo_count st) NUM_SAMPLES)).
Proof.
  unfold measureDistance_io, bind. rewrite sample_run. cbn [app ret].
  unfold measureDistance. rewrite collected_map.
  rewrite (seq_offset (echo_count st)), map_map. reflexivity.
Qed.

(** Events of the sampling phase: none of them touches the radio or the
    sleep timer. *)
Definition quiet (ev : Event) : Prop :=
  match ev with
  | EvTrigger | EvPulseIn _ | EvDelay _ | EvAnalogRead _ => True
  | _ => False
  end.

Lemma sampling_events_quiet (pulse : nat -> Z) (first count : nat) :
  Forall quiet (sampling_events pulse first count).
Proof.
  unfold sampling_events. revert first.
  induction count as [|count IH]; intros first; cbn [seq flat_map app].
  - constructor.
  - repeat constructor. apply IH.
Qed.

Lemma measureDistance_nn (pulse : nat -> Z) :
  (forall i, 0 <= pulse i) ->
  F32.valid (measureDistance pulse) = true /\ is_nan (measureDistance pulse) = false.
Proof.
  intros Hp. destruct (measureDistance_In pulse) as (i & _ & ->).
  destruct (reading_nn (pulse i) (Hp i)) as [N V].
  split; [exact V|apply nn_not_nan; exact N].
Qed.

Lemma delay_run (ms : Z) (st : Node) :
  delay ms st
  = Some (tt, mkNode (clock_ms st + ms) (advertising st) (asleep st) (wake_after_us st)
                     (echo st) (echo_count st) (adc st) (trace st ++ [EvDelay ms])).
Proof. reflexivity. Qed.

Lemma readBatteryVoltage_io_run (st : Node) :
  readBatteryVoltage_io st
  = Some (readBatteryVoltage (adc st),
          mkNode (clock_ms st) (advertising st) (asleep st) (wake_after_us st)
                 (echo st) (echo_count st) (adc st) (trace st ++ [EvAnalogRead (adc st)])).
Proof. reflexivity. Qed.

Lemma broadcastData_run (fillLevel : Z) (voltage : float) (data : list Z) (st : Node) :
  manufacturerData BIN_ID fillLevel voltage (clock_ms st mod 2 ^ 32) = Some data ->
  broadcastData fillLevel voltage st
  = Some (tt, mkNode (clock_ms st + 5000) false (asleep st) (wake_after_us st)
                     (echo st) (echo_count st) (adc st)
                     (trace st ++ [ EvSetAdvertisementData data BIN_ID;
                                    EvAdvertisingStart (clock_ms st);
                                    EvDelay 5000;
                                    EvAdvertisingStop (clock_ms st + 5000) ])).
Proof.
  intros Hdata. unfold broadcastData. unfold bind at 1. unfold millis.
  unfold bind at 1. unfold lift. rewrite Hdata.
  unfold bind, setAdvertisementData, advertising_start, delay, advertising_stop, log.
  cbn [clock_ms advertising asleep wake_after_us echo echo_count adc trace].
  rewrite <- !app_assoc. reflexivity.
Qed.

Lemma enterDeepSleep_run (st : Node) :
  enterDeepSleep st
  = Some (tt, mkNode (clock_ms st) (advertising st) true (Some (SLEEP_INTERVAL * 1000))
                     (echo st) (echo_count st) (adc st)
                     (trace st ++ [ EvTimerWakeup (SLEEP_INTERVAL * 1000);
                                    EvDeepSleep (clock_ms st) (advertising st) ])).
Proof.
  unfold enterDeepSleep, bind, esp_sleep_enable_timer_wakeup, esp_deep_sleep_start, log.
  cbn [clock_ms advertising asleep wake_after_us echo echo_count adc trace].
  rewrite <- !app_assoc. reflexivity.
Qed.

(** C8: in every pass of loop() the radio starts advertising, a delay of
    5000 ms follows, and advertising is stopped; only then, 100 ms later,
    the wake timer is armed and the node enters deep sleep, with the radio
    off.  Nothing before the advertising window touches the radio or the
    sleep timer. *)
Theorem advertising_stops_before_sleep (st : Node) :
  (forall i, 0 <= echo st i) -> 0 <= adc st <= 4095 ->
  exists st' payload sampling t,
    loop st = Some (tt, st')
    /\ trace st'
       = trace st ++ sampling ++
         [ EvSetAdvertisementData payload BIN_ID;
           EvAdvertisingStart t;
           EvDelay 5000;
           EvAdvertisingStop (t + 5000);
           EvDelay 100;
           EvTimerWakeup (SLEEP_INTERVAL * 1000);
           EvDeepSleep (t + 5100) false ]
    /\ Forall quiet sampling
    /\ advertising st' = false
    /\ asleep st' = true
    /\ wake_after_us st' = Some (SLEEP_INTERVAL * 1000).
Proof.
  intros Hecho Hadc.
  destruct (measureDistance_nn (pending_echoes st)) as [Vd Nd];
    [intros i; apply Hecho|].
  destruct (calculateFillLevel_total _ Vd Nd) as (fillLevel & Hfill & Hrange).
  destruct (battery_millivolts (adc st) Hadc) as (mv & Hmv & _).
  set (t := clock_ms st + 250).
  set (payload := id_bytes BIN_ID ++ field_bytes fillLevel mv (t mod 2 ^ 32)).
  set (sampling := sampling_events (echo st) (echo_count st) NUM_SAMPLES
                   ++ [EvAnalogRead (adc st)]).
  pose proof (manufacturerData_bytes BIN_ID fillLevel (readBatteryVoltage (adc st))
                (t mod 2 ^ 32) mv Hmv) as Hdata.
  fold payload in Hdata.
  exists (mkNode (t + 5100) false true (Some (SLEEP_INTERVAL * 1000))
                 (echo st) (echo_count st + NUM_SAMPLES)%nat (adc st)
                 (trace st ++ sampling ++
                  [ EvSetAdvertisementData payload BIN_ID;
                    EvAdvertisingStart t;
                    EvDelay 5000;
                    EvAdvertisingStop (t + 5000);
                    EvDelay 100;
                    EvTimerWakeup (SLEEP_INTERVAL * 1000);
                    EvDeepSleep (t + 5100) false ])).
  exists payload, sampling, t.
  split; [|split; [reflexivity|split; [|repeat split]]].
  - unfold loop. unfold bind at 1. rewrite measureDistance_io_run.
    unfold bind at 1. unfold lift at 1. rewrite Hfill.
    unfold bind at 1. rewrite readBatteryVoltage_io_run.
    cbn [adc]. unfold bind at 1.
    rewrite (broadcastData_run fillLevel (readBatteryVoltage (adc st)) payload)
      by exact Hdata.
    unfold bind at 1. rewrite delay_run. rewrite enterDeepSleep_run.
    cbn [clock_ms advertising asleep wake_after_us echo echo_count adc trace].
    fold t. unfold sampling. rewrite <- !app_assoc. cbn [app].
    replace (t + 5000 + 100) with (t + 5100) by lia. reflexivity.
  - unfold sampling. apply Forall_app.
    split; [apply sampling_events_quiet|repeat constructor].
Qed.

Lemma advertising_stops_before_sleep_witness :
  exists st' payload sampling t,
    loop (mkNode 0 false false None (fun i => nth i [2353; 2471; 2412; 0; 2412] 0)
                 0 2048 [])
    = Some (tt, st')
    /\ trace st'
       = sampling ++
         [ EvSetAdvertisementData payload BIN_ID;
           EvAdvertisingStart t;
           EvDelay 5000;
           EvAdvertisingStop (t + 5000);
           EvDelay 100;
           EvTimerWakeup (SLEEP_INTERVAL * 1000);
           EvDeepSleep (t + 5100) false ]
    /\ advertising st' = false
    /\ asleep st' = true.
Proof.
  destruct (advertising_stops_before_sleep
              (mkNode 0 false false None
                      (fun i => nth i [2353; 2471; 2412; 0; 2412] 0) 0 2048 []))
    as (st' & payload & sampling & t & H & Ht & _ & Ha & Hs & _).
  - intros [|[|[|[|[|i]]]]]; cbn [echo nth]; try lia. destruct i; lia.
  - cbn [adc]. lia.
  - exists st', payload, sampling, t. repeat split; assumption.
Defined.

(** * calculateFillLevel: order and exact arithmetic *)

Lemma of_Z_le (a b : Z) : a <= b -> fle (F32.of_Z a) (F32.of_Z b) = true.
Proof.
  intros H. unfold fle, F32.of_Z.
  apply (bn_mono F32.prec F32.emax f32_prec a b 0 0 (-149));
    [lia|lia|unfold emin, F32.prec, F32.emax; lia|].
  apply Z.mul_le_mono_nonneg_r; [|exact H]. apply Z.pow_nonneg. lia.
Qed.

Lemma of_Z_valid (n : Z) : F32.valid (F32.of_Z n) = true.
Proof. apply bn_valid. exact f32_prec. Qed.

Lemma of_Z_not_nan (n : Z) : is_nan (F32.of_Z n) = false.
Proof. exact (proj1 (SFleb_not_nan _ _ (of_Z_le n n (Z.le_refl n)))). Qed.

Lemma near_reads_full (distance : float) :
  F32.valid distance = true -> fle distance (F32.of_Z SENSOR_OFFSET_CM) = true ->
  calculateFillLevel distance = Some 100.
Proof.
  intros V H.
  pose proof (adjusted_mono distance (F32.of_Z SENSOR_OFFSET_CM) V eq_refl H) as Ha.
  unfold calculateFillLevel. fold (adjusted distance).
  change (adjusted (F32.of_Z SENSOR_OFFSET_CM)) with (F32.of_Z 0) in Ha.
  rewrite Ha. reflexivity.
Qed.

Lemma far_reads_empty (distance : float) :
  F32.valid distance = true ->
  fle (F32.of_Z (SENSOR_OFFSET_CM + BIN_DEPTH_CM)) distance = true ->
  calculateFillLevel distance = Some 0.
Proof.
  intros V H.
  pose proof (adjusted_mono (F32.of_Z (SENSOR_OFFSET_CM + BIN_DEPTH_CM)) distance eq_refl V H)
    as Ha.
  change (adjusted (F32.of_Z (SENSOR_OFFSET_CM + BIN_DEPTH_CM)))
    with (F32.of_Z BIN_DEPTH_CM) in Ha.
  unfold calculateFillLevel. fold (adjusted distance).
  destruct (fle (adjusted distance) (F32.of_Z 0)) eqn:E.
  - assert (C : fle (F32.of_Z BIN_DEPTH_CM) (F32.of_Z 0) = true)
      by (eapply SFleb_trans; eassumption).
    discriminate C.
  - rewrite (fle_fge _ _ Ha). reflexivity.
Qed.

(** The farther the surface, the lower the level. *)
Lemma farther_reads_emptier (d1 d2 : float) :
  F32.valid d1 = true -> F32.valid d2 = true -> fle d1 d2 = true ->
  exists r1 r2,
    calculateFillLevel d1 = Some r1 /\ calculateFillLevel d2 = Some r2 /\ r2 <= r1.
Proof.
  intros V1 V2 H.
  destruct (SFleb_not_nan d1 d2 H) as [N1 N2].
  pose proof (adjusted_mono d1 d2 V1 V2 H) as Ha.
  pose proof (adjusted_not_nan d1 N1) as Na1. pose proof (adjusted_not_nan d2 N2) as Na2.
  destruct (calculateFillLevel_total d1 V1 N1) as (t1 & T1 & B1).
  destruct (calculateFillLevel_total d2 V2 N2) as (t2 & T2 & B2).
  exists t1, t2. split; [exact T1|]. split; [exact T2|].
  destruct (fle (adjusted d1) (F32.of_Z 0)) eqn:H10.
  { unfold calculateFillLevel in T1. fold (adjusted d1) in T1. rewrite H10 in T1.
    injection T1 as <-. lia. }
  destruct (fle_false_gt (adjusted d1) (F32.of_Z 0) Na1 eq_refl H10) as [P1 _].
  assert (H20 : fle (adjusted d2) (F32.of_Z 0) = false).
  { destruct (fle (adjusted d2) (F32.of_Z 0)) eqn:E; [|reflexivity].
    assert (C : fle (adjusted d1) (F32.of_Z 0) = true) by (eapply SFleb_trans; eassumption).
    congruence. }
  destruct (fge (adjusted d2) (F32.of_Z BIN_DEPTH_CM)) eqn:H280.
  { unfold calculateFillLevel in T2. fold (adjusted d2) in T2. rewrite H20, H280 in T2.
    injection T2 as <-. lia. }
  assert (H180 : fge (adjusted d1) (F32.of_Z BIN_DEPTH_CM) = false).
  { destruct (fge (adjusted d1) (F32.of_Z BIN_DEPTH_CM)) eqn:E; [|reflexivity].
    apply fge_fle in E.
    assert (C : fle (F32.of_Z BIN_DEPTH_CM) (adjusted d2) = true)
      by (eapply SFleb_trans; eassumption).
    apply fle_fge in C. congruence. }
  destruct (interpolation_branch _ Na1 H10 H180) as (F1 & Z1 & L1).
  destruct (interpolation_branch _ Na2 H20 H280) as (F2 & Z2 & L2).
  destruct (interpolation_antitone _ _ (adjusted_valid _ V1) (adjusted_valid _ V2)
              F1 F2 Z1 Ha L2) as (r1 & r2 & R1 & R2 & Hr & Hr').
  destruct (interpolation_value d1 V1 N1 H10 H180) as (s1 & S1 & _ & C1).
  destruct (interpolation_value d2 V2 N2 H20 H280) as (s2 & S2 & _ & C2).
  assert (s1 = r1) by congruence. assert (s2 = r2) by congruence.
  assert (t1 = s1) by congruence. assert (t2 = s2) by congruence. lia.
Qed.

(** ** The level in exact arithmetic

    The level as the specification words it, in exact arithmetic.  A
    distance is the fraction [num / den] of centimetres, [den > 0]. *)

(** Following the specification: 100 when the distance minus the offset is
    <= 0, 0 when it is >= the depth, otherwise
    [(depth - (distance - offset)) / depth * 100] truncated to an integer. *)
Definition exact_level (num den : Z) : Z :=
  let adjusted := num - SENSOR_OFFSET_CM * den in
  if adjusted <=? 0 then 100
  else if BIN_DEPTH_CM * den <=? adjusted then 0
  else (BIN_DEPTH_CM * den - adjusted) * 100 / (BIN_DEPTH_CM * den).

(** The same for a float: a finite float [m * 2 ^ e] is the fraction with
    denominator [2 ^ max 0 (- e)]; an infinite distance is beyond every
    bound; a NaN has no level. *)
Definition spec_fill_level (distance : float) : option Z :=
  match distance with
  | S754_nan => None
  | S754_infinity true => Some 100
  | S754_infinity false => Some 0
  | S754_zero _ => Some (exact_level 0 1)
  | S754_finite s m e =>
      let k := Z.max 0 (- e) in
      Some (exact_level (cond_Zopp s (Z.pos m * 2 ^ (e + k))) (2 ^ k))
  end.

Lemma exact_level_range (num den : Z) : 0 < den -> 0 <= exact_level num den <= 100.
Proof.
  intros Hd. unfold exact_level, SENSOR_OFFSET_CM, BIN_DEPTH_CM.
  destruct (Z.leb_spec (num - 5 * den) 0); [lia|].
  destruct (Z.leb_spec (80 * den) (num - 5 * den)); [lia|].
  split; [apply Z.div_pos; nia|].
  apply Z.div_le_upper_bound; nia.
Qed.

(** The exact level reaches [L] exactly when the distance is at most
    [(425 - 4 * L) / 5] centimetres. *)
Lemma exact_level_ge (num den L : Z) :
  0 < den -> 1 <= L <= 100 ->
  (L <= exact_level num den <-> 5 * num <= (425 - 4 * L) * den).
Proof.
  intros Hd HL. unfold exact_level, SENSOR_OFFSET_CM, BIN_DEPTH_CM.
  destruct (Z.leb_spec (num - 5 * den) 0) as [H0|H0]; [split; intros _; nia|].
  destruct (Z.leb_spec (80 * den) (num - 5 * den)) as [H80|H80]; [split; intros ?; nia|].
  set (a := (80 * den - (num - 5 * den)) * 100). set (b := 80 * den).
  assert (Hb : 0 < b) by (unfold b; lia).
  split; intros H.
  - pose proof (Z.mul_div_le a b Hb) as Hq.
    assert (b * L <= a) by nia. unfold a, b in *. nia.
  - apply Z.div_le_lower_bound; [exact Hb|]. unfold a, b. nia.
Qed.

(** The binary32 neighbours of the distance [(425 - 4 * L) / 5] at which
    the exact level falls below [L]: the largest float not above it and the
    next float. *)
Definition crossing_exponent (L : Z) : Z := Z.log2 ((425 - 4 * L) / 5) - 23.

Definition crossing_mantissa (L : Z) : Z :=
  (425 - 4 * L) * 2 ^ (- crossing_exponent L) / 5.

Definition below_crossing (L : Z) : float :=
  S754_finite false (Z.to_pos (crossing_mantissa L)) (crossing_exponent L).

Definition above_crossing (L : Z) : float :=
  S754_finite false (Z.to_pos (crossing_mantissa L + 1)) (crossing_exponent L).

Definition level_at_least (x : float) (L : Z) : bool :=
  match calculateFillLevel x with Some level => L <=? level | None => false end.

Definition level_at_most (x : float) (L : Z) : bool :=
  match calculateFillLevel x with Some level => level <=? L | None => false end.

Definition crossing_ok (L : Z) : bool :=
  F32.valid (below_crossing L) && F32.valid (above_crossing L)
  && (0 <? crossing_mantissa L) && (crossing_exponent L <=? 0)
  && level_at_least (below_crossing L) (L - 1)
  && level_at_most (above_crossing L) L.

Lemma crossing_table : forallb crossing_ok (map Z.of_nat (seq 1 100)) = true.
Proof. vm_compute. reflexivity. Qed.

Lemma crossing_facts (L : Z) :
  1 <= L <= 100 ->
  F32.valid (below_crossing L) = true /\ F32.valid (above_crossing L) = true
  /\ 0 < crossing_mantissa L /\ crossing_exponent L <= 0
  /\ (exists level, calculateFillLevel (below_crossing L) = Some level /\ L - 1 <= level)
  /\ (exists level, calculateFillLevel (above_crossing L) = Some level /\ level <= L).
Proof.
  intros HL. pose proof crossing_table as T. rewrite forallb_forall in T.
  assert (Hin : In L (map Z.of_nat (seq 1 100))).
  { apply in_map_iff. exists (Z.to_nat L). split; [lia|]. apply in_seq. lia. }
  specialize (T L Hin). unfold crossing_ok in T.
  apply andb_prop in T. destruct T as [T Hmost].
  apply andb_prop in T. destruct T as [T Hleast].
  apply andb_prop in T. destruct T as [T He].
  apply andb_prop in T. destruct T as [T Hm].
  apply andb_prop in T. destruct T as [Vlo Vhi].
  split; [exact Vlo|]. split; [exact Vhi|].
  split; [apply Z.ltb_lt; exact Hm|]. split; [apply Z.leb_le; exact He|]. split.
  - unfold level_at_least in Hleast.
    destruct (calculateFillLevel (below_crossing L)) as [level|]; [|discriminate Hleast].
    exists level. split; [reflexivity|apply Z.leb_le; exact Hleast].
  - unfold level_at_most in Hmost.
    destruct (calculateFillLevel (above_crossing L)) as [level|]; [|discriminate Hmost].
    exists level. split; [reflexivity|apply Z.leb_le; exact Hmost].
Qed.

Lemma lex_compare_succ (e m e0 m0 : Z) :
  lex_compare (1, e, m) (1, e0, m0) = Gt -> lex_compare (1, e0, m0 + 1) (1, e, m) <> Gt.
Proof.
  unfold lex_compare. rewrite !Z.compare_refl.
  destruct (Z.compare_spec e e0), (Z.compare_spec e0 e); try lia; try discriminate.
  destruct (Z.compare_spec m m0), (Z.compare_spec (m0 + 1) m); try lia; discriminate.
Qed.

Lemma lex_compare_pred (e m e0 m0 : Z) :
  lex_compare (1, e0, m0 + 1) (1, e, m) = Gt -> lex_compare (1, e, m) (1, e0, m0) <> Gt.
Proof.
  unfold lex_compare. rewrite !Z.compare_refl.
  destruct (Z.compare_spec e e0), (Z.compare_spec e0 e); try lia; try discriminate.
  destruct (Z.compare_spec m m0), (Z.compare_spec (m0 + 1) m); try lia; discriminate.
Qed.

(** No float lies strictly between a float and the next one. *)
Lemma fle_neighbours (m p0 p1 : positive) (e e0 : Z) :
  Z.pos p1 = Z.pos p0 + 1 ->
  (fle (S754_finite false m e) (S754_finite false p0 e0) = false ->
   fle (S754_finite false p1 e0) (S754_finite false m e) = true)
  /\ (fle (S754_finite false p1 e0) (S754_finite false m e) = false ->
      fle (S754_finite false m e) (S754_finite false p0 e0) = true).
Proof.
  intros Hp. unfold fle.
  split; intros H.
  - apply (SFleb_key (S754_finite false p1 e0) (S754_finite false m e) eq_refl eq_refl).
    cbn [key]. rewrite Hp. apply lex_compare_succ.
    unfold SFleb in H.
    rewrite (SFcompare_key (S754_finite false m e) (S754_finite false p0 e0) eq_refl eq_refl)
      in H.
    cbn [key] in H.
    destruct (lex_compare (1, e, Z.pos m) (1, e0, Z.pos p0)); [discriminate H..|reflexivity].
  - apply (SFleb_key (S754_finite false m e) (S754_finite false p0 e0) eq_refl eq_refl).
    cbn [key]. apply lex_compare_pred.
    unfold SFleb in H.
    rewrite (SFcompare_key (S754_finite false p1 e0) (S754_finite false m e) eq_refl eq_refl)
      in H.
    cbn [key] in H. rewrite Hp in H.
    destruct (lex_compare (1, e0, Z.pos p0 + 1) (1, e, Z.pos m)); [discriminate H..|reflexivity].
Qed.

(** The order of a positive float and the two neighbours of a crossing,
    read off the exact fraction. *)
Lemma crossing_order (m : positive) (e L : Z) :
  bounded F32.prec F32.emax m e = true -> 1 <= L <= 100 ->
  (5 * (Z.pos m * 2 ^ (e + Z.max 0 (- e))) <= (425 - 4 * L) * 2 ^ Z.max 0 (- e) ->
   fle (S754_finite false m e) (below_crossing L) = true)
  /\ (~ 5 * (Z.pos m * 2 ^ (e + Z.max 0 (- e))) <= (425 - 4 * L) * 2 ^ Z.max 0 (- e) ->
      fle (above_crossing L) (S754_finite false m e) = true).
Proof.
  intros Bm HL.
  destruct (crossing_facts L HL) as (Vlo & Vhi & Hm & He & _).
  unfold below_crossing, above_crossing in *. cbn [F32.valid valid_binary] in Vlo, Vhi.
  set (eL := crossing_exponent L) in *. set (mL := crossing_mantissa L) in *.
  set (k := Z.max 0 (- e)). set (c := 425 - 4 * L).
  assert (Hdiv : 5 * mL <= c * 2 ^ (- eL) < 5 * (mL + 1)).
  { unfold mL, crossing_mantissa. fold eL. fold c.
    pose proof (Z.mul_div_le (c * 2 ^ (- eL)) 5 ltac:(lia)).
    pose proof (Z.mul_succ_div_gt (c * 2 ^ (- eL)) 5 ltac:(lia)). lia. }
  assert (Hnext : Z.pos (Z.to_pos (mL + 1)) = Z.pos (Z.to_pos mL) + 1)
    by (rewrite !Z2Pos.id by lia; reflexivity).
  destruct (fle_neighbours m (Z.to_pos mL) (Z.to_pos (mL + 1)) e eL Hnext) as [Habove Hbelow].
  set (E0 := Z.min eL (- k)).
  set (P := 2 ^ (e + k)). set (U := 2 ^ k). set (T := 2 ^ (- k - E0)).
  set (A := 2 ^ (eL - E0)). set (B := 2 ^ (- eL)) in *.
  assert (HT : 0 < T) by (apply Z.pow_pos_nonneg; unfold E0; lia).
  assert (HA : 0 < A) by (apply Z.pow_pos_nonneg; unfold E0; lia).
  assert (HPT : 2 ^ (e - E0) = P * T).
  { unfold P, T. rewrite <- Z.pow_add_r by (unfold E0, k; lia). f_equal. lia. }
  assert (HUT : U * T = B * A).
  { unfold U, T, B, A. rewrite <- !Z.pow_add_r by (unfold E0, k; lia). f_equal. lia. }
  split; intros H.
  - destruct (fle (S754_finite false m e) (S754_finite false (Z.to_pos mL) eL)) eqn:F;
      [reflexivity|exfalso].
    pose proof (SFleb_pos_scaled F32.prec F32.emax f32_prec _ _ _ _ E0 Vhi Bm
                  (Habove eq_refl) ltac:(unfold E0; lia) ltac:(unfold E0, k; lia)) as S.
    rewrite Z2Pos.id in S by lia. fold A in S. rewrite HPT in S.
    assert (S1 : 5 * (Z.pos m * P) * T <= c * U * T)
      by (apply Z.mul_le_mono_nonneg_r; [lia|exact H]).
    assert (S2 : c * B * A < 5 * (mL + 1) * A)
      by (apply Z.mul_lt_mono_pos_r; [exact HA|lia]).
    replace (c * U * T) with (c * (U * T)) in S1 by ring. rewrite HUT in S1.
    replace (c * B * A) with (c * (B * A)) in S2 by ring. nia.
  - destruct (fle (S754_finite false (Z.to_pos (mL + 1)) eL) (S754_finite false m e)) eqn:F;
      [reflexivity|exfalso]. apply H.
    pose proof (SFleb_pos_scaled F32.prec F32.emax f32_prec _ _ _ _ E0 Bm Vlo
                  (Hbelow eq_refl) ltac:(unfold E0, k; lia) ltac:(unfold E0; lia)) as S.
    rewrite Z2Pos.id in S by lia. fold A in S. rewrite HPT in S.
    assert (S2 : 5 * mL * A <= c * B * A)
      by (apply Z.mul_le_mono_nonneg_r; [lia|lia]).
    replace (c * B * A) with (c * (B * A)) in S2 by ring. rewrite <- HUT in S2.
    fold k. fold P. fold U. fold c.
    apply (Z.mul_le_mono_pos_r _ _ T HT). nia.
Qed.

(** Where the exact level stands against [L], the distance stands against
    the neighbours of the crossing. *)
Lemma spec_fill_level_order (distance : float) (L : Z) :
  F32.valid distance = true -> is_nan distance = false -> 1 <= L <= 100 ->
  exists exact,
    spec_fill_level distance = Some exact /\ 0 <= exact <= 100
    /\ (L <= exact -> fle distance (below_crossing L) = true)
    /\ (exact < L -> fle (above_crossing L) distance = true).
Proof.
  intros V N HL.
  destruct distance as [s|[|]| |[|] m e]; try discriminate N; cbn [spec_fill_level].
  - exists 100. change (exact_level 0 1) with 100.
    split; [reflexivity|]. split; [lia|]. split; [|lia].
    intros _. apply SFleb_np_nn; exact I.
  - exists 100. split; [reflexivity|]. split; [lia|]. split; [|lia].
    intros _. reflexivity.
  - exists 0. split; [reflexivity|]. split; [lia|]. split; [lia|].
    intros _. reflexivity.
  - assert (Hd : 0 < 2 ^ Z.max 0 (- e)) by (apply Z.pow_pos_nonneg; lia).
    assert (Hn : 0 < 2 ^ (e + Z.max 0 (- e))) by (apply Z.pow_pos_nonneg; lia).
    eexists. split; [reflexivity|]. split; [apply exact_level_range; exact Hd|].
    pose proof (exact_level_ge (cond_Zopp true (Z.pos m * 2 ^ (e + Z.max 0 (- e))))
                  (2 ^ Z.max 0 (- e)) L Hd HL) as G.
    cbn [cond_Zopp] in *.
    split; [intros _; apply SFleb_np_nn; exact I|].
    intros H. exfalso. assert (~ 5 * - (Z.pos m * 2 ^ (e + Z.max 0 (- e)))
                                 <= (425 - 4 * L) * 2 ^ Z.max 0 (- e)) by (rewrite <- G; lia).
    nia.
  - assert (Hd : 0 < 2 ^ Z.max 0 (- e)) by (apply Z.pow_pos_nonneg; lia).
    eexists. split; [reflexivity|]. split; [apply exact_level_range; exact Hd|].
    pose proof (exact_level_ge (cond_Zopp false (Z.pos m * 2 ^ (e + Z.max 0 (- e))))
                  (2 ^ Z.max 0 (- e)) L Hd HL) as G.
    cbn [cond_Zopp] in *. cbn [F32.valid valid_binary] in V.
    destruct (crossing_order m e L V HL) as [Hlo Hhi].
    split; intros H; [apply Hlo; apply G; exact H|apply Hhi; rewrite <- G; lia].
Qed.

(** The code is never more than one level away from the exact level. *)
Lemma level_near_exact (distance : float) :
  F32.valid distance = true -> is_nan distance = false ->
  exists level exact,
    calculateFillLevel distance = Some level
    /\ spec_fill_level distance = Some exact
    /\ 0 <= level <= 100
    /\ exact - 1 <= level <= exact + 1.
Proof.
  intros V N.
  destruct (calculateFillLevel_total distance V N) as (level & Hl & Hr).
  destruct (spec_fill_level_order distance 1 V N ltac:(lia)) as (exact & He & Hx & _).
  exists level, exact. split; [exact Hl|]. split; [exact He|]. split; [exact Hr|]. split.
  - destruct (Z.eq_dec exact 0) as [->|Hne]; [lia|].
    destruct (spec_fill_level_order distance exact V N ltac:(lia)) as (x & Hx' & _ & Hlo & _).
    assert (x = exact) by congruence. subst x.
    destruct (crossing_facts exact ltac:(lia)) as (Vlo & _ & _ & _ & (r & Hr1 & Hr2) & _).
    destruct (farther_reads_emptier distance (below_crossing exact) V Vlo (Hlo (Z.le_refl _)))
      as (a & b & Ha & Hb & Hab).
    assert (a = level) by congruence. assert (b = r) by congruence. lia.
  - destruct (Z.eq_dec exact 100) as [->|Hne]; [lia|].
    destruct (spec_fill_level_order distance (exact + 1) V N ltac:(lia))
      as (x & Hx' & _ & _ & Hhi).
    assert (x = exact) by congruence. subst x.
    destruct (crossing_facts (exact + 1) ltac:(lia)) as (_ & Vhi & _ & _ & _ & (r & Hr1 & Hr2)).
    destruct (farther_reads_emptier (above_crossing (exact + 1)) distance Vhi V
                (Hhi ltac:(lia))) as (a & b & Ha & Hb & Hab).
    assert (a = r) by congruence. assert (b = level) by congruence. lia.
Qed.

(** C1, as the code has it: calculateFillLevel returns 100 when the
    adjusted distance [distance - SENSOR_OFFSET_CM] is <= 0 (in particular
    for every distance up to the offset), 0 when it is >= BIN_DEPTH_CM (in
    particular for every distance from offset + depth on), and otherwise the
    truncation of [(BIN_DEPTH_CM - adjusted) / BIN_DEPTH_CM * 100] as
    evaluated in float arithmetic.  It returns for every distance that is
    not a NaN, negative or huge alike, with a result in [0, 100] that is at
    most one level away from the level of exact arithmetic; at
    [offset + depth / 2] the result is 50. *)
Theorem calculateFillLevel_cases (distance : float) :
  F32.valid distance = true -> is_nan distance = false ->
  (fle (adjusted distance) (F32.of_Z 0) = true ->
     calculateFillLevel distance = Some 100)
  /\ (fle (adjusted distance) (F32.of_Z 0) = false ->
      fge (adjusted distance) (F32.of_Z BIN_DEPTH_CM) = true ->
     calculateFillLevel distance = Some 0)
  /\ (fle (adjusted distance) (F32.of_Z 0) = false ->
      fge (adjusted distance) (F32.of_Z BIN_DEPTH_CM) = false ->
      exists r, ftrunc (fill_percentage (adjusted distance)) = Some r
                /\ calculateFillLevel distance = Some r)
  /\ (fle distance (F32.of_Z SENSOR_OFFSET_CM) = true ->
     calculateFillLevel distance = Some 100)
  /\ (fle (F32.of_Z (SENSOR_OFFSET_CM + BIN_DEPTH_CM)) distance = true ->
     calculateFillLevel distance = Some 0)
  /\ (exists level exact,
        calculateFillLevel distance = Some level
        /\ spec_fill_level distance = Some exact
        /\ 0 <= level <= 100
        /\ exact - 1 <= level <= exact + 1)
  /\ calculateFillLevel (F32.of_Z (SENSOR_OFFSET_CM + BIN_DEPTH_CM / 2)) = Some 50
  /\ spec_fill_level (F32.of_Z (SENSOR_OFFSET_CM + BIN_DEPTH_CM / 2)) = Some 50.
Proof.
  intros V N.
  split.
  { intros H. unfold calculateFillLevel. fold (adjusted distance). rewrite H. reflexivity. }
  split.
  { intros H0 H80. unfold calculateFillLevel. fold (adjusted distance).
    rewrite H0, H80. reflexivity. }
  split.
  { intros H0 H80.
    destruct (interpolation_value distance V N H0 H80) as (r & Hr & Hb & Hc).
    exists r. split; [|assumption].
    unfold to_int, fcast in Hr. destruct (ftrunc (fill_percentage (adjusted distance))) as [z|];
      [|discriminate].
    destruct ((- 2 ^ 31 <=? z) && (z <=? 2 ^ 31 - 1)); congruence. }
  split; [apply near_reads_full; exact V|].
  split; [apply far_reads_empty; exact V|].
  split; [apply level_near_exact; assumption|].
  split; reflexivity.
Qed.

Lemma calculateFillLevel_cases_witness :
  calculateFillLevel (F32.of_Z 3) = Some 100
  /\ (exists level exact,
        calculateFillLevel (S754_finite false 10485761 (-21)) = Some level
        /\ spec_fill_level (S754_finite false 10485761 (-21)) = Some exact
        /\ 0 <= level <= 100
        /\ exact - 1 <= level <= exact + 1).
Proof.
  destruct (calculateFillLevel_cases (F32.of_Z 3) eq_refl eq_refl)
    as (_ & _ & _ & H & _).
  destruct (calculateFillLevel_cases (S754_finite false 10485761 (-21)) eq_refl eq_refl)
    as (_ & _ & _ & _ & _ & T & _).
  split; [apply H; reflexivity|exact T].
Defined.

(** At 5 + 2 ^ -21 cm (5.00000048) the exact percentage is just below 100
    and truncates to 99; in binary32 the difference [80 - 2 ^ -21] rounds to
    80 and the code returns 100. *)
Lemma rounding_crosses_a_level :
  ~ (forall distance : float,
       F32.valid distance = true -> is_nan distance = false ->
       calculateFillLevel distance = spec_fill_level distance).
Proof.
  intros H.
  specialize (H (S754_finite false 10485761 (-21)) eq_refl eq_refl).
  assert (C : calculateFillLevel (S754_finite false 10485761 (-21)) = Some 100)
    by (vm_compute; reflexivity).
  assert (S : spec_fill_level (S754_finite false 10485761 (-21)) = Some 99)
    by (vm_compute; reflexivity).
  rewrite C, S in H. injection H as H. lia.
Qed.

(** * Further properties of the firmware

    ** calculateFillLevel: undefined input and whole centimetres *)

(** The level that exact integer arithmetic gives at [n] centimetres. *)
Definition whole_centimetre_level (n : Z) : Z :=
  if n <=? SENSOR_OFFSET_CM then 100
  else if SENSOR_OFFSET_CM + BIN_DEPTH_CM <=? n then 0
  else (BIN_DEPTH_CM - (n - SENSOR_OFFSET_CM)) * 100 / BIN_DEPTH_CM.

Definition agrees_at (n : Z) : bool :=
  match calculateFillLevel (F32.of_Z n) with
  | Some level => level =? whole_centimetre_level n
  | None => false
  end.

Lemma interpolation_table :
  forallb agrees_at (map Z.of_nat (seq 6 79)) = true.
Proof. vm_compute. reflexivity. Qed.

(** X1: the only distances for which calculateFillLevel has no defined
    result are the NaNs: both range tests are false for a NaN, and the cast
    [(int)fillPercentage] of a NaN is undefined. *)
Theorem calculateFillLevel_undefined_iff_nan (distance : float) :
  F32.valid distance = true ->
  (calculateFillLevel distance = None <-> is_nan distance = true).
Proof.
  intros V. split.
  - intros H. destruct (is_nan distance) eqn:N; [reflexivity|].
    destruct (calculateFillLevel_total distance V N) as (r & Hr & _). congruence.
  - intros N. destruct distance; try discriminate N. reflexivity.
Qed.

Lemma calculateFillLevel_undefined_iff_nan_witness :
  calculateFillLevel S754_nan = None <-> is_nan S754_nan = true.
Proof. apply (calculateFillLevel_undefined_iff_nan S754_nan). reflexivity. Defined.

(** X2: at a whole number [n] of centimetres the float computation agrees
    with exact integer arithmetic: 100 up to the sensor offset, 0 from offset
    + depth on, and in between the integer quotient
    [(BIN_DEPTH_CM - (n - SENSOR_OFFSET_CM)) * 100 / BIN_DEPTH_CM].  For a
    distance between [n] and [n + 1] centimetres the level lies between the
    exact levels of the two. *)
Theorem calculateFillLevel_whole_centimetres (n : Z) :
  calculateFillLevel (F32.of_Z n) = Some (whole_centimetre_level n)
  /\ forall distance,
       F32.valid distance = true ->
       fle (F32.of_Z n) distance = true -> fle distance (F32.of_Z (n + 1)) = true ->
       exists level,
         calculateFillLevel distance = Some level
         /\ whole_centimetre_level (n + 1) <= level <= whole_centimetre_level n.
Proof.
  assert (X : forall k, calculateFillLevel (F32.of_Z k) = Some (whole_centimetre_level k)).
  { intros k. unfold whole_centimetre_level.
    destruct (Z.leb_spec k SENSOR_OFFSET_CM) as [H5|H5].
    { apply near_reads_full; [apply of_Z_valid|apply of_Z_le, H5]. }
    destruct (Z.leb_spec (SENSOR_OFFSET_CM + BIN_DEPTH_CM) k) as [H85|H85].
    { apply far_reads_empty; [apply of_Z_valid|apply of_Z_le, H85]. }
    unfold SENSOR_OFFSET_CM, BIN_DEPTH_CM in H5, H85.
    pose proof interpolation_table as T. rewrite forallb_forall in T.
    assert (Hin : In k (map Z.of_nat (seq 6 79))).
    { apply in_map_iff. exists (Z.to_nat k). split; [lia|]. apply in_seq. lia. }
    specialize (T k Hin). unfold agrees_at in T.
    destruct (calculateFillLevel (F32.of_Z k)) as [level|]; [|discriminate T].
    apply Z.eqb_eq in T. rewrite T. unfold whole_centimetre_level.
    destruct (Z.leb_spec k SENSOR_OFFSET_CM) as [C|_];
      [unfold SENSOR_OFFSET_CM in C; lia|].
    destruct (Z.leb_spec (SENSOR_OFFSET_CM + BIN_DEPTH_CM) k) as [C|_];
      [unfold SENSOR_OFFSET_CM, BIN_DEPTH_CM in C; lia|].
    reflexivity. }
  split; [apply X|].
  intros distance V Hlo Hhi.
  destruct (farther_reads_emptier (F32.of_Z n) distance (of_Z_valid n) V Hlo)
    as (a & level & Ha & Hl & H1).
  destruct (farther_reads_emptier distance (F32.of_Z (n + 1)) V (of_Z_valid (n + 1)) Hhi)
    as (level' & b & Hl' & Hb & H2).
  rewrite X in Ha, Hb. exists level. split; [exact Hl|].
  assert (level' = level) by congruence.
  assert (a = whole_centimetre_level n) by congruence.
  assert (b = whole_centimetre_level (n + 1)) by congruence. lia.
Qed.

Lemma calculateFillLevel_whole_centimetres_witness :
  exists level,
    calculateFillLevel (reading_of_duration 2412) = Some level /\ 53 <= level <= 55.
Proof.
  apply (proj2 (calculateFillLevel_whole_centimetres 41) (reading_of_duration 2412));
    reflexivity.
Defined.

(** ** measureDistance: the sorting loops and the median filter *)

Lemma lex_compare_lt_le_trans (a b c : Z * Z * Z) :
  lex_compare a b = Lt -> lex_compare b c <> Gt -> lex_compare a c = Lt.
Proof.
  destruct a as [[a1 a2] a3], b as [[b1 b2] b3], c as [[c1 c2] c3].
  unfold lex_compare. clear.
  destruct (Z.compare_spec a1 b1), (Z.compare_spec b1 c1), (Z.compare_spec a1 c1);
    try lia; try congruence;
    destruct (Z.compare_spec a2 b2), (Z.compare_spec b2 c2), (Z.compare_spec a2 c2);
    try lia; try congruence;
    destruct (Z.compare_spec a3 b3), (Z.compare_spec b3 c3), (Z.compare_spec a3 c3);
    try lia; congruence.
Qed.

Lemma flt_fle_trans (x y z : float) :
  flt x y = true -> fle y z = true -> flt x z = true.
Proof.
  intros H1 H2. destruct (SFleb_not_nan y z H2) as [Ny Nz].
  assert (Nx : is_nan x = false) by (destruct x; try reflexivity; discriminate).
  apply SFleb_key in H2; try assumption.
  unfold flt, SFltb in *. rewrite SFcompare_key in * by assumption.
  rewrite (lex_compare_lt_le_trans (key x) (key y) (key z)); try assumption; try reflexivity.
  destruct (lex_compare (key x) (key y)); congruence.
Qed.

Lemma fle_false_flt (x y : float) :
  is_nan x = false -> is_nan y = false -> fle x y = false -> flt y x = true.
Proof.
  intros Nx Ny H. unfold fle, flt, SFleb, SFltb in *.
  rewrite (SFcompare_antisym x y Nx Ny). rewrite (SFcompare_key x y Nx Ny) in *.
  destruct (lex_compare (key x) (key y)); cbn [option_map CompOpp]; congruence.
Qed.

Lemma fle_antisym (x y : float) : fle x y = true -> fle y x = true -> feq x y = true.
Proof.
  intros H1 H2. destruct (SFleb_not_nan x y H1) as [Nx Ny].
  unfold fle, feq, SFleb, SFeqb in *.
  rewrite (SFcompare_antisym x y Nx Ny) in H2. rewrite (SFcompare_key x y Nx Ny) in *.
  destruct (lex_compare (key x) (key y)); cbn [option_map CompOpp] in H2; congruence.
Qed.

Lemma countb_le (f g : float -> bool) (l : list float) :
  (forall x, In x l -> f x = true -> g x = true) -> (countb f l <= countb g l)%nat.
Proof.
  induction l as [|x t IH]; intros H; cbn [countb]; [lia|].
  assert (countb f t <= countb g t)%nat by (apply IH; intros y Hy; apply H; right; exact Hy).
  pose proof (H x (or_introl eq_refl)) as Hx.
  destruct (f x); [rewrite Hx by reflexivity; lia|destruct (g x); lia].
Qed.

Lemma countb_exists (f : float -> bool) (l : list float) :
  (0 < countb f l)%nat -> exists x, In x l /\ f x = true.
Proof.
  induction l as [|x t IH]; cbn [countb]; [lia|]. intros H.
  destruct (f x) eqn:E; [exists x; split; [left; reflexivity|exact E]|].
  destruct (IH H) as (y & Hy & Fy). exists y. split; [right; exact Hy|exact Fy].
Qed.

Lemma countb_map (f : float -> bool) (g : nat -> float) (l : list nat) :
  countb f (map g l) = List.length (filter (fun k => f (g k)) l).
Proof.
  induction l as [|k t IH]; cbn [map countb filter]; [reflexivity|].
  destruct (f (g k)); cbn [List.length]; lia.
Qed.

(** A bound that holds for more than half of the readings holds for their
    median. *)
Lemma median_majority (m : float) (l : list float) (lo hi : float) :
  Forall not_nan l -> is_median m l ->
  ((List.length l < 2 * countb (fun x => fle x hi) l)%nat -> fle m hi = true)
  /\ ((List.length l < 2 * countb (fun x => fle lo x) l)%nat -> fle lo m = true).
Proof.
  intros Hn (Im & Lm & Gm). rewrite Forall_forall in Hn. pose proof (Hn m Im) as Nm.
  split; intros Hc.
  - destruct (countb_exists (fun x => fle x hi) l ltac:(lia)) as (y & _ & Hy).
    destruct (SFleb_not_nan y hi Hy) as [_ Nhi].
    destruct (fle m hi) eqn:E; [reflexivity|exfalso].
    pose proof (fle_false_flt m hi Nm Nhi E) as Hlt.
    assert (countb (fun x => fle x hi) l <= countb (fun x => flt x m) l)%nat; [|lia].
    apply countb_le. intros x _ Hx. exact (fle_flt_trans x hi m Hx Hlt).
  - destruct (countb_exists (fun x => fle lo x) l ltac:(lia)) as (y & _ & Hy).
    destruct (SFleb_not_nan lo y Hy) as [Nlo _].
    destruct (fle lo m) eqn:E; [reflexivity|exfalso].
    pose proof (fle_false_flt lo m Nlo Nm E) as Hlt.
    assert (countb (fun x => fle lo x) l <= countb (fun x => fgt x m) l)%nat; [|lia].
    apply countb_le. intros x _ Hx. apply flt_fgt. exact (flt_fle_trans m lo x Hlt Hx).
Qed.

Lemma measureDistance_is_median (pulse : nat -> Z) :
  (forall i, (i < NUM_SAMPLES)%nat -> 0 <= pulse i) ->
  is_median (measureDistance pulse) (collected pulse).
Proof.
  intros Hp. unfold measureDistance. rewrite <- (collected_length pulse) at 1.
  apply median_of_is_median; [apply collected_not_nan, Hp|].
  rewrite collected_length. reflexivity.
Qed.

(** X3: whatever the readings, the sorting loops of measureDistance
    rearrange them without adding or losing one; when no reading is a NaN
    the result is in ascending order. *)
Theorem sort_readings_sorts (readings : list float) :
  Permutation (sort_readings (List.length readings) readings) readings
  /\ (Forall not_nan readings ->
      forall p q, (p <= q < List.length readings)%nat ->
        fle (nth p (sort_readings (List.length readings) readings) fnan)
            (nth q (sort_readings (List.length readings) readings) fnan) = true).
Proof.
  split; [apply sort_readings_perm|].
  intros Hn p q [Hpq Hq].
  destruct (Nat.eq_dec p q) as [->|Hne].
  - apply SFleb_refl. apply nth_not_nan.
    + apply (not_nan_perm _ readings); [apply sort_readings_perm|exact Hn].
    + rewrite (Permutation_length (sort_readings_perm readings)). exact Hq.
  - apply sort_readings_sorted; [exact Hn|lia|exact Hq].
Qed.

(** X4: the estimate is one of the five readings, and it is robust against
    a minority of outliers: an upper (lower) bound met by at least three of
    the five readings is met by the estimate, however far off the other two
    are. *)
Theorem measureDistance_majority (pulse : nat -> Z) (lo hi : float) :
  (forall i, (i < NUM_SAMPLES)%nat -> 0 <= pulse i) ->
  In (measureDistance pulse) (collected pulse)
  /\ ((3 <= countb (fun x => fle x hi) (collected pulse))%nat ->
      fle (measureDistance pulse) hi = true)
  /\ ((3 <= countb (fun x => fle lo x) (collected pulse))%nat ->
      fle lo (measureDistance pulse) = true).
Proof.
  intros Hp. pose proof (measureDistance_is_median pulse Hp) as Hm.
  destruct (median_majority _ _ lo hi (collected_not_nan pulse Hp) Hm) as [Hu Hl].
  rewrite collected_length in Hu, Hl. unfold NUM_SAMPLES in Hu, Hl.
  split; [apply Hm|]. split; intros Hc; [apply Hu|apply Hl]; lia.
Qed.

Lemma measureDistance_majority_witness :
  fle (measureDistance (fun i => nth i [2353; 0; 2412; 30000; 2471] 0)) (F32.of_Z 43) = true
  /\ fle (F32.of_Z 40) (measureDistance (fun i => nth i [2353; 0; 2412; 30000; 2471] 0)) = true.
Proof.
  destruct (measureDistance_majority (fun i => nth i [2353; 0; 2412; 30000; 2471] 0)
              (F32.of_Z 40) (F32.of_Z 43)) as (_ & Hu & Hl).
  - intros [|[|[|[|[|i]]]]] _; cbn [nth]; try lia. destruct i; lia.
  - split; [apply Hu|apply Hl]; apply Nat.leb_le; vm_compute; reflexivity.
Defined.

(** X5: when at least three of the five echo measurements time out, the
    estimate is exactly the sentinel MAX_DISTANCE_CM, whatever the other two
    echoes are, and the bin is reported empty. *)
Theorem three_timeouts_read_empty (pulse : nat -> Z) :
  (forall i, (i < NUM_SAMPLES)%nat -> 0 <= pulse i) ->
  (3 <= List.length (filter (fun i => (pulse i =? 0)%Z) (seq 0 NUM_SAMPLES)))%nat ->
  measureDistance pulse = F32.of_Z MAX_DISTANCE_CM
  /\ calculateFillLevel (measureDistance pulse) = Some 0.
Proof.
  intros Hp Hc.
  assert (E : measureDistance pulse = F32.of_Z MAX_DISTANCE_CM); [|rewrite E; split; reflexivity].
  destruct (measureDistance_majority pulse (F32.of_Z MAX_DISTANCE_CM) (F32.of_Z MAX_DISTANCE_CM) Hp)
    as (Hin & Hu & Hl).
  assert (Hs : forall (f : float -> bool), f (F32.of_Z MAX_DISTANCE_CM) = true ->
            (3 <= countb f (collected pulse))%nat).
  { intros f Hf. rewrite collected_map, countb_map.
    eapply Nat.le_trans; [exact Hc|].
    clear Hc. induction (seq 0 NUM_SAMPLES) as [|k t IH]; cbn [filter]; [lia|].
    destruct (Z.eqb_spec (pulse k) 0) as [Hz|Hz].
    - rewrite Hz. change (reading_of_duration 0) with (F32.of_Z MAX_DISTANCE_CM).
      rewrite Hf. cbn [List.length]. lia.
    - destruct (f (reading_of_duration (pulse k))); cbn [List.length]; lia. }
  apply plus_feq_eq.
  - destruct (collected_In pulse _ Hin) as (i & Hi & ->). apply reading_plus, Hp, Hi.
  - exact I.
  - apply fle_antisym; [apply Hu|apply Hl]; apply Hs; reflexivity.
Qed.

Lemma three_timeouts_read_empty_witness :
  measureDistance (fun i => nth i [0; 2353; 0; 30000; 0] 0) = F32.of_Z MAX_DISTANCE_CM
  /\ calculateFillLevel (measureDistance (fun i => nth i [0; 2353; 0; 30000; 0] 0)) = Some 0.
Proof.
  apply (three_timeouts_read_empty (fun i => nth i [0; 2353; 0; 30000; 0] 0)).
  - intros [|[|[|[|[|i]]]]] _; cbn [nth]; try lia. destruct i; lia.
  - apply Nat.leb_le. vm_compute. reflexivity.
Defined.

Lemma countb_negb (f : float -> bool) (l : list float) :
  (countb f l + countb (fun x => negb (f x)) l = List.length l)%nat.
Proof.
  induction l as [|x t IH]; cbn [countb List.length]; [reflexivity|].
  destruct (f x); cbn [negb]; lia.
Qed.

Lemma countb_pointwise (f g : float -> bool) (l l' : list float) :
  Forall2 (fun x x' => g x' = true -> f x = true) l l' ->
  (countb g l' <= countb f l)%nat.
Proof.
  induction 1 as [|x x' t t' H _ IH]; cbn [countb]; [lia|].
  destruct (g x'); [rewrite H by reflexivity; lia|destruct (f x); lia].
Qed.

(** The median is monotone: raising readings never lowers it. *)
Lemma median_mono (m m' : float) (l l' : list float) :
  Forall2 (fun x x' => fle x x' = true) l l' ->
  is_median m l -> is_median m' l' -> fle m m' = true.
Proof.
  intros H2 (Im & Lm & _) (Im' & _ & Gm').
  pose proof (Forall2_length H2) as L.
  assert (Nm : is_nan m = false).
  { clear - H2 Im. induction H2 as [|x x' t t' H _ IH]; [contradiction|].
    destruct Im as [<-|Im]; [exact (proj1 (SFleb_not_nan _ _ H))|exact (IH Im)]. }
  assert (Nm' : is_nan m' = false).
  { clear - H2 Im'. induction H2 as [|x x' t t' H _ IH]; [contradiction|].
    destruct Im' as [<-|Im']; [exact (proj2 (SFleb_not_nan _ _ H))|exact (IH Im')]. }
  destruct (fle m m') eqn:E; [reflexivity|exfalso].
  pose proof (fle_false_flt m m' Nm Nm' E) as Hlt.
  assert (C : (countb (fun x => negb (fgt x m')) l' <= countb (fun x => flt x m) l)%nat).
  { apply countb_pointwise. eapply Forall2_impl; [|exact H2].
    intros x x' Hx Hg. cbv beta in Hg. apply negb_true_iff in Hg.
    destruct (SFleb_not_nan _ _ Hx) as [_ Nx'].
    apply (fle_flt_trans x m' m); [|exact Hlt].
    eapply SFleb_trans; [exact Hx|]. apply fgt_false_fle; assumption. }
  pose proof (countb_negb (fun x => fgt x m') l') as Hc. cbv beta in Hc.
  unfold float in *. lia.
Qed.

(** X6: the conversion of an echo to centimetres is monotone in the pulse
    width, but the value recorded for a timeout is not the largest reading:
    it ranks between the echoes of 11764 and 11765 microseconds. *)
Theorem reading_of_duration_order (d1 d2 : Z) :
  0 < d1 <= d2 ->
  fle (reading_of_duration d1) (reading_of_duration d2) = true
  /\ (d2 <= 11764 -> fle (reading_of_duration d2) (reading_of_duration 0) = true)
  /\ (11765 <= d1 -> fle (reading_of_duration 0) (reading_of_duration d1) = true).
Proof.
  intros Hd. split; [apply reading_chain; exact Hd|]. split; intros H.
  - eapply SFleb_trans; [|exact reading_11764]. apply reading_chain. lia.
  - eapply SFleb_trans; [|apply (reading_chain 11765 d1); lia]. reflexivity.
Qed.

Lemma reading_of_duration_order_witness :
  fle (reading_of_duration 2353) (reading_of_duration 20000) = true
  /\ fle (reading_of_duration 0) (reading_of_duration 20000) = true.
Proof.
  destruct (reading_of_duration_order 20000 20000 ltac:(lia)) as (_ & _ & H0).
  destruct (reading_of_duration_order 2353 20000 ltac:(lia)) as (H & _).
  split; [exact H|apply H0; lia].
Defined.

(** X7: the whole measurement is monotone: when every echo is at least as
    long as before (a timeout staying a timeout), the estimate does not
    decrease and the fill level computed from it does not increase. *)
Theorem measureDistance_monotone (pulse pulse' : nat -> Z) :
  (forall i, (i < NUM_SAMPLES)%nat ->
     (pulse i = 0 /\ pulse' i = 0) \/ 0 < pulse i <= pulse' i) ->
  fle (measureDistance pulse) (measureDistance pulse') = true
  /\ exists level level',
       calculateFillLevel (measureDistance pulse) = Some level
       /\ calculateFillLevel (measureDistance pulse') = Some level'
       /\ level' <= level.
Proof.
  intros H.
  assert (Hp : forall i, (i < NUM_SAMPLES)%nat -> 0 <= pulse i)
    by (intros i Hi; destruct (H i Hi); lia).
  assert (Hp' : forall i, (i < NUM_SAMPLES)%nat -> 0 <= pulse' i)
    by (intros i Hi; destruct (H i Hi); lia).
  assert (Hle : fle (measureDistance pulse) (measureDistance pulse') = true).
  { apply (median_mono _ _ (collected pulse) (collected pulse'));
      [|apply measureDistance_is_median, Hp|apply measureDistance_is_median, Hp'].
    rewrite !collected_map.
    assert (Hk : forall k, In k (seq 0 NUM_SAMPLES) -> (k < NUM_SAMPLES)%nat)
      by (intros k Hk; apply in_seq in Hk; lia).
    induction (seq 0 NUM_SAMPLES) as [|k t IH]; cbn [map]; constructor.
    - destruct (H k (Hk k (or_introl eq_refl))) as [[-> ->]|Hd];
        [reflexivity|apply reading_chain; exact Hd].
    - apply IH. intros j Hj. apply Hk. right. exact Hj. }
  split; [exact Hle|].
  apply farther_reads_emptier; [| |exact Hle].
  - destruct (measureDistance_In pulse) as (i & Hi & ->). apply reading_nn, Hp, Hi.
  - destruct (measureDistance_In pulse') as (i & Hi & ->). apply reading_nn, Hp', Hi.
Qed.

Lemma measureDistance_monotone_witness :
  fle (measureDistance (fun i => nth i [2353; 0; 2412; 2471; 2412] 0))
      (measureDistance (fun i => nth i [2400; 0; 3000; 2471; 2500] 0)) = true.
Proof.
  apply (measureDistance_monotone (fun i => nth i [2353; 0; 2412; 2471; 2412] 0)
                                  (fun i => nth i [2400; 0; 3000; 2471; 2500] 0)).
  intros [|[|[|[|[|i]]]]] Hi; cbn [nth]; try lia.
  unfold NUM_SAMPLES in Hi. lia.
Defined.

(** ** readBatteryVoltage and the millivolt field *)

Definition ideal_millivolts (raw : Z) : Z := raw * 6600 / 4095.

Definition millivolts_agree (raw : Z) : bool :=
  match to_uint16 (F32.mul (readBatteryVoltage raw) (F32.of_Z 1000)) with
  | Some mv => mv =? ideal_millivolts raw
  | None => false
  end.

Lemma millivolt_table : forallb millivolts_agree (map Z.of_nat (seq 0 4096)) = true.
Proof. vm_compute. reflexivity. Qed.

Lemma product_nn (voltage : float) :
  nn voltage -> F32.valid voltage = true ->
  nn (F32.mul voltage (F32.of_Z 1000))
  /\ F32.valid (F32.mul voltage (F32.of_Z 1000)) = true.
Proof.
  intros N V. rewrite thousand_float.
  apply (SFmul_pos_nn F32.prec F32.emax f32_prec f32_emin); [exact N|exact V|reflexivity].
Qed.

Lemma product_mono (v1 v2 : float) :
  nn v1 -> nn v2 -> F32.valid v1 = true -> F32.valid v2 = true ->
  fle v1 v2 = true ->
  fle (F32.mul v1 (F32.of_Z 1000)) (F32.mul v2 (F32.of_Z 1000)) = true.
Proof.
  intros N1 N2 V1 V2 H. rewrite thousand_float.
  apply (SFmul_pos_mono F32.prec F32.emax f32_prec f32_emin); try assumption. reflexivity.
Qed.

Lemma ftrunc_finite (x : float) (z : Z) : ftrunc x = Some z -> is_finite x = true.
Proof. destruct x; try discriminate; reflexivity. Qed.

(** The millivolt value grows with the voltage. *)
Lemma millivolts_mono (v1 v2 : float) (t2 : Z) :
  nn v1 -> nn v2 -> F32.valid v1 = true -> F32.valid v2 = true ->
  fle v1 v2 = true ->
  ftrunc (F32.mul v2 (F32.of_Z 1000)) = Some t2 ->
  exists t1, ftrunc (F32.mul v1 (F32.of_Z 1000)) = Some t1 /\ 0 <= t1 <= t2.
Proof.
  intros N1 N2 V1 V2 H T2.
  destruct (product_nn v1 N1 V1) as [Np1 Vp1]. destruct (product_nn v2 N2 V2) as [Np2 Vp2].
  destruct (ftrunc_mono F32.prec F32.emax _ _ f32_prec Np1 Np2 Vp1 Vp2
              (ftrunc_finite _ _ T2) (product_mono v1 v2 N1 N2 V1 V2 H))
    as (a & b & Ta & Tb & Hab).
  exists a. split; [exact Ta|]. assert (b = t2) by congruence. lia.
Qed.

(** X8: for every 12-bit ADC value the millivolt field is exactly the
    integer quotient [raw * 6600 / 4095]: the float evaluation of
    [(raw / 4095.0) * 3.3 * 2.0] and of [voltage * 1000] loses nothing the
    truncation keeps. *)
Theorem battery_millivolts_exact (raw : Z) :
  0 <= raw <= 4095 ->
  to_uint16 (F32.mul (readBatteryVoltage raw) (F32.of_Z 1000))
  = Some (ideal_millivolts raw).
Proof.
  intros Hr. pose proof millivolt_table as T. rewrite forallb_forall in T.
  assert (Hin : In raw (map Z.of_nat (seq 0 4096))).
  { apply in_map_iff. exists (Z.to_nat raw). split; [lia|]. apply in_seq. lia. }
  specialize (T raw Hin). unfold millivolts_agree in T.
  destruct (to_uint16 (F32.mul (readBatteryVoltage raw) (F32.of_Z 1000))) as [mv|];
    [|discriminate T].
  apply Z.eqb_eq in T. rewrite T. reflexivity.
Qed.

Lemma battery_millivolts_exact_witness :
  to_uint16 (F32.mul (readBatteryVoltage 2048) (F32.of_Z 1000)) = Some 3300.
Proof. apply (battery_millivolts_exact 2048). lia. Defined.

(** X9: readBatteryVoltage is monotone in the raw ADC value, and so is the
    millivolt value the encoder derives from it. *)
Theorem readBatteryVoltage_monotone (raw1 raw2 : Z) :
  0 <= raw1 <= raw2 ->
  fle (readBatteryVoltage raw1) (readBatteryVoltage raw2) = true
  /\ forall mv2,
       to_uint16 (F32.mul (readBatteryVoltage raw2) (F32.of_Z 1000)) = Some mv2 ->
       exists mv1,
         to_uint16 (F32.mul (readBatteryVoltage raw1) (F32.of_Z 1000)) = Some mv1
         /\ mv1 <= mv2.
Proof.
  intros Hr. destruct (battery_chain raw1 raw2 Hr) as (Hle & N1 & V1).
  destruct (battery_chain raw2 raw2 ltac:(lia)) as (_ & N2 & V2).
  split; [exact Hle|]. intros mv2 H2.
  destruct (to_uint16_range _ _ H2) as [T2 R2].
  destruct (millivolts_mono _ _ mv2 N1 N2 V1 V2 Hle T2) as (t1 & T1 & H1).
  exists t1. split; [|lia].
  unfold to_uint16, fcast. rewrite T1.
  assert (A : (0 <=? t1) = true) by (apply Z.leb_le; lia).
  assert (B : (t1 <=? 2 ^ 16 - 1) = true) by (apply Z.leb_le; lia).
  rewrite A, B. reflexivity.
Qed.

Lemma readBatteryVoltage_monotone_witness :
  fle (readBatteryVoltage 2048) (readBatteryVoltage 4095) = true.
Proof. apply (readBatteryVoltage_monotone 2048 4095). lia. Defined.

(** The largest binary32 voltage whose millivolt value fits [uint16_t]:
    8589934 * 2 ^ -17, just below 65.536 V. *)
Definition max_encodable_voltage : float := S754_finite false 8589934 (-17).

Lemma lex_compare_first (a b : Z * Z * Z) :
  fst (fst a) < fst (fst b) -> lex_compare a b = Lt.
Proof.
  destruct a as [[a1 a2] a3], b as [[b1 b2] b3]. cbn [fst]. intros H.
  unfold lex_compare. destruct (Z.compare_spec a1 b1); [lia|reflexivity|lia].
Qed.

Lemma lex_compare_next (e m : Z) :
  lex_compare (1, e, m) (1, -17, 8589934) = Gt ->
  lex_compare (1, -17, 8589935) (1, e, m) <> Gt.
Proof.
  unfold lex_compare. rewrite !Z.compare_refl.
  destruct (Z.compare_spec e (-17)), (Z.compare_spec (-17) e);
    try lia; try discriminate.
  destruct (Z.compare_spec m 8589934), (Z.compare_spec 8589935 m);
    try lia; discriminate.
Qed.

Lemma above_max_encodable (voltage : float) :
  is_nan voltage = false -> fle voltage max_encodable_voltage = false ->
  fle (S754_finite false 8589935 (-17)) voltage = true.
Proof.
  intros N H.
  assert (K : lex_compare (key voltage) (1, -17, 8589934) = Gt).
  { unfold fle, SFleb, max_encodable_voltage in H.
    rewrite (SFcompare_key voltage (S754_finite false 8589934 (-17)) N eq_refl) in H.
    cbn [key] in H.
    destruct (lex_compare (key voltage) (1, -17, 8589934)); [discriminate H..|reflexivity]. }
  apply (SFleb_key (S754_finite false 8589935 (-17)) voltage eq_refl N). cbn [key].
  destruct voltage as [s|[|]| |[|] m e]; try discriminate N; cbn [key] in *.
  - rewrite lex_compare_first in K by (cbn [fst]; lia). discriminate K.
  - rewrite lex_compare_first in K by (cbn [fst]; lia). discriminate K.
  - rewrite lex_compare_first by (cbn [fst]; lia). discriminate.
  - rewrite lex_compare_first in K by (cbn [fst]; lia). discriminate K.
  - apply lex_compare_next. exact K.
Qed.

Lemma nonneg_nn (x : float) : fle (F32.of_Z 0) x = true -> nn x.
Proof.
  change (F32.of_Z 0) with (S754_zero false).
  destruct x as [s|[|]| |[|] m e]; intros H; try exact I; discriminate H.
Qed.

(** X10: a non-negative voltage can be encoded exactly when it is at most
    8589934 * 2 ^ -17 V (just below 65.536 V); for any larger voltage the
    cast to [uint16_t] is undefined and there is no payload. *)
Theorem voltage_encodable_range (binId : string) (fillLevel : Z) (voltage : float)
    (ms : Z) :
  fle (F32.of_Z 0) voltage = true -> F32.valid voltage = true ->
  (manufacturerData binId fillLevel voltage ms = None
   <-> fle voltage max_encodable_voltage = false).
Proof.
  intros N0 V. pose proof (nonneg_nn voltage N0) as N.
  assert (Vmax : F32.valid max_encodable_voltage = true) by reflexivity.
  assert (Tmax : ftrunc (F32.mul max_encodable_voltage (F32.of_Z 1000)) = Some 65535)
    by (vm_compute; reflexivity).
  split.
  - intros H. destruct (fle voltage max_encodable_voltage) eqn:E; [exfalso|reflexivity].
    destruct (millivolts_mono voltage max_encodable_voltage 65535 N I V Vmax E Tmax) as (t & T & Ht).
    assert (U : to_uint16 (F32.mul voltage (F32.of_Z 1000)) = Some t).
    { unfold to_uint16, fcast. rewrite T.
      assert (A : (0 <=? t) = true) by (apply Z.leb_le; lia).
      assert (B : (t <=? 2 ^ 16 - 1) = true) by (apply Z.leb_le; lia).
      rewrite A, B. reflexivity. }
    rewrite (manufacturerData_bytes binId fillLevel voltage ms t U) in H. discriminate H.
  - intros H. apply manufacturerData_undefined.
    pose proof (above_max_encodable voltage (nn_not_nan _ N) H) as Hn.
    unfold to_uint16, fcast.
    destruct (ftrunc (F32.mul voltage (F32.of_Z 1000))) as [t|] eqn:T; [|reflexivity].
    assert (Tn : ftrunc (F32.mul (S754_finite false 8589935 (-17)) (F32.of_Z 1000))
                 = Some 65536) by (vm_compute; reflexivity).
    destruct (millivolts_mono (S754_finite false 8589935 (-17)) voltage t I N eq_refl V Hn T) as (a & Ta & Ha).
    assert (a = 65536) by congruence.
    assert (B : (t <=? 2 ^ 16 - 1) = false) by (apply Z.leb_gt; lia).
    rewrite B, andb_false_r. reflexivity.
Qed.

Lemma voltage_encodable_range_witness :
  manufacturerData BIN_ID 50 (F32.of_Z 70) 0 = None
  <-> fle (F32.of_Z 70) max_encodable_voltage = false.
Proof. apply (voltage_encodable_range BIN_ID 50 (F32.of_Z 70) 0); reflexivity. Defined.

(** ** broadcastData: bytes of the payload *)

Lemma payload_parts (binId : string) (fillLevel : Z) (voltage : float) (ms : Z)
    (payload : list Z) :
  manufacturerData binId fillLevel voltage ms = Some payload ->
  exists mv,
    to_uint16 (F32.mul voltage (F32.of_Z 1000)) = Some mv
    /\ 0 <= mv < 2 ^ 16
    /\ payload = id_bytes binId ++ field_bytes fillLevel mv ms.
Proof.
  intros H.
  destruct (to_uint16 (F32.mul voltage (F32.of_Z 1000))) as [mv|] eqn:E.
  - exists mv. split; [reflexivity|]. split; [apply (to_uint16_range _ _ E)|].
    rewrite (manufacturerData_bytes binId fillLevel voltage ms mv E) in H. congruence.
  - rewrite (manufacturerData_undefined binId fillLevel voltage ms E) in H. discriminate H.
Qed.

Lemma timestamp_bound (ms : Z) : 0 <= timestamp_of ms <= 4294967.
Proof.
  unfold timestamp_of.
  pose proof (Z.mod_pos_bound ms (2 ^ 32) ltac:(lia)) as H.
  split; [apply Z.div_pos; lia|].
  apply Z.lt_succ_r. apply Z.div_lt_upper_bound; lia.
Qed.

Lemma last_app_cons (l t : list Z) (x d : Z) : last (l ++ x :: t) d = last (x :: t) d.
Proof.
  induction l as [|y l IH]; [reflexivity|].
  cbn [app]. rewrite <- IH. cbn [last]. destruct (l ++ x :: t) eqn:E; [|reflexivity].
  destruct l; discriminate E.
Qed.

(** X11: every element of a payload is a byte, and a payload has between 7
    and 13 of them: at most six identifier characters and the seven bytes of
    the three fields. *)
Theorem payload_bytes (binId : string) (fillLevel : Z) (voltage : float) (ms : Z)
    (payload : list Z) :
  manufacturerData binId fillLevel voltage ms = Some payload ->
  Forall (fun b => 0 <= b <= 255) payload
  /\ (7 <= List.length payload <= 13)%nat.
Proof.
  intros H. destruct (payload_parts _ _ _ _ _ H) as (mv & _ & _ & ->).
  assert (B : forall z, 0 <= to_char z <= 255).
  { intros z. unfold to_char. pose proof (Z.mod_pos_bound z 256 ltac:(lia)). lia. }
  split.
  - apply Forall_app. split.
    + unfold id_bytes. apply Forall_forall. intros b Hb.
      apply in_map_iff in Hb. destruct Hb as (k & <- & _). apply B.
    + unfold field_bytes. repeat constructor; apply B.
  - rewrite length_app, id_bytes_length. cbn [field_bytes List.length]. lia.
Qed.

Lemma payload_bytes_witness :
  Forall (fun b => 0 <= b <= 255) [65; 66; 44; 228; 12; 0; 0; 0; 0]
  /\ (7 <= List.length [65; 66; 44; 228; 12; 0; 0; 0; 0] <= 13)%nat.
Proof.
  apply (payload_bytes "AB" 300 (readBatteryVoltage 2048) 0). vm_compute. reflexivity.
Defined.

(** X12: the uptime field never uses its fourth byte: [millis()] is a
    32-bit counter of milliseconds, so the seconds stored are at most
    4294967 and the last byte of every payload is 0. *)
Theorem uptime_top_byte_zero (binId : string) (fillLevel : Z) (voltage : float)
    (ms : Z) (payload : list Z) :
  manufacturerData binId fillLevel voltage ms = Some payload ->
  last payload 1 = 0
  /\ ((6 <= String.length binId)%nat ->
      nth 12 payload 1 = 0 /\ 0 <= t_uptime (decode payload) <= 4294967).
Proof.
  intros H. destruct (payload_parts _ _ _ _ _ H) as (mv & _ & Hmv & ->).
  pose proof (timestamp_bound ms) as Hts.
  assert (Z0 : timestamp_of ms / 2 ^ 24 = 0) by (apply Z.div_small; lia).
  rewrite field_bytes_values by assumption. rewrite Z0.
  split; [rewrite last_app_cons; reflexivity|].
  intros H6. rewrite (id_bytes_6 binId H6).
  unfold decode. cbn [app nth t_uptime]. split; [reflexivity|].
  change (2 ^ 8) with 256. change (2 ^ 16) with 65536. change (2 ^ 24) with 16777216.
  Z.div_mod_to_equations. lia.
Qed.

Lemma uptime_top_byte_zero_witness :
  last [86; 65; 82; 95; 48; 49; 55; 228; 12; 55; 137; 65; 0] 1 = 0.
Proof.
  apply (uptime_top_byte_zero BIN_ID 55 (readBatteryVoltage 2048) 4294967295).
  vm_compute. reflexivity.
Defined.

(** X13: only the first six characters of the identifier reach the
    payload: two identifiers that agree on them (and are equally long when
    shorter than six) give the same bytes, as VAR_012 and VAR_013 do. *)
Theorem identifier_truncated (id1 id2 : string) (fillLevel : Z) (voltage : float)
    (ms : Z) :
  Nat.min 6 (String.length id1) = Nat.min 6 (String.length id2) ->
  (forall i, (i < Nat.min 6 (String.length id1))%nat -> char_at i id1 = char_at i id2) ->
  manufacturerData id1 fillLevel voltage ms = manufacturerData id2 fillLevel voltage ms.
Proof.
  intros Hlen Hch.
  assert (Hid : id_bytes id1 = id_bytes id2).
  { unfold id_bytes. rewrite <- Hlen. apply map_ext_in. intros i Hi.
    apply in_seq in Hi. unfold byte_at. rewrite Hch by lia. reflexivity. }
  destruct (to_uint16 (F32.mul voltage (F32.of_Z 1000))) as [mv|] eqn:E.
  - rewrite !(manufacturerData_bytes _ fillLevel voltage ms mv E), Hid. reflexivity.
  - rewrite !(manufacturerData_undefined _ fillLevel voltage ms E). reflexivity.
Qed.

Lemma identifier_truncated_witness :
  manufacturerData "VAR_012" 55 (readBatteryVoltage 2048) 0
  = manufacturerData "VAR_013" 55 (readBatteryVoltage 2048) 0.
Proof.
  apply (identifier_truncated "VAR_012" "VAR_013").
  - reflexivity.
  - intros [|[|[|[|[|[|i]]]]]] Hi; try reflexivity. cbn in Hi. lia.
Defined.

(** ** loop: what one pass measures and broadcasts *)

Lemma loop_run (st : Node) (fillLevel : Z) (payload : list Z) :
  calculateFillLevel (measureDistance (pending_echoes st)) = Some fillLevel ->
  manufacturerData BIN_ID fillLevel (readBatteryVoltage (adc st))
    ((clock_ms st + 250) mod 2 ^ 32) = Some payload ->
  loop st
  = Some (tt, mkNode (clock_ms st + 5350) false true (Some (SLEEP_INTERVAL * 1000))
                     (echo st) (echo_count st + NUM_SAMPLES)%nat (adc st)
                     (trace st
                      ++ sampling_events (echo st) (echo_count st) NUM_SAMPLES
                      ++ [ EvAnalogRead (adc st);
                           EvSetAdvertisementData payload BIN_ID;
                           EvAdvertisingStart (clock_ms st + 250);
                           EvDelay 5000;
                           EvAdvertisingStop (clock_ms st + 5250);
                           EvDelay 100;
                           EvTimerWakeup (SLEEP_INTERVAL * 1000);
                           EvDeepSleep (clock_ms st + 5350) false ])).
Proof.
  intros Hfill Hdata.
  unfold loop. unfold bind at 1. rewrite measureDistance_io_run.
  unfold bind at 1. unfold lift at 1. rewrite Hfill.
  unfold bind at 1. rewrite readBatteryVoltage_io_run.
  cbn [adc]. unfold bind at 1.
  rewrite (broadcastData_run fillLevel (readBatteryVoltage (adc st)) payload)
    by exact Hdata.
  unfold bind at 1. rewrite delay_run. rewrite enterDeepSleep_run.
  cbn [clock_ms advertising asleep wake_after_us echo echo_count adc trace].
  rewrite <- !app_assoc. cbn [app].
  replace (clock_ms st + 250 + 5000 + 100) with (clock_ms st + 5350) by lia.
  replace (clock_ms st + 250 + 5000) with (clock_ms st + 5250) by lia.
  reflexivity.
Qed.

(** X14: the sampling loop on the node computes measureDistance of the
    next NUM_SAMPLES echoes: it issues trigger, pulseIn and a 50 ms delay
    once per sample, in that order, consumes exactly those echoes, and
    leaves the radio and the sleep timer as they were. *)
Theorem measureDistance_io_refines (st : Node) :
  exists st',
    measureDistance_io st = Some (measureDistance (pending_echoes st), st')
    /\ trace st'
       = trace st
         ++ flat_map (fun k => [EvTrigger; EvPulseIn (echo st k); EvDelay 50])
                     (seq (echo_count st) NUM_SAMPLES)
    /\ echo_count st' = (echo_count st + NUM_SAMPLES)%nat
    /\ advertising st' = advertising st
    /\ asleep st' = asleep st
    /\ wake_after_us st' = wake_after_us st.
Proof.
  eexists. split; [apply measureDistance_io_run|].
  cbn [trace echo_count advertising asleep wake_after_us]. repeat split; reflexivity.
Qed.

(** X15: one pass of loop() always completes, for non-negative pulse widths
    and a 12-bit ADC value, and what it hands to the radio is a 13-byte
    payload that starts with "VAR_01" and decodes to the fill level of the
    five echoes just measured, a level in [0, 100], and to the millivolts
    [raw * 6600 / 4095] of the ADC value just read. *)
Theorem loop_broadcasts_measurement (st : Node) :
  (forall i, 0 <= echo st i) -> 0 <= adc st <= 4095 ->
  exists st' payload level,
    loop st = Some (tt, st')
    /\ In (EvSetAdvertisementData payload BIN_ID) (trace st')
    /\ calculateFillLevel (measureDistance (pending_echoes st)) = Some level
    /\ 0 <= level <= 100
    /\ List.length payload = 13%nat
    /\ firstn 6 payload = [86; 65; 82; 95; 48; 49]
    /\ t_fill (decode payload) = level
    /\ t_millivolts (decode payload) = ideal_millivolts (adc st)
    /\ echo_count st' = (echo_count st + NUM_SAMPLES)%nat.
Proof.
  intros Hecho Hadc.
  destruct (measureDistance_nn (pending_echoes st)) as [Vd Nd];
    [intros i; apply Hecho|].
  destruct (calculateFillLevel_total _ Vd Nd) as (level & Hfill & Hrange).
  pose proof (battery_millivolts_exact (adc st) Hadc) as Hmv.
  destruct (to_uint16_range _ _ Hmv) as [_ Hr].
  set (mv := ideal_millivolts (adc st)) in *.
  set (ms := (clock_ms st + 250) mod 2 ^ 32).
  pose proof (manufacturerData_bytes BIN_ID level (readBatteryVoltage (adc st)) ms mv Hmv)
    as Hdata.
  eexists. exists (id_bytes BIN_ID ++ field_bytes level mv ms), level.
  split; [exact (loop_run st level _ Hfill Hdata)|].
  cbn [trace echo_count].
  split; [apply in_or_app; right; apply in_or_app; right; right; left; reflexivity|].
  split; [exact Hfill|]. split; [exact Hrange|].
  rewrite field_bytes_values by exact Hr.
  change (id_bytes BIN_ID) with [86; 65; 82; 95; 48; 49].
  unfold decode. cbn [app nth firstn List.length t_fill t_millivolts].
  repeat split.
  - apply Z.mod_small. lia.
  - Z.div_mod_to_equations. lia.
Qed.

Lemma loop_broadcasts_measurement_witness :
  exists st' payload,
    loop (mkNode 0 false false None (fun i => nth i [2353; 2471; 2412; 0; 2412] 0)
                 0 2048 [])
    = Some (tt, st')
    /\ In (EvSetAdvertisementData payload BIN_ID) (trace st')
    /\ t_fill (decode payload) = 54
    /\ t_millivolts (decode payload) = 3300.
Proof.
  destruct (loop_broadcasts_measurement
              (mkNode 0 false false None
                      (fun i => nth i [2353; 2471; 2412; 0; 2412] 0) 0 2048 []))
    as (st' & payload & level & H & Hin & Hl & _ & _ & _ & Hf & Hm & _).
  - intros [|[|[|[|[|i]]]]]; cbn [echo nth]; try lia. destruct i; lia.
  - cbn [adc]. lia.
  - exists st', payload. split; [exact H|]. split; [exact Hin|].
    assert (E : calculateFillLevel
                  (measureDistance
                     (pending_echoes
                        (mkNode 0 false false None
                                (fun i => nth i [2353; 2471; 2412; 0; 2412] 0) 0 2048 [])))
                = Some 54) by (vm_compute; reflexivity).
    rewrite E in Hl. injection Hl as <-. split; [exact Hf|exact Hm].
Defined.
